(** * docsearch-mvp frontend: session store, streaming client and citation handler

    A shallow embedding of the TypeScript services of the chat widget:
    - [StateManager] (services/state-manager.ts): the session store,
    - [WebSocketClient] (services/websocket-client.ts): frame dispatch,
      constructor defaults and the reconnect policy,
    - [CitationHandler] (services/citation-handler.ts): grouping and
      de-duplication of citations,
    together with a reference-level model of the store (what a caller can do
    with the arrays and objects the getters hand out) and a value-level model
    of [JSON.stringify] / [JSON.parse] for session export and import.

    Conventions.  A [Date] is its epoch time in milliseconds ([Z]).  The two
    sources of nondeterminism of the store, [Date.now()] / [new Date()] and
    [Math.random()], are made explicit as an [Env] argument.  Numbers that the
    code only compares ([relevance_score], the Jaccard ratio, thresholds) are
    exact rationals; [Doubles] adds the rounding of the division.  Event
    listeners are caller code: the client's [emit] is recorded in a log, and
    in [WebSocketClient] a callback runs as one step, which is what happens
    when no listener calls back into the client.  [Reentrant] is the client
    with listeners that do call back, on the store it shares with the rest
    of the page. *)

From Stdlib Require Import ZArith QArith Qround String Ascii List Sorted Lia.
From stdpp Require Import base list strings gmap.

Set Warnings "-register-all".

Local Open Scope Z_scope.
Local Open Scope nat_scope.
Local Open Scope string_scope.
Local Open Scope list_scope.

(* ===================================================================== *)
(** * Part I: definitions                                                 *)
(* ===================================================================== *)

(** ** Run-time values (what [any] ranges over, as far as JSON can see) *)

Inductive JsValue : Type :=
| JsUndefined
| JsNull
| JsBool (b : bool)
| JsNumber (q : Q)
| JsString (s : string)
| JsDate (ms : option Z)            (* [None] is the Invalid Date *)
| JsArray (items : list JsValue)
| JsObject (props : list (string * JsValue)).

(** ** types/message.types.ts, types/citation.types.ts *)

Inductive Role := RUser | RAssistant | RSystem.
Inductive Status := Sending | Sent | Streaming | Completed | Error.

Record Citation := mkCitation {
  cit_id : string;
  source_file_id : string;
  source_file_url : string;
  source_file_name : string;
  content_snippet : string;
  relevance_score : option Q;
  page_number : option Z;
  cit_metadata : option JsValue
}.

Record CitationGroup := mkGroup {
  grp_source_file_id : string;
  grp_source_file_url : string;
  grp_source_file_name : string;
  grp_citations : list Citation;
  total_chunks : nat
}.

Record Message := mkMessage {
  msg_id : string;
  role : Role;
  content : string;
  timestamp : Z;
  status : Status;
  isStreaming : option bool;
  citations : option (list Citation);
  metadata : option JsValue
}.

Record ChatSession := mkSession {
  session_id : string;
  messages : list Message;
  created_at : Z;
  updated_at : Z;
  title : option string
}.

#[global] Instance Role_eq_dec : EqDecision Role.
Proof. solve_decision. Defined.
#[global] Instance Status_eq_dec : EqDecision Status.
Proof. solve_decision. Defined.

(** [Omit<Message, 'id' | 'timestamp'>] *)
Record NewMessage := mkNewMessage {
  new_role : Role;
  new_content : string;
  new_status : Status;
  new_isStreaming : option bool;
  new_citations : option (list Citation);
  new_metadata : option JsValue
}.

(** [Partial<Message>]: every field may be absent. *)
Record Updates := mkUpdates {
  u_id : option string;
  u_role : option Role;
  u_content : option string;
  u_timestamp : option Z;
  u_status : option Status;
  u_isStreaming : option bool;
  u_citations : option (list Citation);
  u_metadata : option JsValue
}.

Definition no_updates : Updates :=
  mkUpdates None None None None None None None None.

(** What the environment supplies to one store call: the clock reading and
    the base-36 suffixes produced from [Date.now()] and [Math.random()]. *)
Record Env := mkEnv {
  now : Z;
  rand_msg : string;
  rand_session : string
}.

(** ** services/state-manager.ts *)

Module StateManager.

Inductive ConnectionState := connecting | connected | disconnected.

Record t := mk {
  currentSession : option ChatSession;
  connectionState : ConnectionState
}.

Definition generateSessionId (e : Env) : string := "session_" +:+ rand_session e.
Definition generateMessageId (e : Env) : string := "msg_" +:+ rand_msg e.

Definition freshSession (e : Env) : ChatSession :=
  {| session_id := generateSessionId e; messages := [];
     created_at := now e; updated_at := now e; title := None |}.

(** The private constructor: [initializeSession()], state [disconnected]. *)
Definition create (e : Env) : t :=
  {| currentSession := Some (freshSession e); connectionState := disconnected |}.

Definition getCurrentSession (st : t) : option ChatSession := currentSession st.

Definition createNewSession (e : Env) (st : t) : ChatSession * t :=
  let s := freshSession e in
  (s, {| currentSession := Some s; connectionState := connectionState st |}).

Definition addMessage (e : Env) (m : NewMessage) (st : t) : Message * t :=
  let s := match currentSession st with
           | Some s => s
           | None => freshSession e
           end in
  let fullMessage :=
    {| msg_id := generateMessageId e; role := new_role m;
       content := new_content m; timestamp := now e;
       status := new_status m; isStreaming := new_isStreaming m;
       citations := new_citations m; metadata := new_metadata m |} in
  (fullMessage,
   {| currentSession :=
        Some {| session_id := session_id s;
                messages := messages s ++ [fullMessage];
                created_at := created_at s;
                updated_at := now e;
                title := title s |};
      connectionState := connectionState st |}).

(** [Array.prototype.findIndex]; [None] stands for [-1]. *)
Fixpoint findIndex {A} (p : A -> bool) (l : list A) : option nat :=
  match l with
  | [] => None
  | x :: r => if p x then Some 0 else option_map S (findIndex p r)
  end.

Definition or_else {A} (o : option A) (d : A) : A :=
  match o with Some x => x | None => d end.

(** [{ ...m, ...updates }] *)
Definition spread (m : Message) (u : Updates) : Message :=
  {| msg_id := or_else (u_id u) (msg_id m);
     role := or_else (u_role u) (role m);
     content := or_else (u_content u) (content m);
     timestamp := or_else (u_timestamp u) (timestamp m);
     status := or_else (u_status u) (status m);
     isStreaming := match u_isStreaming u with Some b => Some b | None => isStreaming m end;
     citations := match u_citations u with Some c => Some c | None => citations m end;
     metadata := match u_metadata u with Some c => Some c | None => metadata m end |}.

Definition updateMessage (messageId : string) (updates : Updates) (st : t)
  : option Message * t :=
  match currentSession st with
  | None => (None, st)
  | Some s =>
    match findIndex (fun m => String.eqb (msg_id m) messageId) (messages s) with
    | None => (None, st)
    | Some messageIndex =>
      match messages s !! messageIndex with
      | None => (None, st)
      | Some old =>
        let updatedMessage := spread old updates in
        (Some updatedMessage,
         {| currentSession :=
              Some {| session_id := session_id s;
                      messages := <[messageIndex := updatedMessage]> (messages s);
                      created_at := created_at s;
                      updated_at := updated_at s;
                      title := title s |};
            connectionState := connectionState st |})
      end
    end
  end.

Definition getMessages (st : t) : list Message :=
  match currentSession st with
  | Some s => messages s
  | None => []
  end.

Definition getLastMessage (st : t) : option Message :=
  last (getMessages st).

Definition addCitationsToMessage (messageId : string) (cs : list Citation) (st : t) : t :=
  snd (updateMessage messageId
         (mkUpdates None None None None None None (Some cs) None) st).

Definition clearSession (st : t) : t :=
  match currentSession st with
  | Some s =>
    {| currentSession :=
         Some {| session_id := session_id s; messages := [];
                 created_at := created_at s; updated_at := updated_at s;
                 title := title s |};
       connectionState := connectionState st |}
  | None => st
  end.

Definition setConnectionState (c : ConnectionState) (st : t) : t :=
  {| currentSession := currentSession st; connectionState := c |}.

End StateManager.

(** ** services/websocket-client.ts *)

Module WebSocketClient.

(** *** Wire frames (types/api.types.ts) *)

Inductive FrameType :=
| message_delta | message_complete | citations_frame | error_frame
| session_start | session_end | connection_status
| typing_start | typing_stop
| unrecognized (name : string).

(** The fields of [data] the handlers read; each may be absent. *)
Record FrameData := mkData {
  d_content : option string;
  d_messageId : option string;
  d_citations : option (list Citation)
}.

(** [data = None] is a frame whose [data] is [null] or missing. *)
Record WebSocketMessage := mkFrame {
  frame_type : FrameType;
  frame_data : option FrameData
}.

Inductive ClientEvent :=
| ev_connected
| ev_disconnected (code : Z)
| ev_error
| ev_maxReconnectAttemptsReached
| ev_message (t : FrameType)
| ev_messageStart (messageId : string)
| ev_messageChunk (messageId : string) (chunk : option string)
| ev_messageComplete (messageId : string)
| ev_citations
| ev_serverError.

#[global] Instance FrameType_eq_dec : EqDecision FrameType.
Proof. solve_decision. Defined.
#[global] Instance ClientEvent_eq_dec : EqDecision ClientEvent.
Proof. solve_decision. Defined.

(** Truthiness of an optional string ([undefined] and [''] are falsy). *)
Definition truthy_string (o : option string) : bool :=
  match o with
  | Some s => negb (String.eqb s "")
  | None => false
  end.

(** Truthiness of the optional flag [isStreaming]. *)
Definition truthy_flag (o : option bool) : bool :=
  match o with Some b => b | None => false end.

Definition is_assistant (m : Message) : bool :=
  bool_decide (role m = RAssistant).

(** A handler yields the new store and the events it emitted, or [None]
    when it threw (the [try]/[catch] of [handleMessage] then drops the
    frame). *)
Definition Handler := StateManager.t -> option (StateManager.t * list ClientEvent).

(** The [messageId] of the payload [{ messageId: id, ...data }]: a
    [messageId] of the frame's data overrides the store's id. *)
Definition payloadId (data : option FrameData) (id : string) : string :=
  match data with
  | Some d => StateManager.or_else (d_messageId d) id
  | None => id
  end.

Definition handleMessageStart (e : Env) (data : option FrameData) : Handler :=
  fun st =>
    let '(message, st') :=
      StateManager.addMessage e
        {| new_role := RAssistant; new_content := "";
           new_status := Streaming; new_isStreaming := Some true;
           new_citations := None; new_metadata := None |} st in
    Some (st', [ev_messageStart (payloadId data (msg_id message))]).

Definition handleMessageChunk (data : option FrameData) : Handler :=
  fun st =>
    match StateManager.getLastMessage st with
    | Some lastMessage =>
      if is_assistant lastMessage && truthy_flag (isStreaming lastMessage) then
        match data with
        | None => None                       (* TypeError on [data.content] *)
        | Some d =>
          let updatedContent :=
            content lastMessage +:+ StateManager.or_else (d_content d) "" in
          let st' :=
            snd (StateManager.updateMessage (msg_id lastMessage)
                   (mkUpdates None None (Some updatedContent) None None
                              (Some true) None None) st) in
          Some (st', [ev_messageChunk (msg_id lastMessage) (d_content d)])
        end
      else Some (st, [])
    | None => Some (st, [])
    end.

Definition handleMessageComplete (data : option FrameData) : Handler :=
  fun st =>
    match StateManager.getLastMessage st with
    | Some lastMessage =>
      if is_assistant lastMessage then
        match data with
        | None => None                       (* TypeError on [data.content] *)
        | Some d =>
          let final :=
            if truthy_string (d_content d) then d_content d else None in
          let st' :=
            snd (StateManager.updateMessage (msg_id lastMessage)
                   (mkUpdates None None final None None
                              (Some false) None None) st) in
          Some (st', [ev_messageComplete (payloadId data (msg_id lastMessage))])
        end
      else Some (st, [])
    | None => Some (st, [])
    end.

Definition handleCitations (data : option FrameData) : Handler :=
  fun st =>
    match data with
    | None => None                           (* destructuring [null] throws *)
    | Some d =>
      match d_citations d with
      | Some cs =>
        if truthy_string (d_messageId d) then
          Some (StateManager.addCitationsToMessage
                  (StateManager.or_else (d_messageId d) "") cs st,
                [ev_citations])
        else Some (st, [])
      | None => Some (st, [])
      end
    end.

Definition handleError (data : option FrameData) : Handler :=
  fun st => Some (st, [ev_serverError]).

(** [handleMessage]: [raw = None] is a payload [JSON.parse] rejects. *)
Definition handleMessage (e : Env) (raw : option WebSocketMessage)
           (st : StateManager.t) : StateManager.t * list ClientEvent :=
  match raw with
  | None => (st, [])
  | Some message =>
    let h : Handler :=
      match frame_type message with
      | typing_start => handleMessageStart e (frame_data message)
      | message_delta => handleMessageChunk (frame_data message)
      | message_complete => handleMessageComplete (frame_data message)
      | citations_frame => handleCitations (frame_data message)
      | error_frame => handleError (frame_data message)
      | _ => fun st => Some (st, [])
      end in
    match h st with
    | Some (st', evs) => (st', evs ++ [ev_message (frame_type message)])
    | None => (st, [])
    end
  end.

(** Frames are handled strictly in arrival order. *)
Fixpoint handleFrames (frames : list (Env * WebSocketMessage))
         (st : StateManager.t) : StateManager.t :=
  match frames with
  | [] => st
  | (e, f) :: rest => handleFrames rest (fst (handleMessage e (Some f) st))
  end.

(** *** Construction *)

(** [WebSocketConfig]: every numeric option may be omitted.  The options
    are millisecond and attempt counts, modelled as integers. *)
Record WebSocketConfig := mkWebSocketConfig {
  url : string;
  reconnectAttempts : option Z;
  maxReconnectAttempts : option Z;
  reconnectDelay : option Z;
  reconnectInterval : option Z;
  heartbeatInterval : option Z;
  pingInterval : option Z
}.

(** [Required<WebSocketConfig>] *)
Record Config := mkConfig {
  cfg_url : string;
  cfg_reconnectAttempts : Z;
  cfg_maxReconnectAttempts : Z;
  cfg_reconnectInterval : Z;
  cfg_reconnectDelay : Z;
  cfg_pingInterval : Z;
  cfg_heartbeatInterval : Z
}.

(** [x || d] on an optional number: [undefined] and [0] are falsy. *)
Definition or_default (x : option Z) (d : Z) : Z :=
  match x with
  | Some v => if (v =? 0)%Z then d else v
  | None => d
  end.

Definition makeConfig (config : WebSocketConfig) : Config :=
  {| cfg_url := url config;
     cfg_reconnectAttempts := or_default (reconnectAttempts config) 0;
     cfg_maxReconnectAttempts := or_default (maxReconnectAttempts config) 5;
     cfg_reconnectInterval := or_default (reconnectInterval config) 3000;
     cfg_reconnectDelay := or_default (reconnectDelay config) 1000;
     cfg_pingInterval := or_default (pingInterval config) 30000;
     cfg_heartbeatInterval := or_default (heartbeatInterval config) 25000 |}.

(** *** Connection life cycle *)

Inductive ReadyState := CONNECTING | OPEN | CLOSING | CLOSED.

#[global] Instance ReadyState_eq_dec : EqDecision ReadyState.
Proof. solve_decision. Defined.

(** The handle in [this.reconnectTimer]: [null], a timeout that is still
    to fire, or the stale handle of one that has fired. *)
Inductive TimerHandle := NoTimer | Pending | Fired.

(** The client object together with the part of the host it talks to:
    [sockets] lists the ready state of every [WebSocket] that [connect()]
    has created, oldest first; [ws] is the index [this.ws] refers to.
    [emitted] is the log of [emit] calls (oldest first) and [autoConnects]
    counts the [connect()] calls made by the reconnect timer. *)
Record t := mk {
  config : Config;
  stateManager : StateManager.t;
  sockets : list ReadyState;
  ws : option nat;
  reconnectTimer : TimerHandle;
  pingTimer : bool;
  reconnectAttemptsMade : Z;
  isIntentionallyClosed : bool;
  emitted : list ClientEvent;
  autoConnects : nat
}.

Definition create (e : Env) (cfg : WebSocketConfig) : t :=
  {| config := makeConfig cfg;
     stateManager := StateManager.create e;
     sockets := [];
     ws := None;
     reconnectTimer := NoTimer;
     pingTimer := false;
     reconnectAttemptsMade := 0%Z;
     isIntentionallyClosed := false;
     emitted := [];
     autoConnects := 0 |}.

Definition emit (ev : ClientEvent) (c : t) : t :=
  {| config := config c; stateManager := stateManager c;
     sockets := sockets c; ws := ws c;
     reconnectTimer := reconnectTimer c; pingTimer := pingTimer c;
     reconnectAttemptsMade := reconnectAttemptsMade c;
     isIntentionallyClosed := isIntentionallyClosed c;
     emitted := emitted c ++ [ev]; autoConnects := autoConnects c |}.

Definition setConnectionState (s : StateManager.ConnectionState) (c : t) : t :=
  {| config := config c;
     stateManager := StateManager.setConnectionState s (stateManager c);
     sockets := sockets c; ws := ws c;
     reconnectTimer := reconnectTimer c; pingTimer := pingTimer c;
     reconnectAttemptsMade := reconnectAttemptsMade c;
     isIntentionallyClosed := isIntentionallyClosed c;
     emitted := emitted c; autoConnects := autoConnects c |}.

Definition cleanup (c : t) : t :=
  {| config := config c; stateManager := stateManager c;
     sockets := sockets c; ws := ws c;
     reconnectTimer := NoTimer; pingTimer := false;
     reconnectAttemptsMade := reconnectAttemptsMade c;
     isIntentionallyClosed := isIntentionallyClosed c;
     emitted := emitted c; autoConnects := autoConnects c |}.

(** [connect()]; [throws] says whether [new WebSocket(url)] throws. *)
Definition connect (throws : bool) (c : t) : t :=
  let c1 :=
    {| config := config c;
       stateManager := StateManager.setConnectionState StateManager.connecting (stateManager c);
       sockets := sockets c; ws := ws c;
       reconnectTimer := reconnectTimer c; pingTimer := pingTimer c;
       reconnectAttemptsMade := reconnectAttemptsMade c;
       isIntentionallyClosed := false;
       emitted := emitted c; autoConnects := autoConnects c |} in
  if throws then setConnectionState StateManager.disconnected c1
  else
    {| config := config c1; stateManager := stateManager c1;
       sockets := sockets c1 ++ [CONNECTING];
       ws := Some (length (sockets c1));
       reconnectTimer := reconnectTimer c1; pingTimer := pingTimer c1;
       reconnectAttemptsMade := reconnectAttemptsMade c1;
       isIntentionallyClosed := isIntentionallyClosed c1;
       emitted := emitted c1; autoConnects := autoConnects c1 |}.

Definition disconnect (c : t) : t :=
  let c1 := cleanup
    {| config := config c; stateManager := stateManager c;
       sockets := sockets c; ws := ws c;
       reconnectTimer := reconnectTimer c; pingTimer := pingTimer c;
       reconnectAttemptsMade := reconnectAttemptsMade c;
       isIntentionallyClosed := true;
       emitted := emitted c; autoConnects := autoConnects c |} in
  let socks :=
    match ws c1 with
    | Some i =>
      match sockets c1 !! i with
      | Some OPEN => <[i := CLOSING]> (sockets c1)     (* [ws.close(1000, ..)] *)
      | _ => sockets c1
      end
    | None => sockets c1
    end in
  setConnectionState StateManager.disconnected
    {| config := config c1; stateManager := stateManager c1;
       sockets := socks; ws := None;
       reconnectTimer := reconnectTimer c1; pingTimer := pingTimer c1;
       reconnectAttemptsMade := reconnectAttemptsMade c1;
       isIntentionallyClosed := isIntentionallyClosed c1;
       emitted := emitted c1; autoConnects := autoConnects c1 |}.

Definition scheduleReconnect (c : t) : t :=
  if (cfg_maxReconnectAttempts (config c) <=? reconnectAttemptsMade c)%Z then
    emit ev_maxReconnectAttemptsReached c
  else
    {| config := config c; stateManager := stateManager c;
       sockets := sockets c; ws := ws c;
       reconnectTimer := Pending; pingTimer := pingTimer c;
       reconnectAttemptsMade := (reconnectAttemptsMade c + 1)%Z;
       isIntentionallyClosed := isIntentionallyClosed c;
       emitted := emitted c; autoConnects := autoConnects c |}.

(** The [setTimeout] callback of [scheduleReconnect]. *)
Definition reconnectCallback (throws : bool) (c : t) : t :=
  let c1 :=
    {| config := config c; stateManager := stateManager c;
       sockets := sockets c; ws := ws c;
       reconnectTimer := Fired; pingTimer := pingTimer c;
       reconnectAttemptsMade := reconnectAttemptsMade c;
       isIntentionallyClosed := isIntentionallyClosed c;
       emitted := emitted c; autoConnects := autoConnects c |} in
  if isIntentionallyClosed c1 then c1
  else
    connect throws
      {| config := config c1; stateManager := stateManager c1;
         sockets := sockets c1; ws := ws c1;
         reconnectTimer := reconnectTimer c1; pingTimer := pingTimer c1;
         reconnectAttemptsMade := reconnectAttemptsMade c1;
         isIntentionallyClosed := isIntentionallyClosed c1;
         emitted := emitted c1; autoConnects := S (autoConnects c1) |}.

Definition setSocket (i : nat) (r : ReadyState) (c : t) : t :=
  {| config := config c; stateManager := stateManager c;
     sockets := <[i := r]> (sockets c); ws := ws c;
     reconnectTimer := reconnectTimer c; pingTimer := pingTimer c;
     reconnectAttemptsMade := reconnectAttemptsMade c;
     isIntentionallyClosed := isIntentionallyClosed c;
     emitted := emitted c; autoConnects := autoConnects c |}.

Definition onopen (c : t) : t :=
  let c1 := setConnectionState StateManager.connected c in
  emit ev_connected
    {| config := config c1; stateManager := stateManager c1;
       sockets := sockets c1; ws := ws c1;
       reconnectTimer := reconnectTimer c1;
       pingTimer := true;                               (* [startPing()] *)
       reconnectAttemptsMade := 0%Z;
       isIntentionallyClosed := isIntentionallyClosed c1;
       emitted := emitted c1; autoConnects := autoConnects c1 |}.

Definition onmessage (e : Env) (raw : option WebSocketMessage) (c : t) : t :=
  let '(st, evs) := handleMessage e raw (stateManager c) in
  {| config := config c; stateManager := st;
     sockets := sockets c; ws := ws c;
     reconnectTimer := reconnectTimer c; pingTimer := pingTimer c;
     reconnectAttemptsMade := reconnectAttemptsMade c;
     isIntentionallyClosed := isIntentionallyClosed c;
     emitted := emitted c ++ evs; autoConnects := autoConnects c |}.

Definition onclose (code : Z) (c : t) : t :=
  let c1 := emit (ev_disconnected code)
              (cleanup (setConnectionState StateManager.disconnected c)) in
  if isIntentionallyClosed c1 then c1 else scheduleReconnect c1.

Definition onerror (c : t) : t := emit ev_error c.

(** What can happen to a client: calls by its owner, and callbacks from
    the host's event loop. *)
Inductive Event :=
| CallConnect (throws : bool)
| CallDisconnect
| SocketOpen (i : nat)
| SocketMessage (i : nat) (e : Env) (raw : option WebSocketMessage)
| SocketError (i : nat)
| SocketClose (i : nat) (code : Z)
| ReconnectTimerFires (throws : bool).

(** One event; [None] when the host cannot deliver it in this state (a
    socket opens only while connecting, closes at most once, delivers
    frames only while open; a timeout fires only while pending). *)
Definition step (ev : Event) (c : t) : option t :=
  match ev with
  | CallConnect throws => Some (connect throws c)
  | CallDisconnect => Some (disconnect c)
  | SocketOpen i =>
    match sockets c !! i with
    | Some CONNECTING => Some (onopen (setSocket i OPEN c))
    | _ => None
    end
  | SocketMessage i e raw =>
    match sockets c !! i with
    | Some OPEN => Some (onmessage e raw c)
    | _ => None
    end
  | SocketError i =>
    match sockets c !! i with
    | Some CLOSED | None => None
    | Some _ => Some (onerror c)
    end
  | SocketClose i code =>
    match sockets c !! i with
    | Some CLOSED | None => None
    | Some _ => Some (onclose code (setSocket i CLOSED c))
    end
  | ReconnectTimerFires throws =>
    match reconnectTimer c with
    | Pending => Some (reconnectCallback throws c)
    | _ => None
    end
  end.

Fixpoint run (evs : list Event) (c : t) : option t :=
  match evs with
  | [] => Some c
  | ev :: rest =>
    match step ev c with
    | Some c' => run rest c'
    | None => None
    end
  end.

Definition isCallConnect (ev : Event) : bool :=
  match ev with CallConnect _ => true | _ => false end.

Definition isTerminal (ev : ClientEvent) : bool :=
  match ev with ev_maxReconnectAttemptsReached => true | _ => false end.

Definition terminalCount (evs : list ClientEvent) : nat :=
  length (List.filter isTerminal evs).

(** Number of [maxReconnectAttemptsReached] events emitted so far. *)
Definition terminalEvents (c : t) : nat := terminalCount (emitted c).

Definition isLive (r : ReadyState) : bool :=
  match r with CLOSED => false | _ => true end.

(** Sockets whose [close] event is still to come. *)
Definition liveCount (socks : list ReadyState) : nat :=
  length (List.filter isLive socks).

Definition liveSockets (c : t) : nat := liveCount (sockets c).

Definition pendingTimers (c : t) : nat :=
  match reconnectTimer c with Pending => 1 | _ => 0 end.

Definition noCallConnect (evs : list Event) : bool :=
  forallb (fun ev => negb (isCallConnect ev)) evs.

End WebSocketClient.


(** ** services/citation-handler.ts *)

Module CitationHandler.

(** [citation.relevance_score || 0] *)
Definition score (c : Citation) : Q :=
  match relevance_score c with Some q => q | None => 0%Q end.

Definition Qgtb (a b : Q) : bool := negb (Qle_bool a b).

(** [Array.prototype.sort(compareFn)].  The ECMAScript sort is stable, so
    for a comparator that orders by a key its result is the one of
    insertion sort; [before a b] is [compareFn(a, b) < 0]. *)
Fixpoint insert {A} (before : A -> A -> bool) (x : A) (l : list A) : list A :=
  match l with
  | [] => [x]
  | y :: r => if before y x then y :: insert before x r else x :: y :: r
  end.

Fixpoint sort {A} (before : A -> A -> bool) (l : list A) : list A :=
  match l with
  | [] => []
  | x :: r => insert before x (sort before r)
  end.

(** [(a, b) => (b.relevance_score || 0) - (a.relevance_score || 0)] is
    negative exactly when [a] scores strictly higher. *)
Definition citationBefore (a b : Citation) : bool := Qgtb (score a) (score b).

(** [Math.max(...xs)]; [None] is the [-Infinity] of the empty call. *)
Definition Math_max (xs : list Q) : option Q :=
  fold_left (fun acc x =>
               match acc with
               | None => Some x
               | Some m => Some (if Qle_bool m x then x else m)
               end) xs None.

Definition maxRelevance (g : CitationGroup) : option Q :=
  Math_max (map score (grp_citations g)).

(** [maxRelevanceB - maxRelevanceA < 0]; the difference of two
    [-Infinity] is [NaN], which [sort] treats as equal. *)
Definition extGtb (a b : option Q) : bool :=
  match a, b with
  | Some x, Some y => Qgtb x y
  | Some _, None => true
  | None, _ => false
  end.

Definition groupBefore (a b : CitationGroup) : bool :=
  extGtb (maxRelevance a) (maxRelevance b).

(** A [Map<string, V>]: its entries in insertion order. *)
Definition Map_has {V} (k : string) (m : list (string * V)) : bool :=
  existsb (fun kv => String.eqb (fst kv) k) m.

Fixpoint Map_get {V} (k : string) (m : list (string * V)) : option V :=
  match m with
  | [] => None
  | (k', v) :: r => if String.eqb k' k then Some v else Map_get k r
  end.

(** [set] keeps the position of an existing key and appends a new one. *)
Fixpoint Map_set {V} (k : string) (v : V) (m : list (string * V)) : list (string * V) :=
  match m with
  | [] => [(k, v)]
  | (k', v') :: r =>
    if String.eqb k' k then (k', v) :: r else (k', v') :: Map_set k v r
  end.

(** The body of [citations.forEach]: the group object held by the map is
    extended in place. *)
Definition addCitation (groups : list (string * CitationGroup)) (citation : Citation)
  : list (string * CitationGroup) :=
  let key := source_file_id citation in
  let groups1 :=
    if Map_has key groups then groups
    else Map_set key
           {| grp_source_file_id := source_file_id citation;
              grp_source_file_url := source_file_url citation;
              grp_source_file_name := source_file_name citation;
              grp_citations := [];
              total_chunks := 0 |} groups in
  match Map_get key groups1 with
  | Some group =>
    Map_set key
      {| grp_source_file_id := grp_source_file_id group;
         grp_source_file_url := grp_source_file_url group;
         grp_source_file_name := grp_source_file_name group;
         grp_citations := grp_citations group ++ [citation];
         total_chunks := S (total_chunks group) |} groups1
  | None => groups1
  end.

Definition sortGroup (g : CitationGroup) : CitationGroup :=
  {| grp_source_file_id := grp_source_file_id g;
     grp_source_file_url := grp_source_file_url g;
     grp_source_file_name := grp_source_file_name g;
     grp_citations := sort citationBefore (grp_citations g);
     total_chunks := total_chunks g |}.

(** The map after the two [forEach] passes, before the final sort. *)
Definition groupsMap (citations : list Citation) : list (string * CitationGroup) :=
  map (fun kv => (fst kv, sortGroup (snd kv))) (fold_left addCitation citations []).

Definition groupCitationsBySource (citations : list Citation) : list CitationGroup :=
  sort groupBefore (map snd (groupsMap citations)).

(** *** De-duplication *)

(** [String.prototype.toLowerCase] and the class [\s], on ASCII text. *)
Definition lowerChar (a : ascii) : ascii :=
  let n := nat_of_ascii a in
  if ((65 <=? n) && (n <=? 90))%nat then ascii_of_nat (n + 32) else a.

Fixpoint toLowerCase (s : string) : string :=
  match s with
  | EmptyString => EmptyString
  | String a r => String (lowerChar a) (toLowerCase r)
  end.

Definition isSpace (a : ascii) : bool :=
  let n := nat_of_ascii a in
  ((n =? 32) || ((9 <=? n) && (n <=? 13)))%nat.

(** [s.split(/\s+/)]: [cur] is the piece being read, [inSpace] says that
    the previous character was white space.  A leading or trailing run of
    white space yields an empty first or last piece, as in JavaScript. *)
Fixpoint splitFrom (s : string) (cur : string) (inSpace : bool) : list string :=
  match s with
  | EmptyString => [cur]
  | String a r =>
    if isSpace a then
      if inSpace then splitFrom r cur true else cur :: splitFrom r "" true
    else splitFrom r (cur +:+ String a "") false
  end.

Definition split (s : string) : list string := splitFrom s "" false.

(** [new Set(xs)]: the distinct elements in first-insertion order. *)
Definition Set_has (w : string) (s : list string) : bool :=
  existsb (String.eqb w) s.

Definition new_Set (xs : list string) : list string :=
  fold_left (fun acc w => if Set_has w acc then acc else acc ++ [w]) xs [].

Definition calculateContentSimilarity (text1 text2 : string) : Q :=
  let words1 := new_Set (split (toLowerCase text1)) in
  let words2 := new_Set (split (toLowerCase text2)) in
  let intersection := new_Set (List.filter (fun w => Set_has w words2) words1) in
  let union := new_Set (words1 ++ words2) in
  Z.of_nat (length intersection) # Pos.of_nat (length union).

Definition isDuplicate (threshold : Q) (deduplicated : list Citation) (citation : Citation) : bool :=
  existsb (fun existing =>
             Qgtb (calculateContentSimilarity (content_snippet citation)
                                              (content_snippet existing))
                  threshold) deduplicated.

(** [similarityThreshold = None] is the omitted argument (default 0.8). *)
Definition deduplicateCitations (citations : list Citation)
           (similarityThreshold : option Q) : list Citation :=
  let threshold := match similarityThreshold with Some q => q | None => (8 # 10)%Q end in
  fold_left (fun deduplicated citation =>
               if isDuplicate threshold deduplicated citation then deduplicated
               else deduplicated ++ [citation]) citations [].

End CitationHandler.


(** ** The store at the level of references

    JavaScript arrays and objects are shared by reference.  This second model
    of [StateManager] keeps the arrays and the message objects in a heap
    (cells are allocated in order, a reference is an index), so that what a
    getter returns can be told apart from a copy of it. *)

Module LiveStore.

(** A reference is the index of a heap cell. *)
Abbreviation ref := nat (only parsing).

Record Session := mkSession {
  s_id : string;
  s_messages : ref;                (* the array in [session.messages] *)
  s_created_at : Z;
  s_updated_at : Z;
  s_title : option string
}.

Record t := mk {
  arrays : list (list ref);        (* array cells: references to message objects *)
  objects : list Message;          (* message object cells *)
  currentSession : option Session
}.

Definition initializeSession (e : Env) (h : t) : t :=
  {| arrays := arrays h ++ [[]];
     objects := objects h;
     currentSession :=
       Some {| s_id := StateManager.generateSessionId e;
               s_messages := length (arrays h);
               s_created_at := now e; s_updated_at := now e;
               s_title := None |} |}.

Definition create (e : Env) : t :=
  initializeSession e {| arrays := []; objects := []; currentSession := None |}.

(** [this.currentSession?.messages || []] *)
Definition getMessages (h : t) : ref * t :=
  match currentSession h with
  | Some s => (s_messages s, h)
  | None =>
    (length (arrays h),
     {| arrays := arrays h ++ [[]]; objects := objects h;
        currentSession := currentSession h |})
  end.

Definition getLastMessage (h : t) : option ref * t :=
  let '(a, h1) := getMessages h in
  match arrays h1 !! a with
  | Some rs => (last rs, h1)
  | None => (None, h1)
  end.

Definition addMessage (e : Env) (m : NewMessage) (h : t) : ref * t :=
  let h1 := match currentSession h with
            | Some _ => h
            | None => initializeSession e h
            end in
  let fullMessage :=
    {| msg_id := StateManager.generateMessageId e; role := new_role m;
       content := new_content m; timestamp := now e;
       status := new_status m; isStreaming := new_isStreaming m;
       citations := new_citations m; metadata := new_metadata m |} in
  let o := length (objects h1) in
  (o,
   {| arrays :=
        match currentSession h1 with
        | Some s =>
          match arrays h1 !! s_messages s with
          | Some rs => <[s_messages s := rs ++ [o]]> (arrays h1)
          | None => arrays h1
          end
        | None => arrays h1
        end;
      objects := objects h1 ++ [fullMessage];
      currentSession :=
        match currentSession h1 with
        | Some s =>
          Some {| s_id := s_id s; s_messages := s_messages s;
                  s_created_at := s_created_at s; s_updated_at := now e;
                  s_title := s_title s |}
        | None => None
        end |}).

Definition hasId (h : t) (messageId : string) (r : ref) : bool :=
  match objects h !! r with
  | Some m => String.eqb (msg_id m) messageId
  | None => false
  end.

Definition updateMessage (messageId : string) (updates : Updates) (h : t)
  : option ref * t :=
  match currentSession h with
  | None => (None, h)
  | Some s =>
    match arrays h !! s_messages s with
    | None => (None, h)
    | Some rs =>
      match StateManager.findIndex (hasId h messageId) rs with
      | None => (None, h)
      | Some messageIndex =>
        match rs !! messageIndex ≫= (fun r => objects h !! r) with
        | None => (None, h)
        | Some old =>
          let o := length (objects h) in
          (Some o,
           {| arrays := <[s_messages s := <[messageIndex := o]> rs]> (arrays h);
              objects := objects h ++ [StateManager.spread old updates];
              currentSession := currentSession h |})
        end
      end
    end
  end.

(** What a caller can do with a returned array or object. *)
Definition Array_push (a : ref) (r : ref) (h : t) : t :=
  match arrays h !! a with
  | Some rs =>
    {| arrays := <[a := rs ++ [r]]> (arrays h); objects := objects h;
       currentSession := currentSession h |}
  | None => h
  end.

Definition Array_truncate (a : ref) (h : t) : t :=      (* [arr.length = 0] *)
  {| arrays := <[a := []]> (arrays h); objects := objects h;
     currentSession := currentSession h |}.


(** The message list the store holds: its session's array, dereferenced. *)
Definition contents (h : t) : list Message :=
  match currentSession h with
  | Some s =>
    match arrays h !! s_messages s with
    | Some rs => omap (fun r => objects h !! r) rs
    | None => []
    end
  | None => []
  end.

(** Every slot of the session's array refers to an allocated object. *)
Definition wf (h : t) : Prop :=
  match currentSession h with
  | Some s =>
    exists rs, arrays h !! s_messages s = Some rs /\
               Forall (fun r => r < length (objects h)) rs
  | None => True
  end.

(** The session as the value-level model [StateManager] holds it. *)
Definition snapshot (h : t) : option ChatSession :=
  match currentSession h with
  | Some s =>
    Some {| session_id := s_id s; messages := contents h;
            created_at := s_created_at s; updated_at := s_updated_at s;
            title := s_title s |}
  | None => None
  end.

(** A literal copy of an array, as [[...arr]] or [arr.slice()] makes it. *)
Definition Array_copy (a : ref) (h : t) : ref * t :=
  (length (arrays h),
   {| arrays := arrays h ++ [match arrays h !! a with Some rs => rs | None => [] end];
      objects := objects h; currentSession := currentSession h |}).

End LiveStore.

(** ** Session export and import

    [JSON.stringify] and [JSON.parse] are library functions; a JSON text is
    identified with the document it denotes, so [stringify] maps a run-time
    value to a [Json] document and [parse] maps a document back to a value.
    A number literal stands for the number it is read as, and an object
    lists its members as the text does, repeated keys included.  The date
    library is an interface. *)

Inductive Json : Type :=
| JNull
| JBool (b : bool)
| JNumber (q : Q)
| JString (s : string)
| JArray (items : list Json)
| JObject (props : list (string * Json)).

Class DateLib := {
  toISOString : Z -> string;          (* [Date.prototype.toISOString] *)
  Date_parse : string -> option Z;    (* [Date.parse]; [None] is [NaN] *)
  Number_toString : Q -> string;      (* [String(n)] of a number *)
  Date_toString : option Z -> string  (* [Date.prototype.toString] *)
}.

Module SessionJson.
Section WithDates.
Context `{DateLib}.

(** [JSON.stringify]; [None] is [undefined] (the value is left out of an
    object and becomes [null] in an array).  A [Date] is written through
    its [toJSON], the ISO string; an invalid one as [null]. *)
Fixpoint stringify (v : JsValue) : option Json :=
  match v with
  | JsUndefined => None
  | JsNull => Some JNull
  | JsBool b => Some (JBool b)
  | JsNumber q => Some (JNumber q)
  | JsString s => Some (JString s)
  | JsDate (Some ms) => Some (JString (toISOString ms))
  | JsDate None => Some JNull
  | JsArray items =>
    Some (JArray (map (fun x => match stringify x with
                                | Some j => j
                                | None => JNull
                                end) items))
  | JsObject props =>
    Some (JObject
            ((fix fields (ps : list (string * JsValue)) : list (string * Json) :=
                match ps with
                | [] => []
                | (k, x) :: r =>
                  match stringify x with
                  | Some j => (k, j) :: fields r
                  | None => fields r
                  end
                end) props))
  end.

(** [JSON.parse] of a well-formed text in which no object repeats a key
    (as every text written by [JSON.stringify]); [JSON_parse] below is the
    general case. *)
Fixpoint parse (j : Json) : JsValue :=
  match j with
  | JNull => JsNull
  | JBool b => JsBool b
  | JNumber q => JsNumber q
  | JString s => JsString s
  | JArray items => JsArray (map parse items)
  | JObject props =>
    JsObject ((fix fields (ps : list (string * Json)) : list (string * JsValue) :=
                 match ps with
                 | [] => []
                 | (k, x) :: r => (k, parse x) :: fields r
                 end) props)
  end.

(** Property read [v.k]; [undefined] when absent or when [v] has no such
    own property. *)
Fixpoint lookupProp (k : string) (ps : list (string * JsValue)) : JsValue :=
  match ps with
  | [] => JsUndefined
  | (k', x) :: r => if String.eqb k' k then x else lookupProp k r
  end.

Definition get (k : string) (v : JsValue) : JsValue :=
  match v with
  | JsObject ps => lookupProp k ps
  | _ => JsUndefined
  end.

(** [{ ...v, k: x }] on the property list. *)
Fixpoint setProp (k : string) (x : JsValue) (ps : list (string * JsValue))
  : list (string * JsValue) :=
  match ps with
  | [] => [(k, x)]
  | (k', x') :: r =>
    if String.eqb k' k then (k', x) :: r else (k', x') :: setProp k x r
  end.

(** [JSON.parse] of any well-formed text.  The members of an object are
    defined one after the other, so a repeated key keeps the place of its
    first occurrence and the value of its last. *)
Fixpoint JSON_parse (j : Json) : JsValue :=
  match j with
  | JNull => JsNull
  | JBool b => JsBool b
  | JNumber q => JsNumber q
  | JString s => JsString s
  | JArray items => JsArray (map JSON_parse items)
  | JObject props =>
    JsObject ((fix define (ps : list (string * Json)) (acc : list (string * JsValue))
                 : list (string * JsValue) :=
                 match ps with
                 | [] => acc
                 | (k, x) :: r => define r (setProp k (JSON_parse x) acc)
                 end) props [])
  end.

(** No object of the document repeats a key. *)
Fixpoint distinctKeys (j : Json) : bool :=
  match j with
  | JArray items => forallb distinctKeys items
  | JObject props =>
    (fix members (ps : list (string * Json)) (seen : list string) : bool :=
       match ps with
       | [] => true
       | (k, x) :: r =>
         negb (existsb (String.eqb k) seen) && distinctKeys x && members r (seen ++ [k])
       end) props []
  | _ => true
  end.

Definition hasOwnProperty (k : string) (ps : list (string * JsValue)) : bool :=
  existsb (fun kv => String.eqb (fst kv) k) ps.

Definition truthy (v : JsValue) : bool :=
  match v with
  | JsUndefined | JsNull => false
  | JsBool b => b
  | JsNumber q => negb (Qeq_bool q 0)
  | JsString s => negb (String.eqb s "")
  | _ => true
  end.

Definition isArray (v : JsValue) : bool :=
  match v with JsArray _ => true | _ => false end.

(** [ToString] of an array element inside [Array.prototype.join]; [None]
    is the [TypeError] of an object that cannot be converted: a parsed
    object inherits [Object.prototype.toString] unless it has a property
    named [toString] of its own, which is never a function. *)
Fixpoint joined (v : JsValue) : option string :=
  match v with
  | JsUndefined | JsNull => Some ""
  | JsBool b => Some (if b then "true" else "false")
  | JsNumber q => Some (Number_toString q)
  | JsString s => Some s
  | JsDate ms => Some (Date_toString ms)
  | JsArray items =>
    (fix join (l : list JsValue) : option string :=
       match l with
       | [] => Some ""
       | x :: r =>
         match joined x with
         | None => None
         | Some a =>
           match r with
           | [] => Some a
           | _ :: _ =>
             match join r with
             | Some b => Some (a +:+ "," +:+ b)
             | None => None
             end
           end
         end
       end) items
  | JsObject ps =>
    if hasOwnProperty "toString" ps then None else Some "[object Object]"
  end.

(** [TimeClip]: a time value beyond 8.64e15 ms on either side is no date;
    a fraction of a millisecond is dropped. *)
Definition TimeClip (q : Q) : option Z :=
  if Qle_bool (inject_Z (-8640000000000000)) q && Qle_bool q (inject_Z 8640000000000000)
  then Some (Qnum q ÷ Zpos (Qden q))%Z
  else None.

(** [new Date(v)]; [None] is the [TypeError] thrown when [v] cannot be
    converted to a primitive.  An array or object is converted to its
    string, which is then parsed as a date. *)
Definition new_Date (v : JsValue) : option JsValue :=
  match v with
  | JsDate ms => Some (JsDate ms)
  | JsString s => Some (JsDate (Date_parse s))
  | JsUndefined => Some (JsDate None)
  | JsNull => Some (JsDate (Some 0%Z))
  | JsBool b => Some (JsDate (Some (if b then 1 else 0)%Z))
  | JsNumber q => Some (JsDate (TimeClip q))
  | JsArray _ | JsObject _ =>
    match joined v with
    | Some text => Some (JsDate (Date_parse text))
    | None => None
    end
  end.

(** The run-time objects behind the typed records. *)
Definition roleName (r : Role) : string :=
  match r with RUser => "user" | RAssistant => "assistant" | RSystem => "system" end.

Definition statusName (s : Status) : string :=
  match s with
  | Sending => "sending" | Sent => "sent" | Streaming => "streaming"
  | Completed => "completed" | Error => "error"
  end.

Definition optional {A} (k : string) (f : A -> JsValue) (o : option A)
  : list (string * JsValue) :=
  match o with Some x => [(k, f x)] | None => [] end.

Definition citationObject (c : Citation) : JsValue :=
  JsObject ([ ("id", JsString (cit_id c));
              ("source_file_id", JsString (source_file_id c));
              ("source_file_url", JsString (source_file_url c));
              ("source_file_name", JsString (source_file_name c));
              ("content_snippet", JsString (content_snippet c)) ]
            ++ optional "relevance_score" JsNumber (relevance_score c)
            ++ optional "page_number" (fun z => JsNumber (inject_Z z)) (page_number c)
            ++ optional "metadata" (fun v => v) (cit_metadata c)).

Definition messageObject (m : Message) : JsValue :=
  JsObject ([ ("role", JsString (roleName (role m)));
              ("content", JsString (content m));
              ("status", JsString (statusName (status m))) ]
            ++ optional "isStreaming" JsBool (isStreaming m)
            ++ optional "citations" (fun cs => JsArray (map citationObject cs)) (citations m)
            ++ optional "metadata" (fun v => v) (metadata m)
            ++ [ ("id", JsString (msg_id m));
                 ("timestamp", JsDate (Some (timestamp m))) ]).

Definition sessionObject (s : ChatSession) : JsValue :=
  JsObject ([ ("id", JsString (session_id s));
              ("messages", JsArray (map messageObject (messages s)));
              ("created_at", JsDate (Some (created_at s)));
              ("updated_at", JsDate (Some (updated_at s))) ]
            ++ optional "title" JsString (title s)).

(** [exportSession()]: the document of [JSON.stringify(this.currentSession)]. *)
Definition exportValue (cur : option JsValue) : Json :=
  match cur with
  | Some v => match stringify v with Some j => j | None => JNull end
  | None => JNull
  end.

Definition exportSession (st : StateManager.t) : Json :=
  exportValue (option_map sessionObject (StateManager.currentSession st)).

(** [importSession(sessionData)]: [sessionData = None] is a text that
    [JSON.parse] rejects.  The result is the return value and the object
    assigned to [this.currentSession] ([None]: no assignment).  A
    [new Date(..)] that throws is caught like a text that does not parse. *)
Definition importSession (sessionData : option Json) : bool * option JsValue :=
  match sessionData with
  | None => (false, None)
  | Some doc =>
    let session := JSON_parse doc in
    if truthy session && truthy (get "id" session) && isArray (get "messages" session)
    then
      match session with
      | JsObject ps =>
        match new_Date (get "created_at" session), new_Date (get "updated_at" session) with
        | Some created, Some updated =>
          (true,
           Some (JsObject (setProp "updated_at" updated (setProp "created_at" created ps))))
        | _, _ => (false, None)
        end
      | _ => (false, None)
      end
    else (false, None)
  end.

End WithDates.
End SessionJson.

(** ** Notions used to state the properties *)

Module Spec.
Import WebSocketClient.

(** "The most recent message satisfying role=assistant and
    status=streaming": its index, if there is one. *)
Definition isStreamingAssistant (m : Message) : bool :=
  bool_decide (role m = RAssistant) && bool_decide (status m = Streaming).

Fixpoint findLastIndex {A} (p : A -> bool) (l : list A) : option nat :=
  match l with
  | [] => None
  | x :: r =>
    match findLastIndex p r with
    | Some i => Some (S i)
    | None => if p x then Some 0 else None
    end
  end.

Definition streamingTarget (msgs : list Message) : option nat :=
  findLastIndex isStreamingAssistant msgs.

Definition appendContent (text : string) (m : Message) : Message :=
  mkMessage (msg_id m) (role m) (content m +:+ text) (timestamp m) (status m)
            (isStreaming m) (citations m) (metadata m).

(** The message list after a delta, as the sentence about the streaming
    target describes it. *)
Definition deltaOnTarget (text : string) (msgs : list Message) : list Message :=
  match streamingTarget msgs with
  | Some i => alter (appendContent text) i msgs
  | None => msgs
  end.

(** The message list after a delta, by the last message alone: it is
    extended when it is an assistant message whose [isStreaming] flag is
    set, and nothing changes otherwise. *)
Definition deltaOnLast (text : string) (msgs : list Message) : list Message :=
  match last msgs with
  | Some m =>
    if is_assistant m && truthy_flag (isStreaming m) then
      removelast msgs ++
        [mkMessage (msg_id m) (role m) (content m +:+ text) (timestamp m)
                   (status m) (Some true) (citations m) (metadata m)]
    else msgs
  | None => msgs
  end.

Definition deltaFrame (d : FrameData) : option WebSocketMessage :=
  Some (mkFrame message_delta (Some d)).

Definition deltaText (d : FrameData) : string :=
  StateManager.or_else (d_content d) "".

(** Operations on the store: inbound frames and the public mutators that
    work on the session at hand.  [importSession] replaces the session by
    the object a document parses to, whose messages need not be [Message]s
    (their timestamps are strings); it is modelled on run-time values
    ([SessionJson]) and is not among these operations. *)
Inductive Op :=
| OpFrame (e : Env) (raw : option WebSocketMessage)
| OpAddMessage (e : Env) (m : NewMessage)
| OpUpdateMessage (messageId : string) (updates : Updates)
| OpAddCitations (messageId : string) (cs : list Citation)
| OpClearSession
| OpCreateNewSession (e : Env).

Definition applyOp (op : Op) (st : StateManager.t) : StateManager.t :=
  match op with
  | OpFrame e raw => fst (handleMessage e raw st)
  | OpAddMessage e m => snd (StateManager.addMessage e m st)
  | OpUpdateMessage messageId updates => snd (StateManager.updateMessage messageId updates st)
  | OpAddCitations messageId cs => StateManager.addCitationsToMessage messageId cs st
  | OpClearSession => StateManager.clearSession st
  | OpCreateNewSession e => snd (StateManager.createNewSession e st)
  end.

Definition applyOps (ops : list Op) (st : StateManager.t) : StateManager.t :=
  fold_left (fun st op => applyOp op st) ops st.

Definition streamingCount (msgs : list Message) : nat :=
  length (List.filter (fun m => bool_decide (status m = Streaming)) msgs).

(** Operations that can put a message into status [streaming]. *)
Definition startsStreaming (op : Op) : bool :=
  match op with
  | OpFrame _ (Some f) => bool_decide (frame_type f = typing_start)
  | OpAddMessage _ m => bool_decide (new_status m = Streaming)
  | OpUpdateMessage _ u => bool_decide (u_status u = Some Streaming)
  | _ => false
  end.

Definition streamingStarts (ops : list Op) : nat :=
  length (List.filter startsStreaming ops).

(** Grouping, described directly: the sources in the order they first
    appear, the citations of one source, and the group built from them. *)
Definition firstSeenSources (cs : list Citation) : list string :=
  CitationHandler.new_Set (map source_file_id cs).

Definition membersOf (k : string) (cs : list Citation) : list Citation :=
  List.filter (fun c => String.eqb (source_file_id c) k) cs.

Definition rawGroup (cs : list Citation) (k : string) : CitationGroup :=
  {| grp_source_file_id := k;
     grp_source_file_url :=
       match membersOf k cs with c :: _ => source_file_url c | [] => "" end;
     grp_source_file_name :=
       match membersOf k cs with c :: _ => source_file_name c | [] => "" end;
     grp_citations := membersOf k cs;
     total_chunks := length (membersOf k cs) |}.

Definition groupOfSource (cs : list Citation) (k : string) : CitationGroup :=
  CitationHandler.sortGroup (rawGroup cs k).

(** Groups ordered by their best score, ties in first-seen order. *)
Definition groupsByRelevance (cs : list Citation) : list CitationGroup :=
  CitationHandler.sort CitationHandler.groupBefore
    (map (groupOfSource cs) (firstSeenSources cs)).

(** The groups whose best score is [best] ([None]: no citation at all). *)
Definition hasBest (best : option Q) (g : CitationGroup) : bool :=
  match best, CitationHandler.maxRelevance g with
  | Some a, Some b => Qeq_bool a b
  | None, None => true
  | _, _ => false
  end.

(** [l] is in the order of [before]: no element has to come strictly before
    one that precedes it. *)
Definition ordered {A} (before : A -> A -> bool) (l : list A) : Prop :=
  StronglySorted (fun a b => before b a = false) l.

(** Descending scores, an absent score counting as 0. *)
Definition descendingScores (cs : list Citation) : Prop :=
  StronglySorted (fun a b => (CitationHandler.score b <= CitationHandler.score a)%Q) cs.

End Spec.

(** ** Concrete inputs *)

Module Scenario.
Import WebSocketClient.

Definition at_ (t : Z) (suffix : string) : Env :=
  {| now := t; rand_msg := suffix; rand_session := suffix |}.

Definition delta (text : string) : WebSocketMessage :=
  mkFrame message_delta (Some (mkData (Some text) None None)).

(** [typing_start], three deltas, and a [message_complete] whose data has
    no [content] field. *)
Definition helloFrames : list (Env * WebSocketMessage) :=
  [ (at_ 1001 "lx1a", mkFrame typing_start (Some (mkData None None None)));
    (at_ 1002 "lx1b", delta "Hel");
    (at_ 1003 "lx1c", delta "lo ");
    (at_ 1004 "lx1d", delta "world");
    (at_ 1005 "lx1e", mkFrame message_complete (Some (mkData None None None))) ].

Definition freshStore : StateManager.t := StateManager.create (at_ 1000 "lx10").

(** A streaming assistant message followed by a user message. *)
Definition answering : Message :=
  mkMessage "msg_a" RAssistant "Hel" 1001 Streaming (Some true) None None.
Definition question : Message :=
  mkMessage "msg_b" RUser "and then?" 1002 Sent None None None.

Definition interleaved : StateManager.t :=
  {| StateManager.currentSession :=
       Some (mkSession "session_lx10" [answering; question] 1000 1002 None);
     StateManager.connectionState := StateManager.connected |}.

Definition twoTypingStarts : list Spec.Op :=
  [ Spec.OpFrame (at_ 1001 "lx1a") (Some (mkFrame typing_start None));
    Spec.OpFrame (at_ 1002 "lx1b") (Some (mkFrame typing_start None)) ].

(** Every connection attempt fails, with at most three reconnects
    configured: the first socket and the three reconnect sockets close
    without ever opening. *)
Definition maxThree : WebSocketConfig :=
  mkWebSocketConfig "wss://host/ws/chat" None (Some 3%Z) None None None None.

Definition newClient : WebSocketClient.t :=
  WebSocketClient.create (at_ 1000 "lx10") maxThree.

Definition threeFailedReconnects : list Event :=
  [ CallConnect false;
    SocketError 0; SocketClose 0 1006%Z; ReconnectTimerFires false;
    SocketError 1; SocketClose 1 1006%Z; ReconnectTimerFires false;
    SocketError 2; SocketClose 2 1006%Z; ReconnectTimerFires false;
    SocketError 3 ].

Definition orElse (o : option WebSocketClient.t) : WebSocketClient.t :=
  match o with Some c => c | None => newClient end.

Definition exhausted : WebSocketClient.t :=
  orElse (run threeFailedReconnects newClient).
Definition givenUp : WebSocketClient.t :=
  orElse (step (SocketClose 3 1006%Z) exhausted).
Definition afterwards : WebSocketClient.t :=
  orElse (run [CallDisconnect] givenUp).

(** The owner tries again by hand and that attempt fails too. *)
Definition retriedByHand : WebSocketClient.t :=
  orElse (run [CallConnect false; SocketError 4; SocketClose 4 1006%Z] afterwards).

(** An owner that does not wait: three [connect()] calls in a row, one
    reconnect allowed, and all three sockets fail. *)
Definition maxOne : WebSocketConfig :=
  mkWebSocketConfig "wss://host/ws/chat" None (Some 1%Z) None None None None.

Definition overlappingConnects : list Event :=
  [ CallConnect false; CallConnect false; CallConnect false;
    SocketClose 0 1006%Z; SocketClose 1 1006%Z ].

Definition overlapped : WebSocketClient.t :=
  orElse (run overlappingConnects
              (WebSocketClient.create (at_ 1000 "lx10") maxOne)).

Definition overlappedLater : WebSocketClient.t :=
  orElse (run [SocketClose 2 1006%Z] overlapped).

(** Two sources; the one seen second has the better score. *)
Definition weakFirst : Citation :=
  mkCitation "c1" "doc-A" "https://files/a.pdf" "a.pdf" "alpha beta" (Some (1 # 10)) None None.
Definition strongSecond : Citation :=
  mkCitation "c2" "doc-B" "https://files/b.pdf" "b.pdf" "gamma delta" (Some (9 # 10)) None None.


(** A stand-in date library, for instantiating statements; none of its
    behaviour is relied on. *)
Definition plainDates : DateLib :=
  {| toISOString := fun ms => "1970-01-01T00:00:00.000Z";
     Date_parse := fun text => None;
     Number_toString := fun q => "0";
     Date_toString := fun ms => "Invalid Date" |}.

(** A session document without dates whose messages are not messages. *)
Definition oddSession : Json :=
  JObject [ ("id", JString "session_x"); ("messages", JArray [JNumber 1; JNull]) ].

(** One message in the store, added at time 2000. *)
Definition oneMessage : StateManager.t :=
  snd (StateManager.addMessage (at_ 2000 "lx2a")
         (mkNewMessage RUser "hello" Sent None None None) freshStore).

End Scenario.

(** ** Further operations of the store *)

Module StoreQueries.

(** [arr.filter((x, index) => p(x, index))] *)
Fixpoint filterFrom {A} (p : A -> nat -> bool) (index : nat) (l : list A) : list A :=
  match l with
  | [] => []
  | x :: r =>
    if p x index then x :: filterFrom p (S index) r else filterFrom p (S index) r
  end.

(** The citations of all messages that have a [citations] array, in order. *)
Definition flattened (st : StateManager.t) : list Citation :=
  flat_map (fun m => match citations m with Some cs => cs | None => [] end)
           (List.filter (fun m => match citations m with Some _ => true | None => false end)
                        (StateManager.getMessages st)).

Definition sameId (citation c : Citation) : bool := String.eqb (cit_id c) (cit_id citation).

Definition isFirstWithId (arr : list Citation) (citation : Citation) (index : nat) : bool :=
  match StateManager.findIndex (sameId citation) arr with
  | Some i => Nat.eqb i index
  | None => false
  end.

Definition getAllCitations (st : StateManager.t) : list Citation :=
  filterFrom (isFirstWithId (flattened st)) 0 (flattened st).

(** A run of [addMessage] calls. *)
Definition addMessages (calls : list (Env * NewMessage)) (st : StateManager.t)
  : StateManager.t :=
  fold_left (fun st call => snd (StateManager.addMessage (fst call) (snd call) st)) calls st.

End StoreQueries.

(** ** The event registry ([on] / [off] / [emit], the same in both classes)

    A listener is identified by a number (function identity); the registry
    is a [Map] from event names to [Set]s of listeners, a set being the list
    of its elements in insertion order. *)

Module Listeners.

Definition Set_add (l : nat) (s : list nat) : list nat :=
  if bool_decide (l ∈ s) then s else s ++ [l].

Definition Set_delete (l : nat) (s : list nat) : list nat :=
  List.filter (fun x => negb (Nat.eqb x l)) s.

Definition on (event : string) (listener : nat) (m : gmap string (list nat))
  : gmap string (list nat) :=
  let m1 := match m !! event with
            | Some _ => m
            | None => <[event := []]> m
            end in
  match m1 !! event with
  | Some s => <[event := Set_add listener s]> m1
  | None => m1
  end.

Definition off (event : string) (listener : nat) (m : gmap string (list nat))
  : gmap string (list nat) :=
  match m !! event with
  | Some eventListeners =>
    let s := Set_delete listener eventListeners in
    if Nat.eqb (length s) 0 then delete event m else <[event := s]> m
  | None => m
  end.

(** The listeners [emit(event, data)] calls, in order; each call sits in its
    own [try]/[catch], so a throwing listener does not stop the loop. *)
Definition emit (event : string) (m : gmap string (list nat)) : list nat :=
  match m !! event with
  | Some eventListeners => eventListeners
  | None => []
  end.

(** No event is registered with an empty set. *)
Definition tidy (m : gmap string (list nat)) : Prop :=
  forall event s, m !! event = Some s -> s <> [].

End Listeners.

(** ** Further operations of the citation handler *)

Module CitationTools.

(** Values that JSON represents as they are: no [undefined] and no [Date]
    anywhere inside. *)
Fixpoint plain (v : JsValue) : bool :=
  match v with
  | JsUndefined | JsDate _ => false
  | JsNull | JsBool _ | JsNumber _ | JsString _ => true
  | JsArray items => forallb plain items
  | JsObject props =>
    (fix all (ps : list (string * JsValue)) : bool :=
       match ps with
       | [] => true
       | (_, x) :: r => plain x && all r
       end) props
  end.

Definition plainMetadata (c : Citation) : bool :=
  match cit_metadata c with Some v => plain v | None => true end.

(** [filterCitationsByRelevance]; [threshold = None] is the omitted
    argument (default 0.5). *)
Definition filterCitationsByRelevance (citations : list Citation) (threshold : option Q)
  : list Citation :=
  let t := match threshold with Some q => q | None => (5 # 10)%Q end in
  List.filter (fun citation => Qle_bool t (CitationHandler.score citation)) citations.

(** [String.prototype.includes] *)
Fixpoint startsWith (q s : string) : bool :=
  match q, s with
  | EmptyString, _ => true
  | String a q', String b s' => Ascii.eqb a b && startsWith q' s'
  | String _ _, EmptyString => false
  end.

Fixpoint includes (s q : string) : bool :=
  startsWith q s ||
  match s with
  | EmptyString => false
  | String _ s' => includes s' q
  end.

(** [citation?.metadata?.author?.toLowerCase().includes(q)]: [None] is the
    [TypeError] of calling [toLowerCase] on an author that is neither a
    string nor nullish; a missing author gives [undefined], which is falsy. *)
Definition authorMatch (lowercaseQuery : string) (citation : Citation) : option bool :=
  match cit_metadata citation with
  | None => Some false
  | Some md =>
    match SessionJson.get "author" md with
    | JsUndefined | JsNull => Some false
    | JsString author => Some (includes (CitationHandler.toLowerCase author) lowercaseQuery)
    | _ => None
    end
  end.

Definition contentMatch (lowercaseQuery : string) (citation : Citation) : bool :=
  includes (CitationHandler.toLowerCase (content_snippet citation)) lowercaseQuery.

Definition fileNameMatch (lowercaseQuery : string) (citation : Citation) : bool :=
  includes (CitationHandler.toLowerCase (source_file_name citation)) lowercaseQuery.

(** The callback of [filter]: all three matches are computed first. *)
Definition searchMatches (lowercaseQuery : string) (citation : Citation) : option bool :=
  match authorMatch lowercaseQuery citation with
  | Some a => Some (contentMatch lowercaseQuery citation ||
                    fileNameMatch lowercaseQuery citation || a)
  | None => None
  end.

(** [arr.filter(f)] for a callback that may throw. *)
Fixpoint filterOrThrow {A} (f : A -> option bool) (l : list A) : option (list A) :=
  match l with
  | [] => Some []
  | x :: r =>
    match f x with
    | None => None
    | Some b =>
      match filterOrThrow f r with
      | None => None
      | Some r' => Some (if b then x :: r' else r')
      end
    end
  end.

(** The elements a callback that did not throw has kept. *)
Definition matched {A} (f : A -> option bool) (x : A) : bool :=
  match f x with Some true => true | _ => false end.

(** The comparator of [searchCitations] is negative when [a] matches in its
    content and [b] does not, and otherwise (unless it is the other way
    round) when [a] scores higher. *)
Definition searchBefore (lowercaseQuery : string) (a b : Citation) : bool :=
  let aContentMatch := contentMatch lowercaseQuery a in
  let bContentMatch := contentMatch lowercaseQuery b in
  if aContentMatch && negb bContentMatch then true
  else if negb aContentMatch && bContentMatch then false
  else CitationHandler.Qgtb (CitationHandler.score a) (CitationHandler.score b).

Definition searchCitations (citations : list Citation) (query : string)
  : option (list Citation) :=
  let lowercaseQuery := CitationHandler.toLowerCase query in
  match filterOrThrow (searchMatches lowercaseQuery) citations with
  | Some found => Some (CitationHandler.sort (searchBefore lowercaseQuery) found)
  | None => None
  end.

(** [validateCitation]: [None] is the [TypeError] of reading [id] of
    [null], whose [typeof] is ['object'] too. *)
Definition isString (v : JsValue) : bool :=
  match v with JsString _ => true | _ => false end.

Definition validateCitation (citation : JsValue) : option bool :=
  match citation with
  | JsNull => None
  | JsObject _ | JsArray _ | JsDate _ =>
    Some (isString (SessionJson.get "id" citation) &&
          isString (SessionJson.get "content_snippet" citation) &&
          isString (SessionJson.get "source_file_id" citation) &&
          isString (SessionJson.get "source_file_url" citation) &&
          isString (SessionJson.get "source_file_name" citation))
  | _ => Some false
  end.

Section WithDates.
Context `{DateLib}.

(** [exportCitations(citations, 'json')]: the document of
    [JSON.stringify(citations, null, 2)]. *)
Definition exportCitationsJson (citations : list Citation) : Json :=
  match SessionJson.stringify (JsArray (map SessionJson.citationObject citations)) with
  | Some doc => doc
  | None => JNull
  end.

End WithDates.

End CitationTools.

(** ** De-duplication in double precision

    [intersection.size / union.size] divides two doubles: the result is the
    exact ratio rounded to the nearest double, and the threshold it is
    compared with is a double as well (the default is the double written
    [0.8]).  The rounding [fl] is a parameter. *)

Module Doubles.
Section WithRounding.
Variable fl : Q -> Q.

Definition calculateContentSimilarity (text1 text2 : string) : Q :=
  fl (CitationHandler.calculateContentSimilarity text1 text2).

Definition isDuplicate (threshold : Q) (deduplicated : list Citation) (citation : Citation)
  : bool :=
  existsb (fun existing =>
             CitationHandler.Qgtb
               (calculateContentSimilarity (content_snippet citation)
                                           (content_snippet existing))
               threshold) deduplicated.

Definition defaultThreshold : Q := fl (8 # 10).

Definition deduplicateCitations (citations : list Citation)
           (similarityThreshold : option Q) : list Citation :=
  let threshold :=
    match similarityThreshold with Some q => q | None => defaultThreshold end in
  fold_left (fun deduplicated citation =>
               if isDuplicate threshold deduplicated citation then deduplicated
               else deduplicated ++ [citation]) citations [].

End WithRounding.

(** A rounding for instantiating statements: down to a multiple of 1/1024. *)
Definition toGrid (q : Q) : Q := (Qfloor (q * 1024) # 1024)%Q.

End Doubles.

(** ** Notions for the frame handlers *)

Module Frames.

(** A field of a message that an update without [id], [role] and
    [timestamp] cannot change. *)
Definition untouched {B} (g : Message -> B) : Prop :=
  forall x u, u_id u = None -> u_role u = None -> u_timestamp u = None ->
              g (StateManager.spread x u) = g x.

Definition withCitations (cs : list Citation) (m : Message) : Message :=
  mkMessage (msg_id m) (role m) (content m) (timestamp m) (status m)
            (isStreaming m) (Some cs) (metadata m).

Definition citationsFrame (messageId : string) (cs : list Citation)
  : option WebSocketClient.WebSocketMessage :=
  Some (WebSocketClient.mkFrame WebSocketClient.citations_frame
          (Some (WebSocketClient.mkData None (Some messageId) (Some cs)))).

End Frames.

(** ** Outbound operations of the client *)

Module Outbound.
Import WebSocketClient.

Definition isConnected (c : WebSocketClient.t) : bool :=
  match ws c with
  | Some i => match sockets c !! i with Some OPEN => true | _ => false end
  | None => false
  end.

Section WithDates.
Context `{DateLib}.

(** [sendMessage(type, data)]: the return value and, when something was
    written, the socket and the document of the text passed to [ws.send].
    [sendFails] says that [JSON.stringify] or [send] throws. *)
Definition sendMessage (sendFails : bool) (type : string) (data : JsValue)
           (c : WebSocketClient.t) : bool * option (nat * Json) :=
  match ws c with
  | None => (false, None)
  | Some i =>
    match sockets c !! i with
    | Some OPEN =>
      if sendFails then (false, None)
      else
        match SessionJson.stringify (JsObject [("type", JsString type); ("data", data)]) with
        | Some doc => (true, Some (i, doc))
        | None => (false, None)
        end
    | _ => (false, None)
    end
  end.

(** [sessionId || this.stateManager.getCurrentSession()?.id] *)
Definition sessionIdOrCurrent (sessionId : option string) (c : WebSocketClient.t) : JsValue :=
  if truthy_string sessionId then JsString (StateManager.or_else sessionId EmptyString)
  else
    match StateManager.getCurrentSession (stateManager c) with
    | Some s => JsString (session_id s)
    | None => JsUndefined
    end.

Definition sendChatMessage (e : Env) (sendFails : bool) (message : string)
           (sessionId : option string) (c : WebSocketClient.t) : bool * option (nat * Json) :=
  sendMessage sendFails "chat_message"
    (JsObject [ ("message", JsString message);
                ("sessionId", sessionIdOrCurrent sessionId c);
                ("timestamp", JsNumber (inject_Z (now e))) ]) c.

End WithDates.

End Outbound.

(** ** What the store operations leave alone *)

Module Bookkeeping.
Import Spec.

(** Every operation but [createNewSession]. *)
Definition keepsSession (op : Op) : bool :=
  match op with OpCreateNewSession _ => false | _ => true end.

(** Every operation but [createNewSession] and [clearSession]. *)
Definition keepsMessages (op : Op) : bool :=
  match op with OpCreateNewSession _ | OpClearSession => false | _ => true end.

(** [st'] has the connection state of [st] and, when [st] has a session, a
    session with the same id, creation time and title. *)
Definition sessionKept (st st' : StateManager.t) : Prop :=
  StateManager.connectionState st' = StateManager.connectionState st /\
  forall s, StateManager.currentSession st = Some s ->
    exists s', StateManager.currentSession st' = Some s' /\
               session_id s' = session_id s /\
               created_at s' = created_at s /\
               title s' = title s.

(** [st'] holds at least as many messages as [st]. *)
Definition noFewer (st st' : StateManager.t) : Prop :=
  length (StateManager.getMessages st) <= length (StateManager.getMessages st').

End Bookkeeping.

(** ** The client with listeners that call back

    [emit] runs the listeners inside the function that emits, and the store
    the client writes is the singleton every other component holds.  In this
    second model of the client a function that has called listeners stays
    suspended until they return: what a listener calls in between
    ([connect()], [disconnect()], the store's methods) happens while the
    rest of the function is still to run.  A listener point that ends a
    function needs no suspension, for what a listener calls there is what it
    would call once the function has returned; the same holds inside
    [handleMessage], which after its first listener point only emits.  The
    host runs its callbacks to completion, one after the other, and may
    start closing an open socket at any time in between. *)

Module Reentrant.
Import WebSocketClient.

(** What is left of a suspended function. *)
Inductive Rest :=
| connect_rest (throws : bool)   (* [connect()] after [setConnectionState('connecting')] *)
| onopen_rest                    (* [onopen] after [setConnectionState('connected')] *)
| onclose_rest (code : Z)        (* [onclose] after [setConnectionState('disconnected')] *)
| onclose_reconnect.             (* [onclose] after [emit('disconnected', ..)] *)

(** The client and the functions suspended at a listener point, innermost
    first. *)
Record t := mk {
  client : WebSocketClient.t;
  suspended : list Rest
}.

Definition init (e : Env) (cfg : WebSocketConfig) : t :=
  {| client := create e cfg; suspended := [] |}.

Definition sameState (a b : StateManager.ConnectionState) : bool :=
  match a, b with
  | StateManager.connecting, StateManager.connecting
  | StateManager.connected, StateManager.connected
  | StateManager.disconnected, StateManager.disconnected => true
  | _, _ => false
  end.

(** The store's [setConnectionState] calls its listeners only when the
    state changes. *)
Definition announces (s : StateManager.ConnectionState) (c : WebSocketClient.t) : bool :=
  negb (sameState (StateManager.connectionState (stateManager c)) s).

(** [connect()] up to [setConnectionState('connecting')], and from there. *)
Definition connect_begin (c : WebSocketClient.t) : WebSocketClient.t :=
  {| config := config c;
     stateManager := StateManager.setConnectionState StateManager.connecting (stateManager c);
     sockets := sockets c; ws := ws c;
     reconnectTimer := reconnectTimer c; pingTimer := pingTimer c;
     reconnectAttemptsMade := reconnectAttemptsMade c;
     isIntentionallyClosed := false;
     emitted := emitted c; autoConnects := autoConnects c |}.

Definition connect_end (throws : bool) (c1 : WebSocketClient.t) : WebSocketClient.t :=
  if throws then setConnectionState StateManager.disconnected c1
  else
    {| config := config c1; stateManager := stateManager c1;
       sockets := sockets c1 ++ [CONNECTING];
       ws := Some (length (sockets c1));
       reconnectTimer := reconnectTimer c1; pingTimer := pingTimer c1;
       reconnectAttemptsMade := reconnectAttemptsMade c1;
       isIntentionallyClosed := isIntentionallyClosed c1;
       emitted := emitted c1; autoConnects := autoConnects c1 |}.

(** [onopen] up to [setConnectionState('connected')], and from there. *)
Definition onopen_begin (c : WebSocketClient.t) : WebSocketClient.t :=
  setConnectionState StateManager.connected c.

Definition onopen_end (c1 : WebSocketClient.t) : WebSocketClient.t :=
  emit ev_connected
    {| config := config c1; stateManager := stateManager c1;
       sockets := sockets c1; ws := ws c1;
       reconnectTimer := reconnectTimer c1;
       pingTimer := true;
       reconnectAttemptsMade := 0%Z;
       isIntentionallyClosed := isIntentionallyClosed c1;
       emitted := emitted c1; autoConnects := autoConnects c1 |}.

(** [onclose] up to [setConnectionState('disconnected')], from there up to
    [emit('disconnected', ..)], and from there. *)
Definition onclose_begin (c : WebSocketClient.t) : WebSocketClient.t :=
  setConnectionState StateManager.disconnected c.

Definition onclose_mid (code : Z) (c : WebSocketClient.t) : WebSocketClient.t :=
  emit (ev_disconnected code) (cleanup c).

Definition onclose_end (c : WebSocketClient.t) : WebSocketClient.t :=
  if isIntentionallyClosed c then c else scheduleReconnect c.

(** The [setTimeout] callback up to its [connect()] call. *)
Definition timer_begin (c : WebSocketClient.t) : WebSocketClient.t :=
  {| config := config c; stateManager := stateManager c;
     sockets := sockets c; ws := ws c;
     reconnectTimer := Fired; pingTimer := pingTimer c;
     reconnectAttemptsMade := reconnectAttemptsMade c;
     isIntentionallyClosed := isIntentionallyClosed c;
     emitted := emitted c; autoConnects := autoConnects c |}.

Definition countAuto (c : WebSocketClient.t) : WebSocketClient.t :=
  {| config := config c; stateManager := stateManager c;
     sockets := sockets c; ws := ws c;
     reconnectTimer := reconnectTimer c; pingTimer := pingTimer c;
     reconnectAttemptsMade := reconnectAttemptsMade c;
     isIntentionallyClosed := isIntentionallyClosed c;
     emitted := emitted c; autoConnects := S (autoConnects c) |}.

Definition withStore (st : StateManager.t) (c : WebSocketClient.t) : WebSocketClient.t :=
  {| config := config c; stateManager := st;
     sockets := sockets c; ws := ws c;
     reconnectTimer := reconnectTimer c; pingTimer := pingTimer c;
     reconnectAttemptsMade := reconnectAttemptsMade c;
     isIntentionallyClosed := isIntentionallyClosed c;
     emitted := emitted c; autoConnects := autoConnects c |}.

(** A [connect()] call on client [c], with [stack] suspended below it. *)
Definition start_connect (throws : bool) (c : WebSocketClient.t) (stack : list Rest) : t :=
  if announces StateManager.connecting c
  then {| client := connect_begin c; suspended := connect_rest throws :: stack |}
  else {| client := connect_end throws (connect_begin c); suspended := stack |}.

(** The listeners called last have returned: the innermost suspended
    function goes on, up to its next listener point or its end. *)
Definition resume (m : t) : option t :=
  match suspended m with
  | [] => None
  | connect_rest throws :: stack =>
    Some {| client := connect_end throws (client m); suspended := stack |}
  | onopen_rest :: stack =>
    Some {| client := onopen_end (client m); suspended := stack |}
  | onclose_rest code :: stack =>
    Some {| client := onclose_mid code (client m); suspended := onclose_reconnect :: stack |}
  | onclose_reconnect :: stack =>
    Some {| client := onclose_end (client m); suspended := stack |}
  end.

(** What can happen: a call or a host callback begins ([Begin]; the calls
    may come from a listener, the host callbacks only while nothing is
    suspended), listeners return, the peer starts closing an open socket,
    and some holder of the store (a listener, another component) leaves it
    in another state. *)
Inductive Event :=
| Begin (ev : WebSocketClient.Event)
| ListenersReturn
| PeerCloses (i : nat)
| StoreWritten (st : StateManager.t).

Definition idle (m : t) : bool :=
  match suspended m with [] => true | _ :: _ => false end.

Definition step (ev : Event) (m : t) : option t :=
  let c := client m in
  match ev with
  | Begin (CallConnect throws) => Some (start_connect throws c (suspended m))
  | Begin CallDisconnect => Some {| client := disconnect c; suspended := suspended m |}
  | Begin (SocketOpen i) =>
    match idle m, sockets c !! i with
    | true, Some CONNECTING =>
      let c1 := setSocket i OPEN c in
      Some (if announces StateManager.connected c1
            then {| client := onopen_begin c1; suspended := [onopen_rest] |}
            else {| client := onopen_end (onopen_begin c1); suspended := [] |})
    | _, _ => None
    end
  | Begin (SocketMessage i e raw) =>
    match idle m, sockets c !! i with
    | true, Some OPEN => Some {| client := onmessage e raw c; suspended := [] |}
    | _, _ => None
    end
  | Begin (SocketError i) =>
    match idle m, sockets c !! i with
    | true, Some CLOSED | true, None | false, _ => None
    | true, Some _ => Some {| client := onerror c; suspended := [] |}
    end
  | Begin (SocketClose i code) =>
    match idle m, sockets c !! i with
    | true, Some CLOSED | true, None | false, _ => None
    | true, Some _ =>
      let c1 := setSocket i CLOSED c in
      Some (if announces StateManager.disconnected c1
            then {| client := onclose_begin c1; suspended := [onclose_rest code] |}
            else {| client := onclose_mid code (onclose_begin c1);
                    suspended := [onclose_reconnect] |})
    end
  | Begin (ReconnectTimerFires throws) =>
    match idle m, reconnectTimer c with
    | true, Pending =>
      let c1 := timer_begin c in
      Some (if isIntentionallyClosed c1 then {| client := c1; suspended := [] |}
            else start_connect throws (countAuto c1) [])
    | _, _ => None
    end
  | ListenersReturn => resume m
  | PeerCloses i =>
    match idle m, sockets c !! i with
    | true, Some OPEN => Some {| client := setSocket i CLOSING c; suspended := [] |}
    | _, _ => None
    end
  | StoreWritten st => Some {| client := withStore st c; suspended := suspended m |}
  end.

Fixpoint run (evs : list Event) (m : t) : option t :=
  match evs with
  | [] => Some m
  | ev :: rest =>
    match step ev m with
    | Some m' => run rest m'
    | None => None
    end
  end.

Definition isConnect (ev : Event) : bool :=
  match ev with Begin (CallConnect _) => true | _ => false end.

Definition noConnect (evs : list Event) : bool :=
  forallb (fun ev => negb (isConnect ev)) evs.

(** A suspended [connect()] will still create its socket, a suspended
    [onclose] may still schedule a reconnect. *)
Definition toCome (r : Rest) : nat :=
  match r with onopen_rest => 0 | _ => 1 end.

(** What is in flight: sockets whose [close] event is still to come, a
    pending reconnect timer, and suspended functions that will add one. *)
Definition inFlight (m : t) : nat :=
  liveSockets (client m) + pendingTimers (client m) + list_sum (map toCome (suspended m)).

(** [connect()] is called, by whomever, only while nothing is in flight. *)
Fixpoint disciplined (evs : list Event) (m : t) : bool :=
  match evs with
  | [] => true
  | ev :: rest =>
    (negb (isConnect ev) || (inFlight m =? 0)%nat) &&
    match step ev m with
    | Some m' => disciplined rest m'
    | None => true
    end
  end.

(** Nobody but the client changes the store's connection state. *)
Fixpoint connectionStateLeftAlone (evs : list Event) (m : t) : bool :=
  match evs with
  | [] => true
  | ev :: rest =>
    match ev with
    | StoreWritten st =>
      sameState (StateManager.connectionState st)
                (StateManager.connectionState (stateManager (client m)))
    | _ => true
    end &&
    match step ev m with
    | Some m' => connectionStateLeftAlone rest m'
    | None => true
    end
  end.

(** A socket that has opened and whose [close] event is still to come. *)
Definition isUp (r : ReadyState) : bool :=
  match r with OPEN | CLOSING => true | _ => false end.

(** The callbacks of one event when no listener calls anything: the
    listeners return at once, as often as the callback calls any. *)
Definition silently (ev : WebSocketClient.Event) (returns : nat) : list Event :=
  Begin ev :: repeat ListenersReturn returns.

(** One reconnect allowed; the first socket fails, and a listener of
    [disconnected] calls [connect()] before the close callback goes on to
    schedule its own reconnect.  Both sockets fail in the end. *)
Definition listenerReconnects : list Event :=
  [ Begin (CallConnect false); ListenersReturn;
    Begin (SocketClose 0 1006%Z);           (* announces [disconnected] *)
    ListenersReturn;                        (* emits [disconnected] *)
    Begin (CallConnect false);              (* by a listener: nothing is in flight *)
    ListenersReturn;                        (* that [connect()] creates socket 1 *)
    ListenersReturn;                        (* [onclose] schedules the reconnect *)
    Begin (ReconnectTimerFires false);      (* state is [connecting] already: socket 2 *)
    Begin (SocketClose 1 1006%Z); ListenersReturn; ListenersReturn;
    Begin (SocketClose 2 1006%Z); ListenersReturn ].

(** Three reconnects allowed and used up; the fourth socket has just closed
    and the listeners of [disconnected] are running. *)
Definition failingFourTimes : list Event :=
  [ Begin (CallConnect false); ListenersReturn;
    Begin (SocketClose 0 1006%Z); ListenersReturn; ListenersReturn;
    Begin (ReconnectTimerFires false); ListenersReturn;
    Begin (SocketClose 1 1006%Z); ListenersReturn; ListenersReturn;
    Begin (ReconnectTimerFires false); ListenersReturn;
    Begin (SocketClose 2 1006%Z); ListenersReturn; ListenersReturn;
    Begin (ReconnectTimerFires false); ListenersReturn;
    Begin (SocketClose 3 1006%Z); ListenersReturn ].

Definition orElse (o : option t) : t :=
  match o with Some m => m | None => init (Scenario.at_ 1000 "lx10") Scenario.maxThree end.

End Reentrant.

(* ===================================================================== *)
(** * Part II: properties                                                 *)
(* ===================================================================== *)

Import WebSocketClient.

(** ** The session store *)

Section StoreFacts.
Import StateManager.

Lemma findIndex_Some {A} (p : A -> bool) (l : list A) (i : nat) :
  findIndex p l = Some i ->
  exists x, l !! i = Some x /\ p x = true /\
            forall j y, j < i -> l !! j = Some y -> p y = false.
Proof.
  revert i. induction l as [|a l IH]; intros i; simpl; [discriminate|].
  destruct (p a) eqn:Hp.
  - intros [= <-]. exists a. repeat split; auto. intros j y Hj. lia.
  - destruct (findIndex p l) as [k|] eqn:Hk; simpl; [|discriminate].
    intros [= <-]. destruct (IH k eq_refl) as (x & Hx & Hpx & Hlt).
    exists x. repeat split; auto.
    intros [|j] y Hj; simpl.
    + intros [= <-]. exact Hp.
    + apply Hlt. lia.
Qed.

Lemma findIndex_first {A} (p : A -> bool) (pre post : list A) (x : A) :
  (forall y, y ∈ pre -> p y = false) -> p x = true ->
  findIndex p (pre ++ x :: post) = Some (length pre).
Proof.
  induction pre as [|a pre IH]; intros Hpre Hx; simpl.
  - by rewrite Hx.
  - rewrite (Hpre a) by constructor.
    rewrite IH; auto. intros y Hy. apply Hpre. by constructor.
Qed.

Lemma insert_as_alter {A} (f : A -> A) (l : list A) (i : nat) (x : A) :
  l !! i = Some x -> <[i := f x]> l = alter f i l.
Proof.
  revert i. induction l as [|a l IH]; intros [|i]; simpl; try discriminate.
  - by intros [= ->].
  - intros Hi. f_equal. by apply IH.
Qed.

Lemma getMessages_addMessage e m st :
  getMessages (snd (addMessage e m st)) =
  getMessages st ++ [fst (addMessage e m st)].
Proof. unfold getMessages, addMessage. simpl. by destruct (currentSession st). Qed.

(** [updateMessage] rewrites the first message carrying the id and
    nothing else. *)
Lemma getMessages_updateMessage messageId u st :
  getMessages (snd (updateMessage messageId u st)) =
  match findIndex (fun m => String.eqb (msg_id m) messageId) (getMessages st) with
  | Some i => alter (fun old => spread old u) i (getMessages st)
  | None => getMessages st
  end.
Proof.
  unfold getMessages, updateMessage.
  destruct (currentSession st) as [s|] eqn:Hs; simpl; [|by rewrite Hs].
  destruct (findIndex _ (messages s)) as [i|] eqn:Hi; simpl; [|by rewrite Hs].
  destruct (findIndex_Some _ _ _ Hi) as (x & Hx & _).
  rewrite Hx. simpl. by apply (insert_as_alter (fun old => spread old u)).
Qed.

Lemma updated_at_updateMessage messageId u st :
  option_map updated_at (currentSession (snd (updateMessage messageId u st))) =
  option_map updated_at (currentSession st).
Proof.
  unfold updateMessage.
  destruct (currentSession st) as [s|] eqn:Hs; simpl; [|by rewrite Hs].
  destruct (findIndex _ (messages s)) as [i|]; simpl; [|by rewrite Hs].
  destruct (messages s !! i); simpl; by rewrite ?Hs.
Qed.

Lemma updated_at_addMessage e m st :
  option_map updated_at (currentSession (snd (addMessage e m st))) = Some (now e).
Proof. reflexivity. Qed.

End StoreFacts.

(** ** Inbound frames *)

Section FrameFacts.
Import StateManager.

Lemma map_alter_same {A B} (g : A -> B) (f : A -> A) (i : nat) (l : list A) :
  (forall x, g (f x) = g x) -> map g (alter f i l) = map g l.
Proof.
  intros Hf. revert i. induction l as [|a l IH]; intros [|i]; simpl; auto.
  - by rewrite Hf.
  - f_equal. apply IH.
Qed.

Lemma status_updateMessage messageId u st :
  u_status u = None ->
  map status (getMessages (snd (updateMessage messageId u st))) =
  map status (getMessages st).
Proof.
  intros Hu. rewrite getMessages_updateMessage.
  destruct (findIndex _ _); [|done].
  apply map_alter_same. intros x. unfold spread. simpl. by rewrite Hu.
Qed.

(** No [message_complete] frame changes the status of any message. *)
Lemma status_handleMessageComplete data st st' evs :
  handleMessageComplete data st = Some (st', evs) ->
  map status (getMessages st') = map status (getMessages st).
Proof.
  unfold handleMessageComplete.
  destruct (getLastMessage st) as [m|]; [|by intros [= <- _]].
  destruct (is_assistant m); [|by intros [= <- _]].
  destruct data as [d|]; [|discriminate].
  intros [= <- _]. by apply status_updateMessage.
Qed.

Lemma status_handleMessageChunk data st st' evs :
  handleMessageChunk data st = Some (st', evs) ->
  map status (getMessages st') = map status (getMessages st).
Proof.
  unfold handleMessageChunk.
  destruct (getLastMessage st) as [m|]; [|by intros [= <- _]].
  destruct (is_assistant m && truthy_flag (isStreaming m)); [|by intros [= <- _]].
  destruct data as [d|]; [|discriminate].
  intros [= <- _]. by apply status_updateMessage.
Qed.

Lemma status_handleCitations data st st' evs :
  handleCitations data st = Some (st', evs) ->
  map status (getMessages st') = map status (getMessages st).
Proof.
  unfold handleCitations, addCitationsToMessage.
  destruct data as [d|]; [|discriminate].
  destruct (d_citations d); [|by intros [= <- _]].
  destruct (truthy_string (d_messageId d)); [|by intros [= <- _]].
  intros [= <- _]. by apply status_updateMessage.
Qed.

(** With distinct ids, the id of the last message finds the last slot. *)
Lemma findIndex_last_id (pre : list Message) (m : Message) :
  NoDup (map msg_id (pre ++ [m])) ->
  findIndex (fun x => String.eqb (msg_id x) (msg_id m)) (pre ++ [m]) = Some (length pre).
Proof.
  intros Hnd. apply findIndex_first.
  - intros y Hy. apply String.eqb_neq. intros Heq.
    rewrite map_app in Hnd. apply NoDup_app in Hnd as (_ & Hdis & _).
    apply (Hdis (msg_id y)).
    + apply list_elem_of_In, in_map, list_elem_of_In, Hy.
    + rewrite Heq. simpl. constructor.
  - apply String.eqb_refl.
Qed.

Lemma updateMessage_last u st (pre : list Message) (m : Message) :
  getMessages st = pre ++ [m] ->
  NoDup (map msg_id (getMessages st)) ->
  getMessages (snd (updateMessage (msg_id m) u st)) = pre ++ [spread m u].
Proof.
  intros Hl Hnd. rewrite getMessages_updateMessage, Hl.
  rewrite Hl in Hnd. rewrite (findIndex_last_id _ _ Hnd).
  replace (length pre) with (length pre + 0) by lia.
  by rewrite alter_app_r.
Qed.

(** A [message_complete] frame that supplies a non-empty [content]
    overwrites the accumulated text of the last (assistant) message. *)
Lemma complete_overwrites_content e st (pre : list Message) (m : Message) (final : string) :
  getMessages st = pre ++ [m] ->
  NoDup (map msg_id (getMessages st)) ->
  role m = RAssistant -> final <> "" ->
  getMessages
    (fst (handleMessage e
            (Some (mkFrame message_complete (Some (mkData (Some final) None None)))) st)) =
  pre ++ [mkMessage (msg_id m) RAssistant final (timestamp m) (status m)
                    (Some false) (citations m) (metadata m)].
Proof.
  intros Hl Hnd Hrole Hne. unfold handleMessage, handleMessageComplete. simpl.
  unfold getLastMessage. rewrite Hl, last_snoc.
  unfold is_assistant. rewrite bool_decide_eq_true_2 by done. simpl.
  apply String.eqb_neq in Hne. rewrite Hne. simpl.
  rewrite (updateMessage_last _ _ pre m Hl Hnd).
  unfold spread. simpl. by rewrite Hrole.
Qed.

End FrameFacts.

(** C1 (as the code behaves).  For the frame sequence typing_start, three
    message_delta frames "Hel", "lo ", "world" and a message_complete frame
    without content, the final assistant message has content "Hello world"
    and its [isStreaming] flag is cleared, but its [status] field is still
    [streaming]: [handleMessageComplete] never writes [status], so the status
    is not [completed]. *)
Theorem C1_hello_world_status_stays_streaming :
  exists m,
    StateManager.getMessages (handleFrames Scenario.helloFrames Scenario.freshStore) = [m] /\
    role m = RAssistant /\
    content m = "Hello world" /\
    isStreaming m = Some false /\
    status m = Streaming /\
    status m <> Completed.
Proof.
  eexists. split; [reflexivity|]. simpl. repeat split; done.
Qed.

(** C2 (the sentence as written fails).  With a streaming assistant message
    followed by a user message, the most recent message with role=assistant
    and status=streaming exists, yet a delta leaves every content unchanged:
    the delta is lost. *)
Lemma C2_delta_lost_behind_later_message :
  ~ (forall (e : Env) (d : FrameData) (st : StateManager.t),
        map content (StateManager.getMessages (fst (handleMessage e (Spec.deltaFrame d) st))) =
        map content (Spec.deltaOnTarget (Spec.deltaText d) (StateManager.getMessages st))).
Proof.
  intros H.
  specialize (H (Scenario.at_ 1003 "lx1c") (mkData (Some "lo ") None None) Scenario.interleaved).
  vm_compute in H. discriminate H.
Qed.

(** C2 (amended).  A message_delta frame looks at the last message of the
    session only.  When message ids are distinct and that message is an
    assistant message whose [isStreaming] flag is set, the frame's
    [data.content] (nothing when absent) is appended to its content and no
    other message changes; otherwise the message list is unchanged. *)
Theorem C2_delta_extends_last_message (e : Env) (d : FrameData) (st : StateManager.t) :
  NoDup (map msg_id (StateManager.getMessages st)) ->
  StateManager.getMessages (fst (handleMessage e (Spec.deltaFrame d) st)) =
  Spec.deltaOnLast (Spec.deltaText d) (StateManager.getMessages st).
Proof.
  intros Hnd. unfold handleMessage, Spec.deltaFrame, Spec.deltaOnLast. simpl.
  unfold handleMessageChunk, StateManager.getLastMessage.
  destruct (StateManager.getMessages st) as [|a l] eqn:Hl using rev_ind; [done|].
  clear IHl. rewrite last_snoc.
  destruct (is_assistant a && truthy_flag (isStreaming a)); [|simpl; by rewrite Hl].
  simpl. rewrite (updateMessage_last _ _ l a Hl) by (by rewrite Hl).
  by rewrite removelast_last.
Qed.

Lemma C2_delta_extends_last_message_witness :
  NoDup (map msg_id [Scenario.question; Scenario.answering]) /\
  StateManager.getMessages
    (fst (handleMessage (Scenario.at_ 1003 "lx1c")
            (Spec.deltaFrame (mkData (Some "lo ") None None))
            (StateManager.mk
               (Some (mkSession "session_lx10" [Scenario.question; Scenario.answering] 1000 1002 None))
               StateManager.connected))) =
  [ Scenario.question;
    mkMessage "msg_a" RAssistant "Hello " 1001 Streaming (Some true) None None ].
Proof.
  assert (Hnd : NoDup (map msg_id [Scenario.question; Scenario.answering])).
  { apply (bool_decide_unpack _). vm_compute. reflexivity. }
  split; [exact Hnd|].
  exact (C2_delta_extends_last_message _ _
           (StateManager.mk
              (Some (mkSession "session_lx10" [Scenario.question; Scenario.answering] 1000 1002 None))
              StateManager.connected) Hnd).
Defined.

(** ** Counting streaming messages *)

Section StreamingCount.
Import StateManager Spec.

Lemma streamingCount_app (l1 l2 : list Message) :
  streamingCount (l1 ++ l2) = streamingCount l1 + streamingCount l2.
Proof. unfold streamingCount. by rewrite List.filter_app, length_app. Qed.

Lemma streamingCount_statuses (l1 l2 : list Message) :
  map status l1 = map status l2 -> streamingCount l1 = streamingCount l2.
Proof.
  unfold streamingCount. revert l2.
  induction l1 as [|a l1 IH]; intros [|b l2]; simpl; try discriminate; [done|].
  intros [= Hab Hl]. rewrite Hab.
  destruct (bool_decide (status b = Streaming)); simpl; auto.
Qed.

Lemma streamingCount_alter (f : Message -> Message) (i : nat) (l : list Message) :
  streamingCount (alter f i l) <= streamingCount l + 1.
Proof.
  unfold streamingCount. revert i.
  induction l as [|a l IH]; intros [|i]; simpl; try lia.
  - destruct (bool_decide (status (f a) = Streaming)),
             (bool_decide (status a = Streaming)); simpl; lia.
  - specialize (IH i). change (list_alter f i l) with (alter f i l).
    destruct (bool_decide (status a = Streaming)); simpl; lia.
Qed.

Lemma streamingCount_alter_no_start (f : Message -> Message) (i : nat) (l : list Message) :
  (forall x, status (f x) = Streaming -> status x = Streaming) ->
  streamingCount (alter f i l) <= streamingCount l.
Proof.
  intros Hf. unfold streamingCount. revert i.
  induction l as [|a l IH]; intros [|i]; simpl; try lia.
  - destruct (bool_decide (status (f a) = Streaming)) eqn:Hfa;
      [|destruct (bool_decide (status a = Streaming)); simpl; lia].
    apply bool_decide_eq_true_1, Hf in Hfa.
    rewrite bool_decide_eq_true_2 by done. simpl. lia.
  - specialize (IH i). change (list_alter f i l) with (alter f i l).
    destruct (bool_decide (status a = Streaming)); simpl; lia.
Qed.

Lemma streamingCount_updateMessage messageId u st :
  streamingCount (getMessages (snd (updateMessage messageId u st))) <=
  streamingCount (getMessages st) +
  (if bool_decide (u_status u = Some Streaming) then 1 else 0).
Proof.
  rewrite getMessages_updateMessage.
  destruct (findIndex _ _) as [i|]; [|lia].
  case_bool_decide as Hu.
  - apply streamingCount_alter.
  - etrans; [apply streamingCount_alter_no_start|lia].
    intros x. unfold spread. simpl.
    destruct (u_status u) as [s'|]; simpl; [|done].
    intros ->. by destruct Hu.
Qed.

Lemma streamingCount_handleMessage e raw st :
  streamingCount (getMessages (fst (handleMessage e raw st))) <=
  streamingCount (getMessages st) + (if startsStreaming (OpFrame e raw) then 1 else 0).
Proof.
  destruct raw as [[ty data]|]; simpl; [|lia].
  destruct ty; simpl; try lia.
  - destruct (handleMessageChunk data st) as [[st' evs]|] eqn:Hh; simpl; [|lia].
    rewrite (streamingCount_statuses _ _ (status_handleMessageChunk _ _ _ _ Hh)). lia.
  - destruct (handleMessageComplete data st) as [[st' evs]|] eqn:Hh; simpl; [|lia].
    rewrite (streamingCount_statuses _ _ (status_handleMessageComplete _ _ _ _ Hh)). lia.
  - destruct (handleCitations data st) as [[st' evs]|] eqn:Hh; simpl; [|lia].
    rewrite (streamingCount_statuses _ _ (status_handleCitations _ _ _ _ Hh)). lia.
  - unfold getMessages. simpl. destruct (currentSession st); simpl.
    + rewrite streamingCount_app. unfold streamingCount at 2. simpl. lia.
    + unfold streamingCount. simpl. lia.
Qed.

Lemma streamingCount_applyOp op st :
  streamingCount (getMessages (applyOp op st)) <=
  streamingCount (getMessages st) + (if startsStreaming op then 1 else 0).
Proof.
  destruct op as [e raw|e m|messageId u|messageId cs| |e].
  - apply streamingCount_handleMessage.
  - unfold applyOp, startsStreaming.
    rewrite getMessages_addMessage, streamingCount_app.
    unfold streamingCount at 2. simpl.
    destruct (bool_decide (new_status m = Streaming)); simpl; lia.
  - apply streamingCount_updateMessage.
  - etrans; [apply streamingCount_updateMessage|]. simpl. lia.
  - unfold getMessages, applyOp, clearSession.
    destruct (currentSession st) as [s|] eqn:Hs; simpl.
    + unfold streamingCount at 1. simpl. lia.
    + rewrite Hs. done.
  - unfold streamingCount at 1. simpl. lia.
Qed.

End StreamingCount.

(** ** Properties of imported objects *)

Section PropertyFacts.
Context `{DateLib}.
Import SessionJson.

Lemma lookupProp_setProp_eq (k : string) (x : JsValue) (ps : list (string * JsValue)) :
  lookupProp k (setProp k x ps) = x.
Proof.
  induction ps as [|[k0 x0] ps IH]; simpl.
  - by rewrite String.eqb_refl.
  - destruct (String.eqb_spec k0 k) as [->|Hne]; simpl.
    + by rewrite String.eqb_refl.
    + destruct (String.eqb_spec k0 k); [done|apply IH].
Qed.

Lemma lookupProp_setProp_ne (k k' : string) (x : JsValue) (ps : list (string * JsValue)) :
  k <> k' -> lookupProp k' (setProp k x ps) = lookupProp k' ps.
Proof.
  intros Hne. induction ps as [|[k0 x0] ps IH]; simpl.
  - destruct (String.eqb_spec k k'); [done|done].
  - destruct (String.eqb_spec k0 k) as [->|Hk0]; simpl.
    + by destruct (String.eqb_spec k k').
    + destruct (String.eqb_spec k0 k'); [done|apply IH].
Qed.

(** An accepted import leaves every property but the two dates as the
    document has it. *)
Lemma import_keeps_other_properties (doc : Json) (imported : JsValue) (k : string) :
  importSession (Some doc) = (true, Some imported) ->
  k <> "created_at" -> k <> "updated_at" ->
  get k imported = get k (JSON_parse doc).
Proof.
  unfold importSession.
  destruct (truthy (JSON_parse doc) && _ && _); [|discriminate].
  destruct (JSON_parse doc) as [ | |b|q|str|ms|items|ps]; try discriminate.
  simpl get.
  destruct (new_Date (lookupProp "created_at" ps)); [|discriminate].
  destruct (new_Date (lookupProp "updated_at" ps)); [|discriminate].
  intros [= <-] Hk1 Hk2. simpl. by rewrite !lookupProp_setProp_ne.
Qed.

End PropertyFacts.

(** C3 (the sentence as written fails).  Two typing_start frames in a row
    leave two messages with status=streaming in the session. *)
Lemma C3_two_typing_starts_two_streaming :
  ~ (forall ops : list Spec.Op,
        Spec.streamingCount
          (StateManager.getMessages (Spec.applyOps ops Scenario.freshStore)) <= 1).
Proof.
  intros H. specialize (H Scenario.twoTypingStarts). vm_compute in H. lia.
Qed.

(** C3 (amended).  Over any sequence of inbound frames and of [addMessage],
    [updateMessage], [addCitationsToMessage], [clearSession] and
    [createNewSession] calls, the number of messages with status=streaming
    grows by at most one for each typing_start frame (and each addMessage /
    updateMessage call that itself passes status=streaming); nothing
    enforces a bound of one.  The remaining operation, [importSession],
    sets the message list to the [messages] array of the document as it was
    parsed, whatever it holds. *)
Theorem C3_streaming_messages_bounded_by_starts `{DateLib} :
  (forall (ops : list Spec.Op) (st : StateManager.t),
      Spec.streamingCount (StateManager.getMessages (Spec.applyOps ops st)) <=
      Spec.streamingCount (StateManager.getMessages st) + Spec.streamingStarts ops) /\
  (forall (doc : Json) (imported : JsValue),
      SessionJson.importSession (Some doc) = (true, Some imported) ->
      SessionJson.get "messages" imported =
      SessionJson.get "messages" (SessionJson.JSON_parse doc)).
Proof.
  split.
  - intros ops. induction ops as [|op ops IH]; intros st.
    + unfold Spec.applyOps, Spec.streamingStarts. simpl. lia.
    + change (Spec.applyOps (op :: ops) st)
        with (Spec.applyOps ops (Spec.applyOp op st)).
      specialize (IH (Spec.applyOp op st)).
      pose proof (streamingCount_applyOp op st) as Hop.
      assert (Spec.streamingStarts (op :: ops) =
              (if Spec.startsStreaming op then 1 else 0) + Spec.streamingStarts ops) as ->.
      { unfold Spec.streamingStarts. simpl. by destruct (Spec.startsStreaming op). }
      lia.
  - intros doc imported Himp.
    by apply (import_keeps_other_properties doc imported "messages" Himp).
Qed.

(** C6 (as the code behaves).  [addMessage] sets [updated_at] to the current
    time; [updateMessage], and with it [addCitationsToMessage], never touches
    it: a message edited at any later time leaves [updated_at] at the time of
    the last [addMessage]. *)
Theorem C6_updateMessage_does_not_bump_updated_at :
  (forall messageId u st,
      option_map updated_at
        (StateManager.currentSession (snd (StateManager.updateMessage messageId u st))) =
      option_map updated_at (StateManager.currentSession st)) /\
  (forall messageId cs st,
      option_map updated_at
        (StateManager.currentSession (StateManager.addCitationsToMessage messageId cs st)) =
      option_map updated_at (StateManager.currentSession st)) /\
  (let st' := snd (StateManager.updateMessage "msg_lx2a"
                     (mkUpdates None None (Some "edited") None None None None None)
                     Scenario.oneMessage) in
   map content (StateManager.getMessages Scenario.oneMessage) = ["hello"] /\
   map content (StateManager.getMessages st') = ["edited"] /\
   option_map updated_at (StateManager.currentSession st') = Some 2000%Z).
Proof.
  split; [|split].
  - intros. apply updated_at_updateMessage.
  - intros. apply updated_at_updateMessage.
  - repeat split; reflexivity.
Qed.

(** C10.  In the constructor a numeric option passed as 0 is replaced by the
    built-in default ([maxReconnectAttempts] 5, [reconnectInterval] 3000,
    [pingInterval] 30000, and likewise [reconnectDelay] 1000 and
    [heartbeatInterval] 25000), so no configuration yields zero reconnect
    attempts or a zero interval. *)
Theorem C10_zero_options_replaced_by_defaults :
  (forall (u : string) (a m d i h p : option Z),
      cfg_maxReconnectAttempts
        (makeConfig (mkWebSocketConfig u a (Some 0%Z) d i h p)) = 5%Z /\
      cfg_reconnectInterval
        (makeConfig (mkWebSocketConfig u a m d (Some 0%Z) h p)) = 3000%Z /\
      cfg_pingInterval
        (makeConfig (mkWebSocketConfig u a m d i h (Some 0%Z))) = 30000%Z /\
      cfg_reconnectDelay
        (makeConfig (mkWebSocketConfig u a m (Some 0%Z) i h p)) = 1000%Z /\
      cfg_heartbeatInterval
        (makeConfig (mkWebSocketConfig u a m d i (Some 0%Z) p)) = 25000%Z /\
      cfg_reconnectAttempts
        (makeConfig (mkWebSocketConfig u (Some 0%Z) m d i h p)) = 0%Z) /\
  (forall cfg : WebSocketConfig,
      cfg_maxReconnectAttempts (makeConfig cfg) <> 0%Z /\
      cfg_reconnectInterval (makeConfig cfg) <> 0%Z /\
      cfg_pingInterval (makeConfig cfg) <> 0%Z).
Proof.
  split; [intros; repeat split; reflexivity|].
  intros cfg. unfold makeConfig, or_default. simpl.
  repeat split.
  - destruct (maxReconnectAttempts cfg) as [v|]; [|done].
    destruct (Z.eqb_spec v 0); [done|done].
  - destruct (reconnectInterval cfg) as [v|]; [|done].
    destruct (Z.eqb_spec v 0); [done|done].
  - destruct (pingInterval cfg) as [v|]; [|done].
    destruct (Z.eqb_spec v 0); [done|done].
Qed.

(** ** The reconnect policy *)

Section ReconnectFacts.

Lemma terminalCount_app (l1 l2 : list ClientEvent) :
  terminalCount (l1 ++ l2) = terminalCount l1 + terminalCount l2.
Proof. unfold terminalCount. by rewrite List.filter_app, length_app. Qed.

Lemma terminalCount_snoc (l : list ClientEvent) (ev : ClientEvent) :
  terminalCount (l ++ [ev]) = terminalCount l + (if isTerminal ev then 1 else 0).
Proof.
  rewrite terminalCount_app. unfold terminalCount at 2. simpl.
  by destruct (isTerminal ev).
Qed.

Lemma liveCount_snoc (l : list ReadyState) (r : ReadyState) :
  liveCount (l ++ [r]) = liveCount l + (if isLive r then 1 else 0).
Proof.
  unfold liveCount. rewrite List.filter_app, length_app. simpl.
  by destruct (isLive r).
Qed.

Lemma liveCount_app (l1 l2 : list ReadyState) :
  liveCount (l1 ++ l2) = liveCount l1 + liveCount l2.
Proof. unfold liveCount. by rewrite List.filter_app, length_app. Qed.

Lemma liveCount_lookup (l : list ReadyState) (i : nat) (r : ReadyState) :
  l !! i = Some r -> isLive r = true -> 1 <= liveCount l.
Proof.
  unfold liveCount. revert i.
  induction l as [|a l IH]; intros [|i]; simpl; try discriminate.
  - intros [= ->] ->. simpl. lia.
  - intros Hi Hr. specialize (IH i Hi Hr). destruct (isLive a); simpl; lia.
Qed.

Lemma liveCount_insert_live (l : list ReadyState) (i : nat) (r r' : ReadyState) :
  l !! i = Some r -> isLive r = true -> isLive r' = true ->
  liveCount (<[i := r']> l) = liveCount l.
Proof.
  unfold liveCount. revert i.
  induction l as [|a l IH]; intros [|i]; simpl; try discriminate.
  - intros [= ->] -> ->. done.
  - intros Hi Hr Hr'. specialize (IH i Hi Hr Hr').
    change (list_insert i r' l) with (<[i := r']> l).
    destruct (isLive a); simpl; lia.
Qed.

Lemma liveCount_insert_closed (l : list ReadyState) (i : nat) (r : ReadyState) :
  l !! i = Some r -> isLive r = true ->
  S (liveCount (<[i := CLOSED]> l)) = liveCount l.
Proof.
  unfold liveCount. revert i.
  induction l as [|a l IH]; intros [|i]; simpl; try discriminate.
  - intros [= ->] ->. done.
  - intros Hi Hr. specialize (IH i Hi Hr).
    change (list_insert i CLOSED l) with (<[i := CLOSED]> l).
    destruct (isLive a); simpl; lia.
Qed.


End ReconnectFacts.

(** C7 (the sentence as written fails).  [connect()] does not check for a
    connection already in flight.  After three overlapping [connect()] calls
    with one reconnect allowed, the second failing socket emits
    [maxReconnectAttemptsReached] and the third, closing later, emits it
    again, with no explicit [connect()] in between. *)
Lemma C7_overlapping_connects_emit_twice :
  ~ (forall (e : Env) (cfg : WebSocketConfig) (before after : list Event) (c1 c2 : t),
        run before (create e cfg) = Some c1 ->
        1 <= terminalEvents c1 ->
        noCallConnect after = true ->
        run after c1 = Some c2 ->
        terminalEvents c2 = 1 /\ autoConnects c2 = autoConnects c1).
Proof.
  intros H.
  assert (H1 : run Scenario.overlappingConnects
                   (create (Scenario.at_ 1000 "lx10") Scenario.maxOne) =
               Some Scenario.overlapped) by (vm_compute; reflexivity).
  assert (H2 : 1 <= terminalEvents Scenario.overlapped) by (vm_compute; lia).
  assert (H3 : run [SocketClose 2 1006%Z] Scenario.overlapped =
               Some Scenario.overlappedLater) by (vm_compute; reflexivity).
  destruct (H _ _ _ [SocketClose 2 1006%Z] _ _ H1 H2 eq_refl H3) as [Hone _].
  vm_compute in Hone. discriminate Hone.
Qed.

(** ** The client with listeners that call back *)

Section ReentrantFacts.

Lemma liveCount_disconnect (c : WebSocketClient.t) :
  liveSockets (disconnect c) = liveSockets c /\ pendingTimers (disconnect c) = 0.
Proof.
  unfold liveSockets, pendingTimers, disconnect. simpl. split; [|done].
  destruct (ws c) as [i|]; [|done].
  destruct (sockets c !! i) as [[]|] eqn:Hi; try done.
  by apply (liveCount_insert_live _ _ OPEN).
Qed.

Lemma inFlight_connect (throws : bool) (c : WebSocketClient.t) (stack : list Reentrant.Rest) :
  Reentrant.inFlight (Reentrant.start_connect throws c stack) <=
  S (liveSockets c + pendingTimers c + list_sum (map Reentrant.toCome stack)).
Proof.
  unfold Reentrant.start_connect, Reentrant.inFlight, liveSockets, pendingTimers.
  destruct (Reentrant.announces _ c); simpl; [lia|].
  destruct throws; simpl; rewrite ?liveCount_snoc; simpl; lia.
Qed.

Lemma inFlight_step (ev : Reentrant.Event) (m m' : Reentrant.t) :
  Reentrant.isConnect ev = false -> Reentrant.step ev m = Some m' ->
  Reentrant.inFlight m' <= Reentrant.inFlight m.
Proof.
  intros Hev Hstep. destruct m as [c stack].
  destruct ev as [[throws| |i|i e raw|i|i code|throws]| |i|st];
    simpl in Hstep; try discriminate.
  - injection Hstep as <-. unfold Reentrant.inFlight. simpl.
    destruct (liveCount_disconnect c) as [-> ->]. lia.
  - destruct stack; simpl in Hstep; [|discriminate].
    destruct (sockets c !! i) as [[]|] eqn:Hi; try discriminate.
    injection Hstep as <-.
    unfold Reentrant.inFlight, liveSockets, pendingTimers.
    destruct (Reentrant.announces _ _); simpl;
      rewrite (liveCount_insert_live _ _ CONNECTING) by done; lia.
  - destruct stack; simpl in Hstep; [|discriminate].
    destruct (sockets c !! i) as [[]|] eqn:Hi; try discriminate.
    injection Hstep as <-. unfold Reentrant.inFlight, liveSockets, pendingTimers, onmessage.
    destruct (handleMessage e raw (stateManager c)) as [st evs]. simpl. lia.
  - destruct stack; simpl in Hstep; [|discriminate].
    destruct (sockets c !! i) as [[]|] eqn:Hi; try discriminate;
      injection Hstep as <-; unfold Reentrant.inFlight, liveSockets, pendingTimers; simpl; lia.
  - destruct stack; simpl in Hstep; [|discriminate].
    assert (exists r, sockets c !! i = Some r /\ isLive r = true /\
              m' = (let c1 := setSocket i CLOSED c in
                    if Reentrant.announces StateManager.disconnected c1
                    then Reentrant.mk (Reentrant.onclose_begin c1) [Reentrant.onclose_rest code]
                    else Reentrant.mk (Reentrant.onclose_mid code (Reentrant.onclose_begin c1))
                                      [Reentrant.onclose_reconnect]))
      as (r & Hi & Hr & ->).
    { destruct (sockets c !! i) as [[]|] eqn:Hi; try discriminate;
        injection Hstep as <-; eexists; repeat split; done. }
    pose proof (liveCount_insert_closed _ _ _ Hi Hr) as Hl.
    unfold Reentrant.inFlight, liveSockets, pendingTimers. cbv zeta.
    destruct (Reentrant.announces _ _); simpl; lia.
  - destruct stack; simpl in Hstep; [|discriminate].
    destruct (reconnectTimer c) eqn:Ht; try discriminate.
    injection Hstep as <-. simpl.
    destruct (isIntentionallyClosed c).
    + unfold Reentrant.inFlight, liveSockets, pendingTimers. simpl. rewrite Ht. lia.
    + etrans; [apply inFlight_connect|].
      unfold Reentrant.inFlight, liveSockets, pendingTimers. simpl. rewrite Ht. lia.
  - unfold Reentrant.resume in Hstep. simpl in Hstep.
    destruct stack as [|[throws| |code|] stack]; try discriminate;
      injection Hstep as <-; unfold Reentrant.inFlight, liveSockets, pendingTimers; simpl.
    + destruct throws; simpl; rewrite ?liveCount_snoc; simpl; lia.
    + lia.
    + lia.
    + unfold Reentrant.onclose_end, scheduleReconnect.
      destruct (isIntentionallyClosed c); [lia|].
      destruct (cfg_maxReconnectAttempts (config c) <=? reconnectAttemptsMade c)%Z;
        simpl; destruct (reconnectTimer c); lia.
  - destruct stack; simpl in Hstep; [|discriminate].
    destruct (sockets c !! i) as [[]|] eqn:Hi; try discriminate.
    injection Hstep as <-. unfold Reentrant.inFlight, liveSockets, pendingTimers. simpl.
    rewrite (liveCount_insert_live _ _ OPEN) by done. lia.
  - injection Hstep as <-. unfold Reentrant.inFlight. simpl. done.
Qed.

Lemma inFlight_run (evs : list Reentrant.Event) (m m' : Reentrant.t) :
  Reentrant.disciplined evs m = true -> Reentrant.run evs m = Some m' ->
  Reentrant.inFlight m <= 1 -> Reentrant.inFlight m' <= 1.
Proof.
  revert m. induction evs as [|ev evs IH]; intros m Hd Hrun Hm; simpl in *.
  - by injection Hrun as <-.
  - apply andb_prop in Hd as [Hev Hd].
    destruct (Reentrant.step ev m) as [m1|] eqn:Hs; [|discriminate].
    apply (IH m1); auto.
    destruct (Reentrant.isConnect ev) eqn:Hcall.
    + simpl in Hev. apply Nat.eqb_eq in Hev.
      destruct ev as [[throws| | | | | |]| | |]; try discriminate.
      simpl in Hs. injection Hs as <-.
      etrans; [apply inFlight_connect|]. unfold Reentrant.inFlight in Hev. lia.
    + pose proof (inFlight_step _ _ _ Hcall Hs). lia.
Qed.

(** While nothing is in flight and nobody calls [connect()], only
    [disconnect()], store writes and the end of an [onopen] can happen. *)
Lemma nothing_in_flight_step (ev : Reentrant.Event) (m m' : Reentrant.t) :
  Reentrant.isConnect ev = false -> Reentrant.step ev m = Some m' ->
  Reentrant.inFlight m = 0 ->
  terminalEvents (Reentrant.client m') = terminalEvents (Reentrant.client m) /\
  autoConnects (Reentrant.client m') = autoConnects (Reentrant.client m) /\
  sockets (Reentrant.client m') = sockets (Reentrant.client m).
Proof.
  intros Hev Hstep Hq. destruct m as [c stack].
  unfold Reentrant.inFlight, liveSockets, pendingTimers in Hq. simpl in Hq.
  assert (Hdead : forall i r, sockets c !! i = Some r -> isLive r = false).
  { intros i r Hi. destruct (isLive r) eqn:Hr; [|done].
    pose proof (liveCount_lookup _ _ _ Hi Hr). lia. }
  destruct ev as [[throws| |i|i e raw|i|i code|throws]| |i|st];
    simpl in Hstep; try discriminate.
  - injection Hstep as <-. unfold disconnect, terminalEvents. simpl.
    repeat split.
    destruct (ws c) as [i|]; [|done].
    destruct (sockets c !! i) as [[]|] eqn:Hi; try done.
    by specialize (Hdead _ _ Hi).
  - destruct stack; simpl in Hstep; [|discriminate].
    destruct (sockets c !! i) as [[]|] eqn:Hi; try discriminate.
    by specialize (Hdead _ _ Hi).
  - destruct stack; simpl in Hstep; [|discriminate].
    destruct (sockets c !! i) as [[]|] eqn:Hi; try discriminate.
    by specialize (Hdead _ _ Hi).
  - destruct stack; simpl in Hstep; [|discriminate].
    destruct (sockets c !! i) as [[]|] eqn:Hi; try discriminate;
      by specialize (Hdead _ _ Hi).
  - destruct stack; simpl in Hstep; [|discriminate].
    destruct (sockets c !! i) as [[]|] eqn:Hi; try discriminate;
      by specialize (Hdead _ _ Hi).
  - destruct stack; simpl in Hstep; [|discriminate].
    destruct (reconnectTimer c); try discriminate. simpl in Hq. lia.
  - unfold Reentrant.resume in Hstep. simpl in Hstep.
    destruct stack as [|[throws| |code|] stack]; try discriminate; simpl in Hq; try lia.
    injection Hstep as <-. unfold terminalEvents. simpl.
    rewrite terminalCount_snoc. simpl. repeat split. lia.
  - destruct stack; simpl in Hstep; [|discriminate].
    destruct (sockets c !! i) as [[]|] eqn:Hi; try discriminate.
    by specialize (Hdead _ _ Hi).
  - injection Hstep as <-. done.
Qed.

Lemma nothing_in_flight_run (evs : list Reentrant.Event) (m m' : Reentrant.t) :
  Reentrant.noConnect evs = true -> Reentrant.run evs m = Some m' ->
  Reentrant.inFlight m = 0 ->
  terminalEvents (Reentrant.client m') = terminalEvents (Reentrant.client m) /\
  autoConnects (Reentrant.client m') = autoConnects (Reentrant.client m) /\
  sockets (Reentrant.client m') = sockets (Reentrant.client m) /\
  Reentrant.inFlight m' = 0.
Proof.
  revert m. induction evs as [|ev evs IH]; intros m Hno Hrun Hq; simpl in *.
  - by injection Hrun as <-.
  - apply andb_prop in Hno as [Hev Hno]. apply negb_true_iff in Hev.
    destruct (Reentrant.step ev m) as [m1|] eqn:Hs; [|discriminate].
    destruct (nothing_in_flight_step _ _ _ Hev Hs Hq) as (Ht & Ha & Hso).
    pose proof (inFlight_step _ _ _ Hev Hs) as Hle.
    assert (Hq1 : Reentrant.inFlight m1 = 0) by lia.
    destruct (IH m1 Hno Hrun Hq1) as (Ht' & Ha' & Hso' & Hq').
    repeat split; congruence.
Qed.

(** When the listeners of [disconnected] return and the attempts are used
    up, the close callback emits the terminal event, once, and leaves
    nothing in flight. *)
Lemma giving_up_after_listeners (m0 m1 : Reentrant.t) (stack : list Reentrant.Rest) :
  Reentrant.inFlight m0 <= 1 ->
  Reentrant.suspended m0 = Reentrant.onclose_reconnect :: stack ->
  isIntentionallyClosed (Reentrant.client m0) = false ->
  (cfg_maxReconnectAttempts (config (Reentrant.client m0)) <=
   reconnectAttemptsMade (Reentrant.client m0))%Z ->
  Reentrant.step Reentrant.ListenersReturn m0 = Some m1 ->
  terminalEvents (Reentrant.client m1) = S (terminalEvents (Reentrant.client m0)) /\
  autoConnects (Reentrant.client m1) = autoConnects (Reentrant.client m0) /\
  sockets (Reentrant.client m1) = sockets (Reentrant.client m0) /\
  Reentrant.inFlight m1 = 0.
Proof.
  destruct m0 as [c stack0]. simpl. intros H0 -> Hint Hmax Hstep.
  unfold Reentrant.resume in Hstep. simpl in Hstep. injection Hstep as <-.
  unfold Reentrant.inFlight, liveSockets, pendingTimers, terminalEvents in *. simpl in *.
  unfold Reentrant.onclose_end, scheduleReconnect. rewrite Hint.
  apply Z.leb_le in Hmax. rewrite Hmax. simpl.
  rewrite terminalCount_snoc. simpl. repeat split; lia.
Qed.

(** When no listener calls anything, the callbacks of the re-entrant model
    do what the callbacks of the first model do in one step. *)
Lemma silent_listeners (ev : WebSocketClient.Event) (c c' : WebSocketClient.t) :
  WebSocketClient.step ev c = Some c' ->
  exists returns, returns <= 2 /\
    Reentrant.run (Reentrant.silently ev returns) (Reentrant.mk c []) =
    Some (Reentrant.mk c' []).
Proof.
  intros Hstep. unfold Reentrant.silently.
  destruct ev as [throws| |i|i e raw|i|i code|throws]; simpl in Hstep.
  - injection Hstep as <-. unfold Reentrant.run, Reentrant.step, Reentrant.start_connect.
    simpl. destruct (Reentrant.announces StateManager.connecting c).
    + exists 1. split; [lia|]. reflexivity.
    + exists 0. split; [lia|]. reflexivity.
  - injection Hstep as <-. exists 0. split; [lia|]. reflexivity.
  - destruct (sockets c !! i) as [[]|] eqn:Hi; try discriminate.
    injection Hstep as <-. simpl. rewrite Hi.
    destruct (Reentrant.announces StateManager.connected (setSocket i OPEN c)).
    + exists 1. split; [lia|]. reflexivity.
    + exists 0. split; [lia|]. reflexivity.
  - destruct (sockets c !! i) as [[]|] eqn:Hi; try discriminate.
    injection Hstep as <-. exists 0. split; [lia|]. simpl. by rewrite Hi.
  - exists 0. split; [lia|]. simpl.
    destruct (sockets c !! i) as [[]|] eqn:Hi; try discriminate;
      injection Hstep as <-; reflexivity.
  - assert (Hc' : c' = onclose code (setSocket i CLOSED c)).
    { destruct (sockets c !! i) as [[]|]; try discriminate; by injection Hstep as <-. }
    subst c'.
    assert (Hgo : Reentrant.step (Reentrant.Begin (SocketClose i code))
                              (Reentrant.mk c []) =
              Some (let c1 := setSocket i CLOSED c in
                    if Reentrant.announces StateManager.disconnected c1
                    then Reentrant.mk (Reentrant.onclose_begin c1) [Reentrant.onclose_rest code]
                    else Reentrant.mk (Reentrant.onclose_mid code (Reentrant.onclose_begin c1))
                                      [Reentrant.onclose_reconnect])).
    { simpl. destruct (sockets c !! i) as [[]|]; try discriminate; reflexivity. }
    cbv zeta in Hgo.
    destruct (Reentrant.announces StateManager.disconnected (setSocket i CLOSED c)) eqn:Ha.
    + exists 2. split; [lia|]. unfold Reentrant.run. rewrite Hgo. reflexivity.
    + exists 1. split; [lia|]. unfold Reentrant.run. rewrite Hgo. reflexivity.
  - destruct (reconnectTimer c) eqn:Ht; try discriminate.
    injection Hstep as <-.
    assert (Hgo : Reentrant.step (Reentrant.Begin (ReconnectTimerFires throws))
                    (Reentrant.mk c []) =
                  Some (if isIntentionallyClosed c
                        then Reentrant.mk (Reentrant.timer_begin c) []
                        else Reentrant.start_connect throws
                               (Reentrant.countAuto (Reentrant.timer_begin c)) [])).
    { simpl. by rewrite Ht. }
    assert (Hcb : reconnectCallback throws c =
                  if isIntentionallyClosed c then Reentrant.timer_begin c
                  else connect throws (Reentrant.countAuto (Reentrant.timer_begin c)))
      by reflexivity.
    rewrite Hcb. clear Hcb.
    destruct (isIntentionallyClosed c).
    + exists 0. split; [lia|]. cbn [Reentrant.run repeat]. rewrite Hgo. reflexivity.
    + unfold Reentrant.start_connect in Hgo.
      destruct (Reentrant.announces StateManager.connecting _).
      * exists 1. split; [lia|]. cbn [Reentrant.run repeat]. rewrite Hgo. reflexivity.
      * exists 0. split; [lia|]. cbn [Reentrant.run repeat]. rewrite Hgo. reflexivity.
Qed.

End ReentrantFacts.

(** A [connect()] made by a listener of [disconnected] finds no socket and
    no timer in flight, and still leads to two terminal events: the close
    callback that called the listener goes on to schedule its own
    reconnect. *)
Example listener_connect_emits_twice :
  let start := Reentrant.init (Scenario.at_ 1000 "lx10") Scenario.maxOne in
  exists m4 m,
    Reentrant.run (take 4 Reentrant.listenerReconnects) start = Some m4 /\
    Reentrant.suspended m4 = [Reentrant.onclose_reconnect] /\
    liveSockets (Reentrant.client m4) = 0 /\ pendingTimers (Reentrant.client m4) = 0 /\
    Reentrant.listenerReconnects !! 4 = Some (Reentrant.Begin (CallConnect false)) /\
    Reentrant.noConnect (drop 5 Reentrant.listenerReconnects) = true /\
    Reentrant.run Reentrant.listenerReconnects start = Some m /\
    terminalEvents (Reentrant.client m) = 2.
Proof.
  intros start.
  exists (Reentrant.orElse (Reentrant.run (take 4 Reentrant.listenerReconnects) start)),
         (Reentrant.orElse (Reentrant.run Reentrant.listenerReconnects start)).
  vm_compute. repeat split; reflexivity.
Qed.

(** C7 (amended).  Take any execution of a client, made of [connect()] and
    [disconnect()] calls from anywhere (listeners included), socket and
    timer callbacks, and writes to the shared store, in which [connect()]
    is called only while nothing is in flight: no socket awaits its [close]
    event, no reconnect timer is pending, and no [connect()] or close
    callback of the client is suspended in its listeners.  When the
    listeners of [disconnected] return to a close callback that was not
    intended and finds the reconnect attempts used up, the callback emits
    exactly one [maxReconnectAttemptsReached], and whatever follows without
    a new [connect()] neither emits it again nor calls [connect()]: no socket
    is created and nothing is in flight. *)
Theorem C7_one_terminal_event_then_no_auto_connect
        (e : Env) (cfg : WebSocketConfig)
        (before after : list Reentrant.Event) (stack : list Reentrant.Rest)
        (m0 m1 m2 : Reentrant.t) :
  Reentrant.disciplined before (Reentrant.init e cfg) = true ->
  Reentrant.run before (Reentrant.init e cfg) = Some m0 ->
  Reentrant.suspended m0 = Reentrant.onclose_reconnect :: stack ->
  isIntentionallyClosed (Reentrant.client m0) = false ->
  (cfg_maxReconnectAttempts (config (Reentrant.client m0)) <=
   reconnectAttemptsMade (Reentrant.client m0))%Z ->
  Reentrant.step Reentrant.ListenersReturn m0 = Some m1 ->
  Reentrant.noConnect after = true ->
  Reentrant.run after m1 = Some m2 ->
  terminalEvents (Reentrant.client m1) = S (terminalEvents (Reentrant.client m0)) /\
  terminalEvents (Reentrant.client m2) = terminalEvents (Reentrant.client m1) /\
  autoConnects (Reentrant.client m1) = autoConnects (Reentrant.client m0) /\
  autoConnects (Reentrant.client m2) = autoConnects (Reentrant.client m1) /\
  sockets (Reentrant.client m2) = sockets (Reentrant.client m0) /\
  liveSockets (Reentrant.client m2) = 0 /\ pendingTimers (Reentrant.client m2) = 0 /\
  Reentrant.inFlight m2 = 0.
Proof.
  intros Hd Hrun Hsusp Hint Hmax Hstep Ha Hafter.
  assert (Hinit : Reentrant.inFlight (Reentrant.init e cfg) <= 1).
  { unfold Reentrant.inFlight, liveSockets, pendingTimers. simpl. unfold liveCount. simpl. lia. }
  pose proof (inFlight_run _ _ _ Hd Hrun Hinit) as H0.
  destruct (giving_up_after_listeners _ _ _ H0 Hsusp Hint Hmax Hstep) as (Ht1 & Ha1 & Hs1 & Hq).
  destruct (nothing_in_flight_run _ _ _ Ha Hafter Hq) as (Ht2 & Ha2 & Hs2 & Hq2).
  repeat split; try congruence.
  - unfold Reentrant.inFlight in Hq2. lia.
  - unfold Reentrant.inFlight in Hq2. lia.
Qed.

Lemma C7_one_terminal_event_then_no_auto_connect_witness :
  let start := Reentrant.init (Scenario.at_ 1000 "lx10") Scenario.maxThree in
  let m0 := Reentrant.orElse (Reentrant.run Reentrant.failingFourTimes start) in
  let m1 := Reentrant.orElse (Reentrant.step Reentrant.ListenersReturn m0) in
  let after := [Reentrant.Begin CallDisconnect; Reentrant.StoreWritten (stateManager (Reentrant.client m0))] in
  let m2 := Reentrant.orElse (Reentrant.run after m1) in
  (Reentrant.disciplined Reentrant.failingFourTimes start = true /\
   Reentrant.run Reentrant.failingFourTimes start = Some m0 /\
   Reentrant.suspended m0 = [Reentrant.onclose_reconnect] /\
   isIntentionallyClosed (Reentrant.client m0) = false /\
   (cfg_maxReconnectAttempts (config (Reentrant.client m0)) <=
    reconnectAttemptsMade (Reentrant.client m0))%Z /\
   Reentrant.step Reentrant.ListenersReturn m0 = Some m1 /\
   Reentrant.noConnect after = true /\
   Reentrant.run after m1 = Some m2) /\
  terminalEvents (Reentrant.client m1) = 1 /\
  terminalEvents (Reentrant.client m2) = terminalEvents (Reentrant.client m1) /\
  autoConnects (Reentrant.client m2) = autoConnects (Reentrant.client m1).
Proof.
  intros start m0 m1 after m2.
  assert (H1 : Reentrant.disciplined Reentrant.failingFourTimes start = true)
    by (vm_compute; reflexivity).
  assert (H2 : Reentrant.run Reentrant.failingFourTimes start = Some m0)
    by (vm_compute; reflexivity).
  assert (H3 : Reentrant.suspended m0 = [Reentrant.onclose_reconnect])
    by (vm_compute; reflexivity).
  assert (H4 : isIntentionallyClosed (Reentrant.client m0) = false)
    by (vm_compute; reflexivity).
  assert (H5 : (cfg_maxReconnectAttempts (config (Reentrant.client m0)) <=
                reconnectAttemptsMade (Reentrant.client m0))%Z)
    by (vm_compute; discriminate).
  assert (H6 : Reentrant.step Reentrant.ListenersReturn m0 = Some m1)
    by (vm_compute; reflexivity).
  assert (H7 : Reentrant.noConnect after = true) by reflexivity.
  assert (H8 : Reentrant.run after m1 = Some m2) by (vm_compute; reflexivity).
  pose proof (C7_one_terminal_event_then_no_auto_connect
                (Scenario.at_ 1000 "lx10") Scenario.maxThree
                Reentrant.failingFourTimes after [] m0 m1 m2
                H1 H2 H3 H4 H5 H6 H7 H8) as (Ht1 & Ht2 & _ & Ha2 & _).
  assert (H0 : terminalEvents (Reentrant.client m0) = 0) by (vm_compute; reflexivity).
  exact (conj (conj H1 (conj H2 (conj H3 (conj H4 (conj H5 (conj H6 (conj H7 H8)))))))
              (conj (eq_trans Ht1 (f_equal S H0)) (conj Ht2 Ha2))).
Defined.

(** The scenario of the reconnect bound in numbers: with a maximum of three,
    the fourth failed socket produces the only terminal event, after exactly
    three automatic [connect()] calls.  An explicit [connect()] afterwards
    starts over, but the attempt counter is reset only by a successful open:
    if that attempt fails as well, the client gives up again at once. *)
Example three_reconnects_then_give_up :
  reconnectAttemptsMade Scenario.exhausted = 3%Z /\
  autoConnects Scenario.givenUp = 3 /\
  terminalEvents Scenario.exhausted = 0 /\
  terminalEvents Scenario.givenUp = 1 /\
  sockets Scenario.givenUp = [CLOSED; CLOSED; CLOSED; CLOSED] /\
  reconnectTimer Scenario.givenUp = NoTimer /\
  terminalEvents Scenario.retriedByHand = 2 /\
  autoConnects Scenario.retriedByHand = 3.
Proof. vm_compute. repeat split; reflexivity. Qed.

(** ** De-duplication of citations *)

Section KeepFirst.
(** The loop of [deduplicateCitations], for any test of a candidate
    against the citations kept so far. *)
Context {A : Type} (dup : list A -> A -> bool).

Lemma keep_stable (l kept : list A) :
  fold_left (fun kept x => if dup kept x then kept else kept ++ [x]) kept [] = kept ->
  fold_left (fun kept x => if dup kept x then kept else kept ++ [x])
            (fold_left (fun kept x => if dup kept x then kept else kept ++ [x]) l kept) [] =
  fold_left (fun kept x => if dup kept x then kept else kept ++ [x]) l kept.
Proof.
  set (keepStep := fun kept x => if dup kept x then kept else kept ++ [x]).
  revert kept. induction l as [|x l IH]; intros kept Hk; simpl; [done|].
  apply IH. unfold keepStep at 2 3.
  destruct (dup kept x) eqn:Hd; [done|].
  rewrite fold_left_app, Hk. simpl. unfold keepStep. by rewrite Hd.
Qed.

Lemma keep_sublist (l kept : list A) :
  exists r,
    fold_left (fun kept x => if dup kept x then kept else kept ++ [x]) l kept = kept ++ r /\
    r `sublist_of` l.
Proof.
  set (keepStep := fun kept x => if dup kept x then kept else kept ++ [x]).
  revert kept. induction l as [|x l IH]; intros kept; simpl.
  - exists []. by rewrite app_nil_r.
  - destruct (IH (keepStep kept x)) as (r & Hr & Hsub). rewrite Hr.
    unfold keepStep. destruct (dup kept x).
    + exists r. split; [done|]. by apply sublist_cons.
    + exists (x :: r). rewrite <- app_assoc. split; [done|]. by apply sublist_skip.
Qed.

End KeepFirst.

Section Similarity.
Import CitationHandler.

Lemma splitFrom_nonempty (s cur : string) (inSpace : bool) :
  1 <= length (splitFrom s cur inSpace).
Proof.
  revert cur inSpace. induction s as [|a s IH]; intros cur inSpace; simpl; [lia|].
  destruct (isSpace a); [destruct inSpace|]; simpl; auto; lia.
Qed.

Lemma new_Set_grows (xs acc : list string) :
  length acc <=
  length (fold_left (fun acc w => if Set_has w acc then acc else acc ++ [w]) xs acc).
Proof.
  revert acc. induction xs as [|x xs IH]; intros acc; simpl; [lia|].
  etrans; [|apply IH]. destruct (Set_has x acc); rewrite ?length_app; simpl; lia.
Qed.

Lemma new_Set_nonempty (xs : list string) :
  1 <= length xs -> 1 <= length (new_Set xs).
Proof.
  destruct xs as [|x xs]; simpl; [lia|]. intros _.
  unfold new_Set. simpl. etrans; [|apply new_Set_grows]. simpl. lia.
Qed.

(** The union of the two word sets is never empty, so the ratio of
    [calculateContentSimilarity] never divides by zero. *)
Lemma similarity_union_nonempty (text1 text2 : string) :
  1 <= length (new_Set (new_Set (split (toLowerCase text1)) ++
                        new_Set (split (toLowerCase text2)))).
Proof.
  apply new_Set_nonempty. rewrite length_app.
  pose proof (new_Set_nonempty (split (toLowerCase text1))
                               (splitFrom_nonempty _ _ _)). lia.
Qed.

End Similarity.

(** C9.  De-duplication is idempotent for every citation array and every
    similarity threshold (also the default one), and the surviving citations
    are a subsequence of the input: they keep their original order. *)
Theorem C9_deduplicate_idempotent_and_ordered
        (citations : list Citation) (similarityThreshold : option Q) :
  CitationHandler.deduplicateCitations
    (CitationHandler.deduplicateCitations citations similarityThreshold)
    similarityThreshold =
  CitationHandler.deduplicateCitations citations similarityThreshold /\
  CitationHandler.deduplicateCitations citations similarityThreshold
    `sublist_of` citations.
Proof.
  unfold CitationHandler.deduplicateCitations.
  set (threshold := match similarityThreshold with Some q => q | None => _ end).
  split.
  - apply (keep_stable (CitationHandler.isDuplicate threshold)). reflexivity.
  - destruct (keep_sublist (CitationHandler.isDuplicate threshold) citations [])
      as (r & Hr & Hsub).
    rewrite Hr. exact Hsub.
Qed.

(** ** Grouping of citations *)

Section SetFacts.
Import CitationHandler.

Lemma Set_has_true (w : string) (l : list string) : Set_has w l = true <-> w ∈ l.
Proof.
  unfold Set_has. rewrite existsb_exists. split.
  - intros (x & Hx & Heq). apply String.eqb_eq in Heq as ->. by apply list_elem_of_In.
  - intros Hw. exists w. split; [by apply list_elem_of_In|apply String.eqb_refl].
Qed.

Lemma Set_has_false (w : string) (l : list string) : Set_has w l = false <-> w ∉ l.
Proof.
  rewrite <- Set_has_true. destruct (Set_has w l); split; try done; try congruence.
Qed.

Lemma new_Set_snoc (xs : list string) (w : string) :
  new_Set (xs ++ [w]) =
  if Set_has w (new_Set xs) then new_Set xs else new_Set xs ++ [w].
Proof. unfold new_Set. by rewrite fold_left_app. Qed.

Lemma elem_of_new_Set (k : string) (xs : list string) : k ∈ new_Set xs <-> k ∈ xs.
Proof.
  induction xs as [|w xs IH] using rev_ind; [done|].
  rewrite new_Set_snoc, elem_of_app, list_elem_of_singleton.
  destruct (Set_has w (new_Set xs)) eqn:Hw.
  - apply Set_has_true in Hw. rewrite IH. split; [tauto|].
    intros [?| ->]; [done|]. by apply IH.
  - by rewrite elem_of_app, list_elem_of_singleton, IH.
Qed.

Lemma NoDup_new_Set (xs : list string) : NoDup (new_Set xs).
Proof.
  induction xs as [|w xs IH] using rev_ind; [constructor|].
  rewrite new_Set_snoc. destruct (Set_has w (new_Set xs)) eqn:Hw; [done|].
  apply Set_has_false in Hw. apply NoDup_app. split; [done|]. split.
  - intros x Hx Hxw. apply list_elem_of_singleton in Hxw as ->. done.
  - apply NoDup_singleton.
Qed.

End SetFacts.

Section MapFacts.
Import CitationHandler.
Context {V : Type}.

Lemma Map_has_keyed (k : string) (f : string -> V) (ks : list string) :
  Map_has k (map (fun k' => (k', f k')) ks) = Set_has k ks.
Proof.
  unfold Map_has, Set_has. induction ks as [|a ks IH]; simpl; [done|].
  rewrite IH. f_equal. apply String.eqb_sym.
Qed.

Lemma Map_get_keyed (k : string) (f : string -> V) (ks : list string) :
  k ∈ ks -> Map_get k (map (fun k' => (k', f k')) ks) = Some (f k).
Proof.
  induction ks as [|a ks IH]; simpl; intros Hk.
  - inversion Hk.
  - destruct (String.eqb_spec a k) as [->|Hne]; [done|].
    apply IH. apply elem_of_cons in Hk as [->|?]; done.
Qed.

Lemma Map_set_keyed (k : string) (v : V) (f : string -> V) (ks : list string) :
  NoDup ks -> k ∈ ks ->
  Map_set k v (map (fun k' => (k', f k')) ks) =
  map (fun k' => (k', if String.eqb k' k then v else f k')) ks.
Proof.
  induction ks as [|a ks IH]; simpl; intros Hnd Hk.
  - inversion Hk.
  - apply NoDup_cons in Hnd as [Ha Hnd].
    destruct (String.eqb_spec a k) as [->|Hne].
    + f_equal. apply map_ext_in. intros k' Hk'.
      destruct (String.eqb_spec k' k) as [->|]; [|done].
      exfalso. apply Ha. by apply list_elem_of_In.
    + f_equal. apply IH; [done|]. apply elem_of_cons in Hk as [->|?]; done.
Qed.

Lemma Map_set_absent (k : string) (v : V) (m : list (string * V)) :
  Map_has k m = false -> Map_set k v m = m ++ [(k, v)].
Proof.
  unfold Map_has. induction m as [|[k' v'] m IH]; simpl; [done|].
  intros H. apply orb_false_elim in H as [H1 H2]. rewrite H1. f_equal. by apply IH.
Qed.

Lemma Map_get_snoc (k : string) (v : V) (m : list (string * V)) :
  Map_has k m = false -> Map_get k (m ++ [(k, v)]) = Some v.
Proof.
  unfold Map_has. induction m as [|[k' v'] m IH]; simpl.
  - by rewrite String.eqb_refl.
  - intros H. apply orb_false_elim in H as [H1 H2]. rewrite H1. by apply IH.
Qed.

Lemma Map_set_snoc (k : string) (v v' : V) (m : list (string * V)) :
  Map_has k m = false -> Map_set k v' (m ++ [(k, v)]) = m ++ [(k, v')].
Proof.
  unfold Map_has. induction m as [|[k' w] m IH]; simpl.
  - by rewrite String.eqb_refl.
  - intros H. apply orb_false_elim in H as [H1 H2]. rewrite H1. f_equal. by apply IH.
Qed.

End MapFacts.

Section GroupingFacts.
Import CitationHandler Spec.

Lemma membersOf_snoc (k : string) (cs : list Citation) (c : Citation) :
  membersOf k (cs ++ [c]) =
  membersOf k cs ++ (if String.eqb (source_file_id c) k then [c] else []).
Proof.
  unfold membersOf. rewrite List.filter_app. simpl.
  by destruct (String.eqb (source_file_id c) k).
Qed.

Lemma membersOf_unseen (k : string) (cs : list Citation) :
  k ∉ firstSeenSources cs -> membersOf k cs = [].
Proof.
  unfold firstSeenSources. rewrite elem_of_new_Set. unfold membersOf.
  induction cs as [|c cs IH]; simpl; [done|].
  intros Hk. apply not_elem_of_cons in Hk as [Hne Hk].
  destruct (String.eqb_spec (source_file_id c) k) as [Heq|_]; [by destruct Hne|].
  by apply IH.
Qed.

Lemma membersOf_seen (k : string) (cs : list Citation) :
  k ∈ firstSeenSources cs -> exists c r, membersOf k cs = c :: r.
Proof.
  unfold firstSeenSources. rewrite elem_of_new_Set. unfold membersOf.
  induction cs as [|c cs IH]; simpl; [inversion 1|].
  intros Hk. destruct (String.eqb_spec (source_file_id c) k) as [Heq|Hne]; [eauto|].
  apply IH. apply elem_of_cons in Hk as [->|?]; done.
Qed.

Lemma firstSeenSources_snoc (cs : list Citation) (c : Citation) :
  firstSeenSources (cs ++ [c]) =
  if Set_has (source_file_id c) (firstSeenSources cs) then firstSeenSources cs
  else firstSeenSources cs ++ [source_file_id c].
Proof. unfold firstSeenSources. rewrite map_app. simpl. apply new_Set_snoc. Qed.

(** The map built by the first [forEach]: one entry per source, in
    first-seen order, holding that source's citations in input order. *)
Lemma fold_addCitation (cs : list Citation) :
  fold_left addCitation cs [] =
  map (fun k => (k, rawGroup cs k)) (firstSeenSources cs).
Proof.
  induction cs as [|c cs IH] using rev_ind; [done|].
  rewrite fold_left_app. simpl. rewrite IH. unfold addCitation.
  rewrite Map_has_keyed, firstSeenSources_snoc.
  destruct (Set_has (source_file_id c) (firstSeenSources cs)) eqn:Hk.
  - apply Set_has_true in Hk.
    rewrite (Map_get_keyed _ _ _ Hk).
    rewrite (Map_set_keyed _ _ _ _ (NoDup_new_Set _) Hk).
    apply map_ext. intros k. f_equal.
    unfold rawGroup. rewrite membersOf_snoc. simpl.
    destruct (String.eqb_spec k (source_file_id c)) as [->|Hne].
    + rewrite String.eqb_refl.
      destruct (membersOf_seen _ _ Hk) as (c0 & r & ->). simpl.
      f_equal. rewrite length_app. simpl. lia.
    + destruct (String.eqb_spec (source_file_id c) k) as [Heq|_]; [by destruct Hne|].
      by rewrite app_nil_r.
  - apply Set_has_false in Hk.
    assert (Hm : Map_has (source_file_id c)
                   (map (fun k => (k, rawGroup cs k)) (firstSeenSources cs)) = false).
    { rewrite Map_has_keyed. by apply Set_has_false. }
    rewrite (Map_set_absent _ _ _ Hm), (Map_get_snoc _ _ _ Hm), (Map_set_snoc _ _ _ _ Hm).
    rewrite map_app. simpl. f_equal.
    + apply map_ext_in. intros k Hin. f_equal.
      unfold rawGroup. rewrite membersOf_snoc.
      destruct (String.eqb_spec (source_file_id c) k) as [Heq|_].
      * subst k. destruct Hk. by apply list_elem_of_In.
      * by rewrite app_nil_r.
    + unfold rawGroup. rewrite membersOf_snoc, (membersOf_unseen _ _ Hk).
      by rewrite String.eqb_refl.
Qed.

Lemma groupCitationsBySource_spec (cs : list Citation) :
  groupCitationsBySource cs = groupsByRelevance cs.
Proof.
  unfold groupCitationsBySource, groupsByRelevance, groupsMap.
  rewrite fold_addCitation, !map_map. reflexivity.
Qed.

End GroupingFacts.

Section SortFacts.
Import CitationHandler Spec.
Context {A : Type} (before : A -> A -> bool).
Hypothesis before_asym : forall x y, before x y = true -> before y x = false.
Hypothesis before_ntrans :
  forall x y z, before z y = false -> before y x = false -> before z x = false.

Lemma insert_perm (x : A) (l : list A) : insert before x l ≡ₚ x :: l.
Proof.
  induction l as [|y l IH]; simpl; [done|].
  destruct (before y x); [|done].
  rewrite IH. apply Permutation_swap.
Qed.

Lemma sort_perm (l : list A) : sort before l ≡ₚ l.
Proof.
  induction l as [|x l IH]; simpl; [done|].
  by rewrite insert_perm, IH.
Qed.

Lemma insert_ordered (x : A) (l : list A) :
  ordered before l -> ordered before (insert before x l).
Proof.
  unfold ordered. induction l as [|y l IH]; simpl; intros Hl.
  - repeat constructor.
  - apply StronglySorted_inv in Hl as [Hl Hy].
    destruct (before y x) eqn:Hyx.
    + constructor; [by apply IH|].
      rewrite insert_perm. constructor; [by apply before_asym|done].
    + constructor; [by constructor|].
      constructor; [done|].
      eapply Forall_impl; [exact Hy|]. simpl. intros z Hz.
      by apply (before_ntrans x y z).
Qed.

Lemma sort_ordered (l : list A) : ordered before (sort before l).
Proof.
  induction l as [|x l IH]; simpl; [constructor|]. by apply insert_ordered.
Qed.

End SortFacts.

(** The sort is stable: elements that the comparator does not separate
    keep their relative order. *)
Lemma sort_stable {A} (before : A -> A -> bool) (p : A -> bool) (l : list A) :
  (forall x y, p x = true -> p y = true -> before x y = false) ->
  List.filter p (CitationHandler.sort before l) = List.filter p l.
Proof.
  intros Htie.
  assert (Hins : forall x l', List.filter p (CitationHandler.insert before x l') =
                              List.filter p (x :: l')).
  { intros x l'. induction l' as [|y l' IH]; [done|]. simpl.
    destruct (before y x) eqn:Hyx; [|done].
    simpl. simpl in IH. rewrite IH.
    destruct (p x) eqn:Hpx, (p y) eqn:Hpy; try done.
    by rewrite (Htie y x Hpy Hpx) in Hyx. }
  induction l as [|x l IH]; [done|]. simpl.
  rewrite Hins. simpl. by rewrite IH.
Qed.

Section ScoreOrder.
Import CitationHandler Spec.

Lemma Qgtb_false (a b : Q) : Qgtb a b = false <-> (a <= b)%Q.
Proof.
  unfold Qgtb. rewrite negb_false_iff. apply Qle_bool_iff.
Qed.

Lemma Qgtb_true (a b : Q) : Qgtb a b = true <-> (b < a)%Q.
Proof.
  unfold Qgtb. rewrite negb_true_iff. rewrite <- not_true_iff_false, Qle_bool_iff.
  split; [apply Qnot_le_lt|apply Qlt_not_le].
Qed.

Lemma citationBefore_asym (x y : Citation) :
  citationBefore x y = true -> citationBefore y x = false.
Proof.
  unfold citationBefore. rewrite Qgtb_true, Qgtb_false. apply Qlt_le_weak.
Qed.

Lemma citationBefore_ntrans (x y z : Citation) :
  citationBefore z y = false -> citationBefore y x = false -> citationBefore z x = false.
Proof.
  unfold citationBefore. rewrite !Qgtb_false. apply Qle_trans.
Qed.

Lemma extGtb_asym (a b : option Q) : extGtb a b = true -> extGtb b a = false.
Proof.
  destruct a as [x|], b as [y|]; simpl; try done.
  rewrite Qgtb_true, Qgtb_false. apply Qlt_le_weak.
Qed.

Lemma extGtb_ntrans (a b c : option Q) :
  extGtb c b = false -> extGtb b a = false -> extGtb c a = false.
Proof.
  destruct a as [x|], b as [y|], c as [z|]; simpl; try done.
  rewrite !Qgtb_false. apply Qle_trans.
Qed.

Lemma ordered_descendingScores (cs : list Citation) :
  ordered citationBefore cs -> descendingScores cs.
Proof.
  unfold ordered, descendingScores. induction 1 as [|c cs Hs IH Hc]; constructor; [done|].
  eapply Forall_impl; [exact Hc|]. intros b. unfold citationBefore. by rewrite Qgtb_false.
Qed.

End ScoreOrder.

(** C8 (the sentence as written fails).  When the source seen second holds
    the better-scored citation its group comes first: the groups are not in
    first-seen order. *)
Lemma C8_groups_not_in_first_seen_order :
  ~ (forall cs : list Citation,
        map grp_source_file_id (CitationHandler.groupCitationsBySource cs) =
        Spec.firstSeenSources cs).
Proof.
  intros H. specialize (H [Scenario.weakFirst; Scenario.strongSecond]).
  vm_compute in H. discriminate H.
Qed.

(** C8 (amended).  Grouping by [source_file_id] yields one group per source;
    the groups are ordered by descending best relevance score (an empty
    score counting as 0, groups with equal best score in first-seen source
    order), and the citations inside each group are that source's citations
    sorted descending by relevance score (absent counting as 0). *)
Theorem C8_groups_sorted_by_best_score (cs : list Citation) :
  CitationHandler.groupCitationsBySource cs = Spec.groupsByRelevance cs /\
  Spec.ordered CitationHandler.groupBefore (CitationHandler.groupCitationsBySource cs) /\
  map grp_source_file_id (CitationHandler.groupCitationsBySource cs)
    ≡ₚ Spec.firstSeenSources cs /\
  (forall g, g ∈ CitationHandler.groupCitationsBySource cs ->
             Spec.descendingScores (grp_citations g) /\
             grp_citations g ≡ₚ Spec.membersOf (grp_source_file_id g) cs) /\
  (forall best : option Q,
      List.filter (Spec.hasBest best) (CitationHandler.groupCitationsBySource cs) =
      List.filter (Spec.hasBest best)
                  (map (Spec.groupOfSource cs) (Spec.firstSeenSources cs))).
Proof.
  rewrite groupCitationsBySource_spec. unfold Spec.groupsByRelevance.
  split; [done|]. split; [|split; [|split]]; cycle 3.
  { intros best. apply sort_stable. intros x y.
    unfold Spec.hasBest, CitationHandler.groupBefore.
    destruct best as [q|], (CitationHandler.maxRelevance x) as [a|],
             (CitationHandler.maxRelevance y) as [b|]; simpl; try done.
    intros Ha Hb. apply Qeq_bool_iff in Ha, Hb. apply Qgtb_false.
    rewrite <- Ha, <- Hb. apply Qle_refl. }
  - apply sort_ordered.
    + intros x y. apply extGtb_asym.
    + intros x y z. apply extGtb_ntrans.
  - rewrite sort_perm, map_map. simpl. by rewrite map_id.
  - intros g Hg. rewrite sort_perm in Hg.
    apply list_elem_of_In, in_map_iff in Hg as (k & <- & _). simpl. split.
    + apply ordered_descendingScores, sort_ordered.
      * apply citationBefore_asym.
      * apply citationBefore_ntrans.
    + apply sort_perm.
Qed.

(** ** What the getters hand out *)

Section LiveFacts.
Import LiveStore.



(** For contrast: pushing onto a copy of the array leaves the store alone. *)
Lemma contents_push_on_copy (h : t) (s : Session) (rs : list ref) (o : ref) :
  currentSession h = Some s -> arrays h !! s_messages s = Some rs ->
  contents (Array_push (fst (Array_copy (s_messages s) h)) o
                       (snd (Array_copy (s_messages s) h))) = contents h.
Proof.
  intros Hs Ha. pose proof (lookup_lt_Some _ _ _ Ha) as Hlt.
  unfold contents, Array_push, Array_copy. simpl. rewrite Ha.
  rewrite lookup_app_r by lia. rewrite Nat.sub_diag. simpl. rewrite Hs.
  rewrite list_lookup_insert_ne by lia.
  rewrite lookup_app_l by lia. reflexivity.
Qed.

(** *** The two models of the store agree *)

Lemma omap_step {A B} (f : A -> option B) (x : A) (l : list A) :
  omap f (x :: l) = match f x with Some y => y :: omap f l | None => omap f l end.
Proof. reflexivity. Qed.

Lemma omap_lookup_grow (objs : list Message) (extra : list Message) (rs : list ref) :
  Forall (fun r => r < length objs) rs ->
  omap (fun r => (objs ++ extra) !! r) rs = omap (fun r => objs !! r) rs.
Proof.
  induction 1 as [|r rs Hr _ IH]; [done|]. rewrite !omap_step.
  rewrite lookup_app_l by done. by rewrite IH.
Qed.

Lemma findIndex_deref (objs : list Message) (p : Message -> bool) (rs : list ref) :
  Forall (fun r => r < length objs) rs ->
  StateManager.findIndex
    (fun r => match objs !! r with Some m => p m | None => false end) rs =
  StateManager.findIndex p (omap (fun r => objs !! r) rs).
Proof.
  induction 1 as [|r rs Hr _ IH]; [done|]. rewrite omap_step.
  destruct (lookup_lt_is_Some_2 _ _ Hr) as [m Hm].
  cbn [StateManager.findIndex]. rewrite Hm. by rewrite IH.
Qed.

Lemma omap_insert_new (objs : list Message) (x : Message) (rs : list ref) (i : nat) :
  Forall (fun r => r < length objs) rs ->
  omap (fun r => (objs ++ [x]) !! r) (<[i := length objs]> rs) =
  <[i := x]> (omap (fun r => objs !! r) rs).
Proof.
  intros Hrs. revert i. induction Hrs as [|r rs Hr Hrs IH]; intros [|i]; try done.
  - change (<[0 := length objs]> (r :: rs)) with (length objs :: rs).
    rewrite !omap_step, list_lookup_middle by done.
    destruct (lookup_lt_is_Some_2 _ _ Hr) as [m ->].
    by rewrite omap_lookup_grow.
  - change (<[S i := length objs]> (r :: rs)) with (r :: <[i := length objs]> rs).
    rewrite !omap_step, lookup_app_l by done.
    destruct (lookup_lt_is_Some_2 _ _ Hr) as [m ->].
    change (<[S i := x]> (m :: omap (fun r => objs !! r) rs))
      with (m :: <[i := x]> (omap (fun r => objs !! r) rs)).
    f_equal. apply IH.
Qed.

Lemma lookup_deref (objs : list Message) (rs : list ref) (i : nat) :
  Forall (fun r => r < length objs) rs ->
  omap (fun r => objs !! r) rs !! i = rs !! i ≫= (fun r => objs !! r).
Proof.
  intros Hrs. revert i. induction Hrs as [|r rs Hr Hrs IH]; intros i; [done|].
  rewrite omap_step. destruct (lookup_lt_is_Some_2 _ _ Hr) as [m Hm]. rewrite Hm.
  destruct i as [|i]; simpl; [by rewrite Hm|apply IH].
Qed.

Lemma wf_create (e : Env) : wf (create e).
Proof. unfold wf. simpl. exists []. split; [done|constructor]. Qed.

(** [addMessage] on the heap appends the same message as on the value-level
    store, and keeps the heap well formed. *)
Lemma snapshot_addMessage (e : Env) (m : NewMessage) (h : t)
      (cs : StateManager.ConnectionState) :
  wf h ->
  wf (snd (addMessage e m h)) /\
  snapshot (snd (addMessage e m h)) =
  StateManager.currentSession
    (snd (StateManager.addMessage e m (StateManager.mk (snapshot h) cs))).
Proof.
  unfold wf, snapshot, contents, addMessage, StateManager.addMessage.
  destruct (currentSession h) as [s|] eqn:Hs; simpl.
  - intros (rs & Ha & Hrs). rewrite Hs, Ha. simpl.
    pose proof (lookup_lt_Some _ _ _ Ha) as Hlt.
    rewrite list_lookup_insert_eq by done. split.
    + exists (rs ++ [length (objects h)]). split; [done|].
      rewrite length_app. simpl. apply Forall_app. split.
      * eapply Forall_impl; [exact Hrs|]. simpl. lia.
      * repeat constructor. lia.
    + rewrite omap_app, (omap_lookup_grow _ _ _ Hrs). simpl.
      by rewrite list_lookup_middle.
  - intros _. rewrite list_lookup_middle by done. simpl.
    rewrite list_lookup_insert_eq by (rewrite length_app; simpl; lia). split.
    + exists [length (objects h)]. split; [done|].
      repeat constructor. rewrite length_app. simpl. lia.
    + simpl. by rewrite list_lookup_middle.
Qed.

(** [updateMessage] on the heap stores a fresh object in the slot and
    agrees with the value-level store. *)
Lemma snapshot_updateMessage (messageId : string) (u : Updates) (h : t)
      (cs : StateManager.ConnectionState) :
  wf h ->
  wf (snd (updateMessage messageId u h)) /\
  snapshot (snd (updateMessage messageId u h)) =
  StateManager.currentSession
    (snd (StateManager.updateMessage messageId u (StateManager.mk (snapshot h) cs))).
Proof.
  intros Hwf. pose proof Hwf as Hwf0. revert Hwf.
  unfold wf at 1, snapshot, updateMessage, StateManager.updateMessage.
  destruct (currentSession h) as [s|] eqn:Hs; simpl; [|by rewrite Hs].
  intros (rs & Ha & Hrs). rewrite Ha. unfold contents at 2 3. rewrite Hs, Ha.
  unfold hasId. rewrite (findIndex_deref _ (fun m => String.eqb (msg_id m) messageId) _ Hrs).
  destruct (StateManager.findIndex _ (omap _ rs)) as [i|] eqn:Hi; simpl.
  2:{ split; [done|]. rewrite Hs. unfold contents. by rewrite Hs, Ha. }
  rewrite (lookup_deref _ _ _ Hrs).
  destruct (rs !! i ≫= (fun r => objects h !! r)) as [old|] eqn:Hold; simpl.
  2:{ split; [done|]. rewrite Hs. unfold contents. by rewrite Hs, Ha. }
  pose proof (lookup_lt_Some _ _ _ Ha) as Hlt.
  unfold wf, contents. simpl. rewrite Hs.
  rewrite list_lookup_insert_eq by done. split.
  - eexists. split; [reflexivity|].
    rewrite length_app. simpl.
    apply Forall_insert; [|lia].
    eapply Forall_impl; [exact Hrs|]. simpl. lia.
  - by rewrite Ha, (omap_insert_new _ _ _ _ Hrs).
Qed.

(** Dereferencing what [getMessages()] returns gives the value-level list. *)
Lemma getMessages_deref (h : t) (cs : StateManager.ConnectionState) :
  wf h ->
  (let '(a, h') := getMessages h in
   match arrays h' !! a with
   | Some rs => omap (fun r => objects h' !! r) rs
   | None => []
   end) = StateManager.getMessages (StateManager.mk (snapshot h) cs).
Proof.
  unfold wf, getMessages, snapshot, StateManager.getMessages, contents.
  destruct (currentSession h) as [s|] eqn:Hs; simpl.
  - intros (rs & Ha & _). by rewrite Ha.
  - intros _. by rewrite list_lookup_middle.
Qed.

End LiveFacts.




(** ** Export and import *)

Section ExportImport.
Context `{DateLib}.
Import SessionJson.

(** Every session whose id is not empty is exported to a document that
    [importSession] accepts, and the imported object carries the same id. *)
Lemma import_of_export_accepted (st : StateManager.t) (s : ChatSession) :
  StateManager.currentSession st = Some s -> session_id s <> "" ->
  exists imported,
    importSession (Some (exportSession st)) = (true, Some imported) /\
    get "id" imported = JsString (session_id s).
Proof.
  intros Hs Hid. unfold exportSession, exportValue. rewrite Hs. simpl.
  apply String.eqb_neq in Hid.
  destruct (title s); simpl; unfold importSession; simpl; rewrite Hid; simpl;
    eexists; (split; [reflexivity|reflexivity]).
Qed.

(** Through [JSON.stringify] and [JSON.parse] the [timestamp] of a message
    becomes its ISO string. *)
Lemma message_timestamp_after_json (m : Message) :
  exists doc,
    stringify (messageObject m) = Some doc /\
    get "timestamp" (parse doc) = JsString (toISOString (timestamp m)).
Proof.
  unfold messageObject.
  destruct (isStreaming m), (citations m), (metadata m) as [v|]; simpl;
    try destruct (stringify v); simpl; eexists; (split; [reflexivity|reflexivity]).
Qed.

(** A session without messages survives the round trip unchanged, provided
    the date library reads back the ISO strings it writes. *)
Lemma roundtrip_without_messages (st : StateManager.t) (s : ChatSession) :
  (forall t, Date_parse (toISOString t) = Some t) ->
  StateManager.currentSession st = Some s -> session_id s <> "" -> messages s = [] ->
  importSession (Some (exportSession st)) = (true, Some (sessionObject s)).
Proof.
  intros Hdate Hs Hid Hm. unfold exportSession, exportValue. rewrite Hs. simpl.
  apply String.eqb_neq in Hid. unfold sessionObject. rewrite Hm.
  destruct (title s); simpl; unfold importSession; simpl; rewrite Hid; simpl;
    by rewrite !Hdate.
Qed.

End ExportImport.

(** C5 (as the code behaves).  For the store holding one message,
    [importSession(exportSession())] returns [true] and restores the session
    id, but the imported message list differs from the exported one: the
    message's [timestamp] comes back as the ISO string that [JSON.stringify]
    wrote, not as a [Date] ([importSession] revives only [created_at] and
    [updated_at]). *)
Theorem C5_import_of_export_leaves_timestamps_as_strings `{DateLib} :
  exists imported,
    SessionJson.importSession (Some (SessionJson.exportSession Scenario.oneMessage)) =
      (true, Some imported) /\
    SessionJson.get "id" imported = JsString "session_lx10" /\
    option_map (fun s => SessionJson.get "messages" (SessionJson.sessionObject s))
               (StateManager.currentSession Scenario.oneMessage) =
      Some (JsArray [JsObject [ ("role", JsString "user");
                                ("content", JsString "hello");
                                ("status", JsString "sent");
                                ("id", JsString "msg_lx2a");
                                ("timestamp", JsDate (Some 2000%Z)) ]]) /\
    SessionJson.get "messages" imported =
      JsArray [JsObject [ ("role", JsString "user");
                          ("content", JsString "hello");
                          ("status", JsString "sent");
                          ("id", JsString "msg_lx2a");
                          ("timestamp", JsString (toISOString 2000%Z)) ]] /\
    Some (SessionJson.get "messages" imported) <>
    option_map (fun s => SessionJson.get "messages" (SessionJson.sessionObject s))
               (StateManager.currentSession Scenario.oneMessage).
Proof.
  eexists. split; [reflexivity|]. simpl.
  repeat split; try reflexivity. discriminate.
Qed.

(* ===================================================================== *)
(** * Part III: further properties of the code                           *)
(* ===================================================================== *)

(** ** Store queries *)

Section StoreQueryFacts.
Import StateManager StoreQueries.

Lemma findIndex_None {A} (p : A -> bool) (l : list A) :
  findIndex p l = None <-> forall x, x ∈ l -> p x = false.
Proof.
  induction l as [|a l IH]; simpl.
  - split; [intros _ x Hx; inversion Hx|done].
  - destruct (p a) eqn:Hp.
    + split; [discriminate|]. intros H. rewrite H in Hp by constructor. discriminate.
    + destruct (findIndex p l) as [i|]; simpl.
      * split; [discriminate|]. intros H.
        assert (Hn : Some i = None); [|discriminate].
        apply IH. intros x Hx. apply H. by constructor.
      * split; [|done]. intros _ x Hx. apply elem_of_cons in Hx as [->|Hx]; [done|].
        by apply IH.
Qed.

Lemma isFirstWithId_iff (pre post : list Citation) (x : Citation) :
  isFirstWithId (pre ++ x :: post) x (length pre) = true <->
  cit_id x ∉ map cit_id pre.
Proof.
  unfold isFirstWithId. split.
  - destruct (findIndex _ _) as [i|] eqn:Hi; [|discriminate].
    intros Heq. apply Nat.eqb_eq in Heq as ->.
    destruct (findIndex_Some _ _ _ Hi) as (_ & _ & _ & Hmin).
    intros Hin. apply list_elem_of_In, in_map_iff in Hin as (y & Hy & Hyin).
    apply list_elem_of_In, list_elem_of_lookup in Hyin as (j & Hj).
    pose proof (lookup_lt_Some _ _ _ Hj) as Hlt.
    specialize (Hmin j y Hlt). rewrite lookup_app_l in Hmin by done.
    specialize (Hmin Hj). unfold sameId in Hmin. rewrite Hy, String.eqb_refl in Hmin.
    discriminate.
  - intros Hnot. rewrite findIndex_first; [by rewrite Nat.eqb_refl| |].
    + intros y Hy. unfold sameId. apply String.eqb_neq. intros Heq.
      apply Hnot. rewrite <- Heq. apply list_elem_of_In, in_map, list_elem_of_In, Hy.
    + unfold sameId. apply String.eqb_refl.
Qed.

Lemma firstIds_from (l pre : list Citation) :
  let res := filterFrom (isFirstWithId (pre ++ l)) (length pre) l in
  res `sublist_of` l /\
  NoDup (map cit_id res) /\
  (forall c, c ∈ res -> cit_id c ∉ map cit_id pre) /\
  (forall c, c ∈ l -> cit_id c ∈ map cit_id pre \/ cit_id c ∈ map cit_id res) /\
  (forall l1 x l2, l = l1 ++ x :: l2 -> cit_id x ∉ map cit_id (pre ++ l1) -> x ∈ res).
Proof.
  revert pre. induction l as [|a r IH]; intros pre; simpl.
  - repeat split; try done.
    + constructor.
    + intros c Hc. inversion Hc.
    + intros c Hc. inversion Hc.
    + intros [|] ? ? ?; discriminate.
  - specialize (IH (pre ++ [a])).
    rewrite <- app_assoc, length_app in IH. simpl in IH.
    rewrite Nat.add_1_r in IH.
    destruct IH as (Hsub & Hnd & Hfresh & Hcov & Hfirst).
    set (res' := filterFrom (isFirstWithId (pre ++ a :: r)) (S (length pre)) r) in *.
    assert (Hids : forall y, y ∈ map cit_id (pre ++ [a]) <->
                             y ∈ map cit_id pre \/ y = cit_id a).
    { intros y. rewrite map_app, elem_of_app. simpl. by rewrite list_elem_of_singleton. }
    destruct (isFirstWithId (pre ++ a :: r) a (length pre)) eqn:Hfa.
    + apply isFirstWithId_iff in Hfa. repeat split.
      * by apply sublist_skip.
      * simpl. apply NoDup_cons. split; [|done].
        intros Hin. apply list_elem_of_In, in_map_iff in Hin as (y & Hy & Hyin).
        apply (Hfresh y); [by apply list_elem_of_In|].
        apply Hids. by right.
      * intros c Hc. apply elem_of_cons in Hc as [->|Hc]; [done|].
        intros Hin. apply (Hfresh c Hc). apply Hids. by left.
      * intros c Hc. simpl. apply elem_of_cons in Hc as [->|Hc].
        -- right. constructor.
        -- destruct (Hcov c Hc) as [Hp|Hr].
           ++ apply Hids in Hp as [Hp| ->]; [by left|right; constructor].
           ++ right. by constructor.
      * intros [|b l1] x l2 Heq Hx; simpl in Heq; injection Heq as <- ->.
        -- constructor.
        -- apply elem_of_cons. right. apply (Hfirst l1 x l2 eq_refl).
           by rewrite <- app_assoc.
    + assert (Hin : cit_id a ∈ map cit_id pre).
      { destruct (decide (cit_id a ∈ map cit_id pre)) as [|Hn]; [done|].
        apply (isFirstWithId_iff pre r a) in Hn. congruence. }
      repeat split.
      * by apply sublist_cons.
      * done.
      * intros c Hc Hcin. apply (Hfresh c Hc). apply Hids. by left.
      * intros c Hc. apply elem_of_cons in Hc as [->|Hc]; [by left|].
        destruct (Hcov c Hc) as [Hp|Hr]; [|by right].
        apply Hids in Hp as [Hp| ->]; by left.
      * intros [|b l1] x l2 Heq Hx; simpl in Heq; injection Heq as <- ->.
        -- rewrite app_nil_r in Hx. done.
        -- apply (Hfirst l1 x l2 eq_refl). by rewrite <- app_assoc.
Qed.

Lemma getMessages_addMessages calls st :
  getMessages (addMessages calls st) =
  getMessages st ++
  map (fun call =>
         {| msg_id := generateMessageId (fst call); role := new_role (snd call);
            content := new_content (snd call); timestamp := now (fst call);
            status := new_status (snd call); isStreaming := new_isStreaming (snd call);
            citations := new_citations (snd call); metadata := new_metadata (snd call) |})
      calls.
Proof.
  revert st. induction calls as [|[e m] calls IH]; intros st.
  - simpl. by rewrite app_nil_r.
  - change (addMessages ((e, m) :: calls) st)
      with (addMessages calls (snd (addMessage e m st))).
    rewrite IH, getMessages_addMessage, <- app_assoc. reflexivity.
Qed.

End StoreQueryFacts.

(** X1.  [getAllCitations()] returns every citation id that occurs in a
    message exactly once: the result has no duplicate ids, it keeps the
    first citation carrying each id, in the order of the messages, and no
    id is lost. *)
Theorem getAllCitations_first_per_id (st : StateManager.t) :
  NoDup (map cit_id (StoreQueries.getAllCitations st)) /\
  StoreQueries.getAllCitations st `sublist_of` StoreQueries.flattened st /\
  (forall c, c ∈ StoreQueries.flattened st ->
             cit_id c ∈ map cit_id (StoreQueries.getAllCitations st)) /\
  (forall l1 x l2, StoreQueries.flattened st = l1 ++ x :: l2 ->
                   cit_id x ∉ map cit_id l1 ->
                   x ∈ StoreQueries.getAllCitations st).
Proof.
  destruct (firstIds_from (StoreQueries.flattened st) []) as (Hsub & Hnd & _ & Hcov & Hfirst).
  unfold StoreQueries.getAllCitations. simpl in *.
  repeat split; try done.
  intros c Hc. destruct (Hcov c Hc) as [Hp|Hr]; [inversion Hp|done].
Qed.

Lemma updateMessage_unknown_id (messageId : string) (u : Updates)
        (st : StateManager.t) :
  (fst (StateManager.updateMessage messageId u st) = None <->
   messageId ∉ map msg_id (StateManager.getMessages st)) /\
  (fst (StateManager.updateMessage messageId u st) = None ->
   snd (StateManager.updateMessage messageId u st) = st) /\
  length (StateManager.getMessages (snd (StateManager.updateMessage messageId u st))) =
  length (StateManager.getMessages st).
Proof.
  assert (Hfind : StateManager.findIndex (fun m => String.eqb (msg_id m) messageId)
                    (StateManager.getMessages st) = None <->
                  messageId ∉ map msg_id (StateManager.getMessages st)).
  { rewrite findIndex_None. split.
    - intros H Hin. apply list_elem_of_In, in_map_iff in Hin as (m & Hm & Hmin).
      specialize (H m (proj2 (list_elem_of_In _ _) Hmin)).
      rewrite Hm, String.eqb_refl in H. discriminate.
    - intros H m Hm. apply String.eqb_neq. intros Heq. apply H.
      rewrite <- Heq. apply list_elem_of_In, in_map, list_elem_of_In, Hm. }
  split; [|split].
  - rewrite <- Hfind. unfold StateManager.updateMessage, StateManager.getMessages.
    destruct (StateManager.currentSession st) as [s|]; simpl; [|done].
    destruct (StateManager.findIndex _ (messages s)) as [i|] eqn:Hi; simpl; [|done].
    destruct (findIndex_Some _ _ _ Hi) as (x & Hx & _). rewrite Hx. simpl. done.
  - unfold StateManager.updateMessage.
    destruct (StateManager.currentSession st) as [s|]; simpl; [|done].
    destruct (StateManager.findIndex _ (messages s)) as [i|] eqn:Hi; simpl; [|done].
    destruct (messages s !! i); simpl; [discriminate|done].
  - rewrite getMessages_updateMessage.
    destruct (StateManager.findIndex _ _); [|done]. apply length_alter.
Qed.


(** X2.  [updateMessage] returns [null] exactly when no message of the
    session carries the id, and then the store is left as it was; a session
    is never created or dropped by it. *)
Theorem updateMessage_null_iff_unknown_id (messageId : string) (u : Updates)
        (st : StateManager.t) :
  (fst (StateManager.updateMessage messageId u st) = None <->
   messageId ∉ map msg_id (StateManager.getMessages st)) /\
  (fst (StateManager.updateMessage messageId u st) = None ->
   snd (StateManager.updateMessage messageId u st) = st) /\
  length (StateManager.getMessages (snd (StateManager.updateMessage messageId u st))) =
  length (StateManager.getMessages st).
Proof. apply updateMessage_unknown_id. Qed.

(** X3.  After any run of [addMessage] calls, [getMessages()] lists the
    earlier messages followed by the new ones in call order, each with the
    role, content and status that was passed and the time of its call. *)
Theorem addMessages_in_call_order (calls : list (Env * NewMessage)) (st : StateManager.t) :
  let added := skipn (length (StateManager.getMessages st))
                     (StateManager.getMessages (StoreQueries.addMessages calls st)) in
  firstn (length (StateManager.getMessages st))
         (StateManager.getMessages (StoreQueries.addMessages calls st)) =
    StateManager.getMessages st /\
  map content added = map (fun call => new_content (snd call)) calls /\
  map role added = map (fun call => new_role (snd call)) calls /\
  map status added = map (fun call => new_status (snd call)) calls /\
  map timestamp added = map (fun call => now (fst call)) calls /\
  map msg_id added = map (fun call => StateManager.generateMessageId (fst call)) calls.
Proof.
  simpl. rewrite getMessages_addMessages.
  rewrite take_app_length, drop_app_length, !map_map. simpl.
  repeat split; done.
Qed.

(** ** The event registry *)

Section ListenerFacts.
Import Listeners.

Lemma Set_delete_add_fresh (l : nat) (s : list nat) :
  l ∉ s -> Set_delete l (Set_add l s) = s.
Proof.
  intros Hl. unfold Set_add. rewrite bool_decide_eq_false_2 by done.
  unfold Set_delete. rewrite List.filter_app. simpl. rewrite Nat.eqb_refl. simpl.
  rewrite app_nil_r. induction s as [|x s IH]; [done|]. simpl.
  apply not_elem_of_cons in Hl as [Hne Hl].
  destruct (Nat.eqb_spec x l) as [->|_]; [done|]. simpl. by rewrite IH.
Qed.

Lemma Set_delete_NoDup (l : nat) (s : list nat) : NoDup s -> NoDup (Set_delete l s).
Proof.
  unfold Set_delete. induction 1 as [|x s Hx _ IH]; simpl; [constructor|].
  destruct (negb (x =? l)%nat); [|done].
  constructor; [|done]. intros Hin. apply Hx.
  apply list_elem_of_In, filter_In in Hin as [Hin _]. by apply list_elem_of_In.
Qed.

Lemma Set_add_nonempty (l : nat) (s : list nat) : Set_add l s <> [].
Proof.
  unfold Set_add. case_bool_decide as Hl.
  - intros ->. inversion Hl.
  - by destruct s.
Qed.

Lemma on_lookup (event : string) (l : nat) (m : gmap string (list nat)) :
  on event l m = <[event := Set_add l (default [] (m !! event))]> m.
Proof.
  unfold on. destruct (m !! event) as [s|] eqn:Hs; simpl.
  - by rewrite Hs.
  - rewrite lookup_insert_eq. by rewrite insert_insert_eq.
Qed.

End ListenerFacts.

(** X4.  Registering a listener twice is the same as registering it once
    (the listeners of an event form a set), and in a registry without empty
    sets [off] undoes [on] of a listener that was not registered: the
    registry is exactly what it was, the event name included. *)
Theorem on_idempotent_and_undone_by_off
        (event : string) (listener : nat) (m : gmap string (list nat)) :
  Listeners.tidy m ->
  listener ∉ Listeners.emit event m ->
  Listeners.on event listener (Listeners.on event listener m) =
    Listeners.on event listener m /\
  Listeners.off event listener (Listeners.on event listener m) = m.
Proof.
  intros Htidy Hfresh. rewrite !on_lookup. split.
  - rewrite lookup_insert_eq. simpl. rewrite insert_insert_eq. f_equal.
    unfold Listeners.Set_add at 1. rewrite bool_decide_eq_true_2; [done|].
    unfold Listeners.Set_add. case_bool_decide; [done|].
    apply elem_of_app. right. constructor.
  - unfold Listeners.off. rewrite lookup_insert_eq.
    assert (Hfresh' : listener ∉ default [] (m !! event)).
    { unfold Listeners.emit in Hfresh. by destruct (m !! event). }
    rewrite (Set_delete_add_fresh _ _ Hfresh').
    destruct (m !! event) as [s|] eqn:Hs; simpl.
    + destruct s as [|x s]; [by destruct (Htidy _ _ Hs)|]. simpl.
      rewrite insert_insert_eq. by apply insert_id.
    + rewrite delete_insert_eq. by apply delete_id.
Qed.

Lemma on_idempotent_and_undone_by_off_witness :
  let m : gmap string (list nat) := {[ "messageAdded" := [7] ]} in
  (Listeners.tidy m /\ 3 ∉ Listeners.emit "sessionCleared" m) /\
  (Listeners.on "sessionCleared" 3 (Listeners.on "sessionCleared" 3 m) =
     Listeners.on "sessionCleared" 3 m /\
   Listeners.off "sessionCleared" 3 (Listeners.on "sessionCleared" 3 m) = m).
Proof.
  intros m.
  assert (H1 : Listeners.tidy m).
  { intros ev s Hs. apply lookup_singleton_Some in Hs as [_ <-]. discriminate. }
  assert (H2 : 3 ∉ Listeners.emit "sessionCleared" m).
  { unfold Listeners.emit, m. rewrite lookup_singleton_ne by discriminate.
    apply not_elem_of_nil. }
  split.
  - exact (conj H1 H2).
  - exact (on_idempotent_and_undone_by_off "sessionCleared" 3 m H1 H2).
Defined.

(** X5.  [on] and [off] keep the registry well formed (no event with an
    empty set, no listener twice in a set); after [on] the listener is
    called for the event, exactly once, after [off] it is not called, and
    the listeners of other events are never affected. *)
Theorem registry_stays_well_formed (event : string) (listener : nat)
        (m : gmap string (list nat)) :
  Listeners.tidy m ->
  (forall ev, NoDup (Listeners.emit ev m)) ->
  Listeners.tidy (Listeners.on event listener m) /\
  Listeners.tidy (Listeners.off event listener m) /\
  (forall ev, NoDup (Listeners.emit ev (Listeners.on event listener m))) /\
  (forall ev, NoDup (Listeners.emit ev (Listeners.off event listener m))) /\
  (listener ∈ Listeners.emit event (Listeners.on event listener m)) /\
  (listener ∉ Listeners.emit event (Listeners.off event listener m)) /\
  (forall other, other <> event ->
     Listeners.emit other (Listeners.on event listener m) = Listeners.emit other m /\
     Listeners.emit other (Listeners.off event listener m) = Listeners.emit other m).
Proof.
  intros Htidy Hnd.
  assert (Hdel : forall s, listener ∉ Listeners.Set_delete listener s).
  { intros s Hin. unfold Listeners.Set_delete in Hin.
    apply list_elem_of_In, filter_In in Hin as [_ Hne].
    by rewrite Nat.eqb_refl in Hne. }
  assert (Hother : forall other, other <> event ->
     Listeners.emit other (Listeners.on event listener m) = Listeners.emit other m /\
     Listeners.emit other (Listeners.off event listener m) = Listeners.emit other m).
  { intros other Hne. split.
    - rewrite on_lookup. unfold Listeners.emit. by rewrite lookup_insert_ne.
    - unfold Listeners.off, Listeners.emit.
      destruct (m !! event) as [s0|]; [|done].
      destruct (Nat.eqb (length (Listeners.Set_delete listener s0)) 0).
      + by rewrite lookup_delete_ne.
      + by rewrite lookup_insert_ne. }
  assert (Hon : Listeners.emit event (Listeners.on event listener m) =
                Listeners.Set_add listener (Listeners.emit event m)).
  { rewrite on_lookup. unfold Listeners.emit. rewrite lookup_insert_eq.
    by destruct (m !! event). }
  assert (Hoff : Listeners.emit event (Listeners.off event listener m) =
                 Listeners.Set_delete listener (Listeners.emit event m)).
  { unfold Listeners.off, Listeners.emit.
    destruct (m !! event) as [s0|] eqn:Hs0; [|by rewrite Hs0].
    destruct (Nat.eqb_spec (length (Listeners.Set_delete listener s0)) 0) as [Hz|Hnz].
    - rewrite lookup_delete_eq. symmetry. by apply length_zero_iff_nil.
    - by rewrite lookup_insert_eq. }
  split; [|split; [|split; [|split; [|split; [|split]]]]].
  - rewrite on_lookup. intros ev s Hs.
    destruct (decide (ev = event)) as [->|Hne].
    + rewrite lookup_insert_eq in Hs. injection Hs as <-. apply Set_add_nonempty.
    + rewrite lookup_insert_ne in Hs by done. by eapply Htidy.
  - unfold Listeners.off. destruct (m !! event) as [s0|] eqn:Hs0; [|done].
    destruct (Nat.eqb_spec (length (Listeners.Set_delete listener s0)) 0) as [Hz|Hnz].
    + intros ev s Hs. destruct (decide (ev = event)) as [->|Hne].
      * by rewrite lookup_delete_eq in Hs.
      * rewrite lookup_delete_ne in Hs by done. by eapply Htidy.
    + intros ev s Hs. destruct (decide (ev = event)) as [->|Hne].
      * rewrite lookup_insert_eq in Hs. injection Hs as <-.
        intros Hnil. by rewrite Hnil in Hnz.
      * rewrite lookup_insert_ne in Hs by done. by eapply Htidy.
  - intros ev. destruct (decide (ev = event)) as [->|Hne].
    + rewrite Hon. unfold Listeners.Set_add. case_bool_decide as Hin; [apply Hnd|].
      apply NoDup_app. split; [apply Hnd|]. split; [|apply NoDup_singleton].
      intros x Hx Hx'. apply list_elem_of_singleton in Hx' as ->. done.
    + rewrite (proj1 (Hother ev Hne)). apply Hnd.
  - intros ev. destruct (decide (ev = event)) as [->|Hne].
    + rewrite Hoff. apply Set_delete_NoDup, Hnd.
    + rewrite (proj2 (Hother ev Hne)). apply Hnd.
  - rewrite Hon. unfold Listeners.Set_add. case_bool_decide as Hin; [done|].
    apply elem_of_app. right. constructor.
  - rewrite Hoff. apply Hdel.
  - exact Hother.
Qed.

Lemma registry_stays_well_formed_witness :
  let m : gmap string (list nat) := {[ "messageAdded" := [7] ]} in
  (Listeners.tidy m /\ (forall ev, NoDup (Listeners.emit ev m))) /\
  Listeners.tidy (Listeners.off "messageAdded" 7 m) /\
  Listeners.emit "messageAdded" (Listeners.on "messageAdded" 7 m) = [7].
Proof.
  intros m.
  assert (H1 : Listeners.tidy m).
  { intros ev s Hs. apply lookup_singleton_Some in Hs as [_ <-]. discriminate. }
  assert (H2 : forall ev, NoDup (Listeners.emit ev m)).
  { intros ev. unfold Listeners.emit, m.
    destruct (decide (ev = "messageAdded")) as [->|Hne].
    - rewrite lookup_singleton_eq. apply NoDup_singleton.
    - rewrite lookup_singleton_ne by done. constructor. }
  split; [exact (conj H1 H2)|]. split.
  - exact (proj1 (proj2 (registry_stays_well_formed "messageAdded" 7 m H1 H2))).
  - reflexivity.
Defined.

(** ** Import validation and JSON round trips *)

Section ImportFacts.
Context `{DateLib}.
Import SessionJson.

Lemma accepted_iff (session : JsValue) :
  truthy session && truthy (get "id" session) && isArray (get "messages" session) = true <->
  exists ps, session = JsObject ps /\
             truthy (lookupProp "id" ps) = true /\
             isArray (lookupProp "messages" ps) = true.
Proof.
  split.
  - intros Hc. apply andb_prop in Hc as [Hc Hm]. apply andb_prop in Hc as [Ht Hid].
    destruct session; simpl in Hid; try discriminate. eauto.
  - intros (ps & -> & Hid & Hm). simpl. by rewrite Hid, Hm.
Qed.

Lemma setProp_fresh (k : string) (x : JsValue) (ps : list (string * JsValue)) :
  existsb (String.eqb k) (map fst ps) = false -> setProp k x ps = ps ++ [(k, x)].
Proof.
  induction ps as [|[k0 x0] ps IH]; simpl; [done|].
  intros Hk. apply orb_false_elim in Hk as [Hk0 Hk].
  rewrite String.eqb_sym, Hk0. f_equal. by apply IH.
Qed.

(** For a text that repeats no key, [JSON_parse] is [parse]. *)
Lemma JSON_parse_distinct :
  forall j, distinctKeys j = true -> JSON_parse j = parse j.
Proof.
  fix IH 1. intros j. destruct j as [ |b|q|str|items|props]; simpl; try done.
  - intros Hd. f_equal. induction items as [|a items IHi]; [done|].
    simpl in Hd. apply andb_prop in Hd as [Ha Hd]. simpl.
    by rewrite (IH a Ha), (IHi Hd).
  - intros Hd. f_equal.
    assert (Hgen : forall ps acc,
      (fix members (ps : list (string * Json)) (seen : list string) : bool :=
         match ps with
         | [] => true
         | (k, x) :: r =>
           negb (existsb (String.eqb k) seen) && distinctKeys x && members r (seen ++ [k])
         end) ps (map fst acc) = true ->
      (fix define (ps : list (string * Json)) (acc : list (string * JsValue))
         : list (string * JsValue) :=
         match ps with
         | [] => acc
         | (k, x) :: r => define r (setProp k (JSON_parse x) acc)
         end) ps acc =
      acc ++ (fix fields (ps : list (string * Json)) : list (string * JsValue) :=
                match ps with
                | [] => []
                | (k, x) :: r => (k, parse x) :: fields r
                end) ps).
    { clear Hd. induction ps as [|[k x] ps IHps]; intros acc Hm.
      - by rewrite app_nil_r.
      - apply andb_prop in Hm as [Hm Hrest]. apply andb_prop in Hm as [Hk Hx].
        apply negb_true_iff in Hk.
        rewrite (IH x Hx), (setProp_fresh _ _ _ Hk), IHps.
        + by rewrite <- app_assoc.
        + by rewrite map_app. }
    exact (Hgen props [] Hd).
Qed.

End ImportFacts.

(** The last value of a repeated key counts: the empty second [id] makes
    the document unacceptable. *)
Example repeated_key_last_value `{DateLib} :
  SessionJson.importSession
    (Some (JObject [("id", JString "a"); ("messages", JArray []); ("id", JString "")])) =
  (false, None).
Proof. reflexivity. Qed.

(** A [created_at] that cannot be converted makes [new Date] throw, and the
    import fails although [id] and [messages] are fine. *)
Example unconvertible_date_rejected `{DateLib} :
  SessionJson.importSession
    (Some (JObject [("id", JString "a"); ("messages", JArray []);
                    ("created_at", JObject [("toString", JNumber 1)])])) =
  (false, None).
Proof. reflexivity. Qed.

(** X6.  [importSession] returns [true] exactly for a text that parses to an
    object with a truthy [id] and an array [messages] whose [created_at] and
    [updated_at] can be turned into dates without an exception; of a
    repeated key the last value counts.  In every other case (also for a
    text that does not parse) it returns [false] and assigns nothing to the
    current session.  [new Date(..)] throws only for an array or an object,
    and always for an object with a property named [toString]. *)
Theorem importSession_validation `{DateLib} (sessionData : option Json) :
  (fst (SessionJson.importSession sessionData) = true <->
   exists doc ps created updated,
     sessionData = Some doc /\ SessionJson.JSON_parse doc = JsObject ps /\
     SessionJson.truthy (SessionJson.lookupProp "id" ps) = true /\
     SessionJson.isArray (SessionJson.lookupProp "messages" ps) = true /\
     SessionJson.new_Date (SessionJson.lookupProp "created_at" ps) = Some created /\
     SessionJson.new_Date (SessionJson.lookupProp "updated_at" ps) = Some updated) /\
  (fst (SessionJson.importSession sessionData) = false ->
   snd (SessionJson.importSession sessionData) = None) /\
  (forall v, SessionJson.new_Date v = None ->
             SessionJson.isArray v = true \/ exists ps, v = JsObject ps) /\
  (forall ps, SessionJson.hasOwnProperty "toString" ps = true ->
              SessionJson.new_Date (JsObject ps) = None).
Proof.
  split; [|split; [|split]].
  - unfold SessionJson.importSession. destruct sessionData as [doc|]; simpl.
    2:{ split; [discriminate|]. by intros (? & ? & ? & ? & ? & _). }
    pose proof (accepted_iff (SessionJson.JSON_parse doc)) as Hacc.
    destruct (SessionJson.truthy (SessionJson.JSON_parse doc) &&
              SessionJson.truthy (SessionJson.get "id" (SessionJson.JSON_parse doc)) &&
              SessionJson.isArray (SessionJson.get "messages" (SessionJson.JSON_parse doc)))
      eqn:Hc.
    + destruct (proj1 Hacc eq_refl) as (ps & Hp & Hid & Hm). rewrite Hp. simpl.
      destruct (SessionJson.new_Date (SessionJson.lookupProp "created_at" ps))
        as [created|] eqn:Hcr.
      * destruct (SessionJson.new_Date (SessionJson.lookupProp "updated_at" ps))
          as [updated|] eqn:Hup; simpl.
        -- split; [|done]. intros _. by exists doc, ps, created, updated.
        -- split; [discriminate|].
           intros (doc' & ps' & cr & up & [= <-] & Hp' & _ & _ & _ & Hup').
           rewrite Hp in Hp'. injection Hp' as <-. congruence.
      * simpl. split; [discriminate|].
        intros (doc' & ps' & cr & up & [= <-] & Hp' & _ & _ & Hcr' & _).
        rewrite Hp in Hp'. injection Hp' as <-. congruence.
    + simpl. split; [discriminate|].
      intros (doc' & ps & cr & up & [= <-] & Hp & Hid & Hm & _).
      assert (false = true); [|discriminate]. apply Hacc. by exists ps.
  - unfold SessionJson.importSession. destruct sessionData as [doc|]; [|done].
    destruct (SessionJson.truthy _ && _ && _); [|done].
    destruct (SessionJson.JSON_parse doc); try done.
    destruct (SessionJson.new_Date _); [|done].
    destruct (SessionJson.new_Date _); [discriminate|done].
  - intros v Hv. destruct v; try discriminate; [by left|right; eauto].
  - intros ps Hps. unfold SessionJson.new_Date. simpl. by rewrite Hps.
Qed.

(** X7.  An accepted import checks nothing beyond [id] and [messages]: the
    session keeps every property of the document as it was parsed (the
    elements of [messages] are not looked at), except that [created_at] and
    [updated_at] are replaced by [new Date(..)] of what the document holds:
    the Invalid Date when the document has no such property or holds a
    number above 8.64e15 ms, the parsed date for a string. *)
Theorem importSession_keeps_document `{DateLib} (doc : Json) (imported : JsValue) :
  SessionJson.importSession (Some doc) = (true, Some imported) ->
  SessionJson.new_Date (SessionJson.get "created_at" (SessionJson.JSON_parse doc)) =
    Some (SessionJson.get "created_at" imported) /\
  SessionJson.new_Date (SessionJson.get "updated_at" (SessionJson.JSON_parse doc)) =
    Some (SessionJson.get "updated_at" imported) /\
  (forall k, k <> "created_at" -> k <> "updated_at" ->
             SessionJson.get k imported = SessionJson.get k (SessionJson.JSON_parse doc)) /\
  (SessionJson.get "created_at" (SessionJson.JSON_parse doc) = JsUndefined ->
   SessionJson.get "created_at" imported = JsDate None) /\
  (forall q, SessionJson.get "created_at" (SessionJson.JSON_parse doc) = JsNumber q ->
             (inject_Z 8640000000000000 < q)%Q ->
             SessionJson.get "created_at" imported = JsDate None) /\
  (forall text, SessionJson.get "created_at" (SessionJson.JSON_parse doc) = JsString text ->
                SessionJson.get "created_at" imported = JsDate (Date_parse text)).
Proof.
  unfold SessionJson.importSession.
  destruct (SessionJson.truthy (SessionJson.JSON_parse doc) && _ && _); [|discriminate].
  destruct (SessionJson.JSON_parse doc) as [ | |b|q|str|ms|items|ps]; try discriminate.
  simpl SessionJson.get.
  destruct (SessionJson.new_Date (SessionJson.lookupProp "created_at" ps))
    as [created|] eqn:Hcr; [|discriminate].
  destruct (SessionJson.new_Date (SessionJson.lookupProp "updated_at" ps))
    as [updated|] eqn:Hup; [|discriminate].
  intros [= <-]. simpl.
  assert (Hc : SessionJson.lookupProp "created_at"
                 (SessionJson.setProp "updated_at" updated
                    (SessionJson.setProp "created_at" created ps)) = created).
  { rewrite lookupProp_setProp_ne by discriminate. apply lookupProp_setProp_eq. }
  rewrite Hc, lookupProp_setProp_eq.
  split; [done|]. split; [done|]. split; [|split; [|split]].
  - intros k Hk1 Hk2. rewrite !lookupProp_setProp_ne by done. reflexivity.
  - intros Hu. rewrite Hu in Hcr. simpl in Hcr. congruence.
  - intros q Hq Hbig. rewrite Hq in Hcr. simpl in Hcr. injection Hcr as <-.
    unfold SessionJson.TimeClip.
    destruct (Qle_bool q (inject_Z 8640000000000000)) eqn:Hle.
    + apply Qle_bool_iff in Hle. exfalso. by apply (Qlt_not_le _ _ Hbig).
    + by rewrite andb_false_r.
  - intros text Ht. rewrite Ht in Hcr. simpl in Hcr. congruence.
Qed.

Lemma importSession_keeps_document_witness :
  let imported :=
    JsObject [ ("id", JsString "session_x");
               ("messages", JsArray [JsNumber 1; JsNull]);
               ("created_at", JsDate None); ("updated_at", JsDate None) ] in
  @SessionJson.importSession Scenario.plainDates (Some Scenario.oddSession) =
    (true, Some imported) /\
  SessionJson.get "messages" imported = JsArray [JsNumber 1; JsNull] /\
  SessionJson.get "created_at" imported = JsDate None.
Proof.
  intros imported.
  assert (H1 : @SessionJson.importSession Scenario.plainDates (Some Scenario.oddSession) =
               (true, Some imported)) by reflexivity.
  destruct (@importSession_keeps_document Scenario.plainDates
              Scenario.oddSession imported H1) as (_ & _ & Hk & Hc & _).
  split; [exact H1|]. split.
  - reflexivity.
  - exact (Hc eq_refl).
Defined.

(** ** JSON round trips *)

Section JsonRoundTrip.
Context `{DateLib}.
Import SessionJson CitationTools.

(** [JSON.parse(JSON.stringify(v))] is [v] itself for every value without
    [undefined] and [Date] inside. *)
Lemma parse_stringify_plain :
  forall v, plain v = true -> option_map parse (stringify v) = Some v.
Proof.
  fix IH 1. intros [ | |b|q|str|ms|items|props] Hp; simpl in *; try done.
  - do 2 f_equal. induction items as [|x items IHi]; [done|]. simpl in *.
    apply andb_prop in Hp as [Hx Hp]. rewrite IHi by done. f_equal.
    specialize (IH x Hx). destruct (stringify x); simpl in IH; [|discriminate].
    by injection IH.
  - do 2 f_equal. induction props as [|[k x] props IHp]; [done|].
    apply andb_prop in Hp as [Hx Hp].
    specialize (IH x Hx). destruct (stringify x) as [j|]; simpl in IH; [|discriminate].
    injection IH as ->. simpl. by rewrite IHp.
Qed.

Lemma plain_citationObject (c : Citation) :
  plainMetadata c = true -> plain (citationObject c) = true.
Proof.
  unfold plainMetadata, citationObject.
  destruct (relevance_score c), (page_number c), (cit_metadata c); simpl;
    intros Hm; rewrite ?Hm; done.
Qed.

End JsonRoundTrip.

(** X8.  The JSON export of citations loses nothing: parsing the exported
    document gives back the citation objects, property by property, as long
    as their metadata holds no [undefined] and no [Date]. *)
Theorem exportCitationsJson_round_trip `{DateLib} (citations : list Citation) :
  forallb CitationTools.plainMetadata citations = true ->
  SessionJson.parse (CitationTools.exportCitationsJson citations) =
  JsArray (map SessionJson.citationObject citations).
Proof.
  intros Hm. unfold CitationTools.exportCitationsJson.
  assert (Hp : CitationTools.plain (JsArray (map SessionJson.citationObject citations)) = true).
  { change (forallb CitationTools.plain (map SessionJson.citationObject citations) = true).
    induction citations as [|c cs IH]; [done|]. cbn [map forallb] in *.
    apply andb_prop in Hm as [Hc Hm]. rewrite plain_citationObject by done. by apply IH. }
  pose proof (parse_stringify_plain _ Hp) as Hr.
  destruct (SessionJson.stringify _) as [doc|]; simpl in Hr; [|discriminate].
  by injection Hr.
Qed.

Lemma exportCitationsJson_round_trip_witness :
  forallb CitationTools.plainMetadata [Scenario.weakFirst; Scenario.strongSecond] = true /\
  @SessionJson.parse
    (@CitationTools.exportCitationsJson Scenario.plainDates
       [Scenario.weakFirst; Scenario.strongSecond]) =
  JsArray (map SessionJson.citationObject [Scenario.weakFirst; Scenario.strongSecond]).
Proof.
  assert (H1 : forallb CitationTools.plainMetadata
                       [Scenario.weakFirst; Scenario.strongSecond] = true) by reflexivity.
  split; [exact H1|].
  exact (@exportCitationsJson_round_trip Scenario.plainDates
           [Scenario.weakFirst; Scenario.strongSecond] H1).
Defined.

(** ** The client over whole executions *)

Section ClientRuns.

Lemma connectionState_addMessage e m st :
  StateManager.connectionState (snd (StateManager.addMessage e m st)) =
  StateManager.connectionState st.
Proof. reflexivity. Qed.

Lemma connectionState_updateMessage messageId u st :
  StateManager.connectionState (snd (StateManager.updateMessage messageId u st)) =
  StateManager.connectionState st.
Proof.
  unfold StateManager.updateMessage.
  destruct (StateManager.currentSession st) as [s|]; [|done].
  destruct (StateManager.findIndex _ _) as [i|]; [|done].
  by destruct (messages s !! i).
Qed.

Lemma connectionState_handleMessage e raw st :
  StateManager.connectionState (fst (handleMessage e raw st)) =
  StateManager.connectionState st.
Proof.
  destruct raw as [[ty data]|]; [|done]. unfold handleMessage. simpl.
  destruct ty; simpl; try done.
  - unfold handleMessageChunk.
    destruct (StateManager.getLastMessage st) as [m|]; [|done].
    destruct (is_assistant m && truthy_flag (isStreaming m)); [|done].
    destruct data; [|done]. simpl. apply connectionState_updateMessage.
  - unfold handleMessageComplete.
    destruct (StateManager.getLastMessage st) as [m|]; [|done].
    destruct (is_assistant m); [|done].
    destruct data; [|done]. simpl. apply connectionState_updateMessage.
  - unfold handleCitations. destruct data as [d|]; [|done].
    destruct (d_citations d); [|done].
    destruct (truthy_string (d_messageId d)); [|done]. simpl.
    apply connectionState_updateMessage.
Qed.



End ClientRuns.



Section ClientInvariants.

Lemma config_step ev c c' : step ev c = Some c' -> config c' = config c.
Proof.
  destruct ev as [throws| |i|i e raw|i|i code|throws]; simpl; intros Hstep.
  - injection Hstep as <-. unfold connect. by destruct throws.
  - by injection Hstep as <-.
  - destruct (sockets c !! i) as [[]|]; try discriminate. by injection Hstep as <-.
  - destruct (sockets c !! i) as [[]|]; try discriminate. injection Hstep as <-.
    unfold onmessage. by destruct (handleMessage e raw (stateManager c)).
  - destruct (sockets c !! i) as [[]|]; try discriminate; by injection Hstep as <-.
  - assert (c' = onclose code (setSocket i CLOSED c)) as ->.
    { destruct (sockets c !! i) as [[]|]; try discriminate; by injection Hstep as <-. }
    unfold onclose, scheduleReconnect. simpl.
    destruct (isIntentionallyClosed c); [done|]. simpl.
    by destruct (cfg_maxReconnectAttempts (config c) <=? reconnectAttemptsMade c)%Z.
  - destruct (reconnectTimer c); try discriminate. injection Hstep as <-.
    unfold reconnectCallback, connect. simpl.
    destruct (isIntentionallyClosed c); [done|]. by destruct throws.
Qed.

Lemma attempts_step ev c c' :
  step ev c = Some c' ->
  (0 <= reconnectAttemptsMade c <= Z.max 0 (cfg_maxReconnectAttempts (config c)))%Z ->
  (0 <= reconnectAttemptsMade c' <= Z.max 0 (cfg_maxReconnectAttempts (config c)))%Z.
Proof.
  destruct ev as [throws| |i|i e raw|i|i code|throws]; simpl; intros Hstep Hb.
  - injection Hstep as <-. unfold connect. by destruct throws.
  - by injection Hstep as <-.
  - destruct (sockets c !! i) as [[]|]; try discriminate. injection Hstep as <-.
    simpl. lia.
  - destruct (sockets c !! i) as [[]|]; try discriminate. injection Hstep as <-.
    unfold onmessage. by destruct (handleMessage e raw (stateManager c)).
  - destruct (sockets c !! i) as [[]|]; try discriminate; by injection Hstep as <-.
  - assert (c' = onclose code (setSocket i CLOSED c)) as ->.
    { destruct (sockets c !! i) as [[]|]; try discriminate; by injection Hstep as <-. }
    unfold onclose, scheduleReconnect. simpl.
    destruct (isIntentionallyClosed c); [done|]. simpl.
    destruct (Z.leb_spec (cfg_maxReconnectAttempts (config c)) (reconnectAttemptsMade c));
      simpl; lia.
  - destruct (reconnectTimer c); try discriminate. injection Hstep as <-.
    unfold reconnectCallback, connect. simpl.
    destruct (isIntentionallyClosed c); [done|]. by destruct throws.
Qed.

End ClientInvariants.

(** X10.  In every execution of a client, whatever its owner and the host
    do, the configuration stays the one built by the constructor and the
    reconnect counter stays between 0 and the configured maximum (0 when the
    maximum is negative). *)
Theorem reconnect_attempts_bounded (e : Env) (cfg : WebSocketConfig)
        (evs : list Event) (c : WebSocketClient.t) :
  run evs (create e cfg) = Some c ->
  config c = makeConfig cfg /\
  (0 <= reconnectAttemptsMade c <=
   Z.max 0 (cfg_maxReconnectAttempts (makeConfig cfg)))%Z.
Proof.
  assert (Hgen : forall evs c0 c,
             run evs c0 = Some c ->
             (0 <= reconnectAttemptsMade c0 <=
              Z.max 0 (cfg_maxReconnectAttempts (config c0)))%Z ->
             config c = config c0 /\
             (0 <= reconnectAttemptsMade c <=
              Z.max 0 (cfg_maxReconnectAttempts (config c0)))%Z).
  { clear. induction evs as [|ev evs IH]; intros c0 c Hrun Hb; simpl in Hrun.
    - by injection Hrun as <-.
    - destruct (step ev c0) as [c1|] eqn:Hs; [|discriminate].
      pose proof (config_step _ _ _ Hs) as Hc.
      pose proof (attempts_step _ _ _ Hs Hb) as Hb1.
      rewrite <- Hc in Hb1. destruct (IH c1 c Hrun Hb1) as [Hc' Hb'].
      split; [congruence|]. by rewrite <- Hc. }
  intros Hrun. apply (Hgen evs (create e cfg) c Hrun). simpl. lia.
Qed.

Lemma reconnect_attempts_bounded_witness :
  run Scenario.threeFailedReconnects
      (create (Scenario.at_ 1000 "lx10") Scenario.maxThree) = Some Scenario.exhausted /\
  config Scenario.exhausted = makeConfig Scenario.maxThree /\
  (0 <= reconnectAttemptsMade Scenario.exhausted <=
   Z.max 0 (cfg_maxReconnectAttempts (makeConfig Scenario.maxThree)))%Z.
Proof.
  assert (H1 : run Scenario.threeFailedReconnects
                   (create (Scenario.at_ 1000 "lx10") Scenario.maxThree) =
               Some Scenario.exhausted) by (vm_compute; reflexivity).
  split; [exact H1|].
  exact (reconnect_attempts_bounded (Scenario.at_ 1000 "lx10") Scenario.maxThree
           Scenario.threeFailedReconnects Scenario.exhausted H1).
Defined.

Section ConnectedFacts.

Lemma sameState_eq (a b : StateManager.ConnectionState) :
  Reentrant.sameState a b = true -> a = b.
Proof. by destruct a, b. Qed.

Lemma up_after_insert (l : list ReadyState) (i : nat) (r : ReadyState) :
  (exists j x, l !! j = Some x /\ Reentrant.isUp x = true) ->
  i < length l -> Reentrant.isUp r = true ->
  exists j x, <[i := r]> l !! j = Some x /\ Reentrant.isUp x = true.
Proof.
  intros (j & x & Hj & Hx) Hi Hr. destruct (decide (i = j)) as [->|Hne].
  - exists j, r. split; [|done]. by apply list_lookup_insert_eq.
  - exists j, x. split; [|done]. by rewrite list_lookup_insert_ne.
Qed.

Lemma connected_step (ev : Reentrant.Event) (m m' : Reentrant.t) :
  Reentrant.step ev m = Some m' ->
  Reentrant.connectionStateLeftAlone [ev] m = true ->
  (StateManager.connectionState (stateManager (Reentrant.client m)) = StateManager.connected ->
   exists i r, sockets (Reentrant.client m) !! i = Some r /\ Reentrant.isUp r = true) ->
  StateManager.connectionState (stateManager (Reentrant.client m')) = StateManager.connected ->
  exists i r, sockets (Reentrant.client m') !! i = Some r /\ Reentrant.isUp r = true.
Proof.
  intros Hstep Halone Hinv. destruct m as [c stack]. simpl in Hinv.
  destruct ev as [[throws| |i|i e raw|i|i code|throws]| |i|st];
    simpl in Hstep; try discriminate.
  - injection Hstep as <-. unfold Reentrant.start_connect.
    destruct (Reentrant.announces _ c); simpl; [discriminate|].
    destruct throws; simpl; discriminate.
  - injection Hstep as <-. simpl. discriminate.
  - destruct stack; simpl in Hstep; [|discriminate].
    destruct (sockets c !! i) as [[]|] eqn:Hi; try discriminate.
    injection Hstep as <-. intros _.
    exists i, OPEN. split; [|done].
    destruct (Reentrant.announces _ _); simpl;
      apply list_lookup_insert_eq; by eapply lookup_lt_Some.
  - destruct stack; simpl in Hstep; [|discriminate].
    destruct (sockets c !! i) as [[]|] eqn:Hi; try discriminate.
    injection Hstep as <-. simpl. unfold onmessage.
    pose proof (connectionState_handleMessage e raw (stateManager c)) as Hcs.
    destruct (handleMessage e raw (stateManager c)) as [st evs]. simpl in *.
    rewrite Hcs. exact Hinv.
  - destruct stack; simpl in Hstep; [|discriminate].
    destruct (sockets c !! i) as [[]|] eqn:Hi; try discriminate;
      injection Hstep as <-; simpl; exact Hinv.
  - destruct stack; simpl in Hstep; [|discriminate].
    destruct (sockets c !! i) as [[]|] eqn:Hi; try discriminate;
      injection Hstep as <-;
      destruct (Reentrant.announces _ _); simpl; discriminate.
  - destruct stack; simpl in Hstep; [|discriminate].
    destruct (reconnectTimer c) eqn:Ht; try discriminate.
    injection Hstep as <-. simpl.
    destruct (isIntentionallyClosed c); simpl; [exact Hinv|].
    unfold Reentrant.start_connect.
    destruct (Reentrant.announces _ _); simpl; [discriminate|].
    destruct throws; simpl; discriminate.
  - unfold Reentrant.resume in Hstep. simpl in Hstep.
    destruct stack as [|[throws| |code|] stack]; try discriminate;
      injection Hstep as <-; simpl.
    + destruct throws; simpl; [discriminate|].
      intros Hc. destruct (Hinv Hc) as (j & x & Hj & Hx).
      exists j, x. split; [|done]. by apply lookup_app_l_Some.
    + exact Hinv.
    + exact Hinv.
    + unfold Reentrant.onclose_end, scheduleReconnect.
      destruct (isIntentionallyClosed c); [exact Hinv|].
      destruct (cfg_maxReconnectAttempts (config c) <=? reconnectAttemptsMade c)%Z;
        simpl; exact Hinv.
  - destruct stack; simpl in Hstep; [|discriminate].
    destruct (sockets c !! i) as [[]|] eqn:Hi; try discriminate.
    injection Hstep as <-. simpl. intros Hc.
    apply up_after_insert; [by apply Hinv|by eapply lookup_lt_Some|done].
  - injection Hstep as <-. simpl in *. rewrite andb_true_r in Halone.
    apply sameState_eq in Halone. rewrite Halone. exact Hinv.
Qed.

End ConnectedFacts.

(** X11.  In every execution of a client, listeners and other components
    included, that starts from the store's initial state and in which nobody
    but the client changes the connection state of the shared store, that
    state is [connected] only while some socket of the client has had its
    [open] event and not yet its [close] event. *)
Theorem connected_only_while_socket_up (e : Env) (cfg : WebSocketConfig)
        (evs : list Reentrant.Event) (m : Reentrant.t) :
  Reentrant.run evs (Reentrant.init e cfg) = Some m ->
  Reentrant.connectionStateLeftAlone evs (Reentrant.init e cfg) = true ->
  StateManager.connectionState (stateManager (Reentrant.client m)) = StateManager.connected ->
  exists i r, sockets (Reentrant.client m) !! i = Some r /\ Reentrant.isUp r = true.
Proof.
  assert (Hgen : forall evs m0 m,
             Reentrant.run evs m0 = Some m ->
             Reentrant.connectionStateLeftAlone evs m0 = true ->
             (StateManager.connectionState (stateManager (Reentrant.client m0)) =
                StateManager.connected ->
              exists i r, sockets (Reentrant.client m0) !! i = Some r /\
                          Reentrant.isUp r = true) ->
             StateManager.connectionState (stateManager (Reentrant.client m)) =
               StateManager.connected ->
             exists i r, sockets (Reentrant.client m) !! i = Some r /\
                         Reentrant.isUp r = true).
  { clear. induction evs as [|ev evs IH]; intros m0 m Hrun Halone Hinv.
    - simpl in Hrun. by injection Hrun as <-.
    - cbn [Reentrant.run] in Hrun. cbn [Reentrant.connectionStateLeftAlone] in Halone.
      destruct (Reentrant.step ev m0) as [m1|] eqn:Hs; [|discriminate].
      apply andb_prop in Halone as [Hev Halone].
      apply (IH m1 m Hrun Halone). apply (connected_step ev m0 m1 Hs); [|exact Hinv].
      cbn [Reentrant.connectionStateLeftAlone]. rewrite Hev, Hs. reflexivity. }
  intros Hrun Halone. apply (Hgen evs (Reentrant.init e cfg) m Hrun Halone). discriminate.
Qed.

Lemma connected_only_while_socket_up_witness :
  let start := Reentrant.init (Scenario.at_ 1000 "lx10") Scenario.maxThree in
  let evs := [Reentrant.Begin (CallConnect false); Reentrant.ListenersReturn;
              Reentrant.Begin (SocketOpen 0); Reentrant.ListenersReturn;
              Reentrant.PeerCloses 0] in
  let m := Reentrant.orElse (Reentrant.run evs start) in
  (Reentrant.run evs start = Some m /\
   Reentrant.connectionStateLeftAlone evs start = true /\
   StateManager.connectionState (stateManager (Reentrant.client m)) = StateManager.connected) /\
  sockets (Reentrant.client m) = [CLOSING] /\
  exists i r, sockets (Reentrant.client m) !! i = Some r /\ Reentrant.isUp r = true.
Proof.
  intros start evs m.
  assert (H1 : Reentrant.run evs start = Some m) by (vm_compute; reflexivity).
  assert (H2 : Reentrant.connectionStateLeftAlone evs start = true) by (vm_compute; reflexivity).
  assert (H3 : StateManager.connectionState (stateManager (Reentrant.client m)) =
               StateManager.connected) by (vm_compute; reflexivity).
  assert (H4 : sockets (Reentrant.client m) = [CLOSING]) by (vm_compute; reflexivity).
  exact (conj (conj H1 (conj H2 H3))
              (conj H4 (connected_only_while_socket_up (Scenario.at_ 1000 "lx10")
                          Scenario.maxThree evs m H1 H2 H3))).
Defined.

(** ** Outbound frames *)



(** X13.  On an open connection [sendChatMessage] writes one frame to the
    current socket that reads back as type [chat_message] with the message
    text, the time of the call, and as [sessionId] the one passed or, when
    it is omitted or empty, the id of the store's current session. *)
Theorem sendChatMessage_frame `{DateLib} (e : Env) (message : string)
        (sessionId : option string) (c : WebSocketClient.t) :
  Outbound.isConnected c = true ->
  exists i doc,
    Outbound.sendChatMessage e false message sessionId c = (true, Some (i, doc)) /\
    ws c = Some i /\
    SessionJson.get "type" (SessionJson.parse doc) = JsString "chat_message" /\
    SessionJson.get "message" (SessionJson.get "data" (SessionJson.parse doc)) =
      JsString message /\
    SessionJson.get "timestamp" (SessionJson.get "data" (SessionJson.parse doc)) =
      JsNumber (inject_Z (now e)) /\
    SessionJson.get "sessionId" (SessionJson.get "data" (SessionJson.parse doc)) =
      match sessionId with
      | Some (String a rest) => JsString (String a rest)
      | _ =>
        match StateManager.currentSession (stateManager c) with
        | Some s => JsString (session_id s)
        | None => JsUndefined
        end
      end.
Proof.
  unfold Outbound.isConnected, Outbound.sendChatMessage, Outbound.sendMessage,
    Outbound.sessionIdOrCurrent, StateManager.getCurrentSession.
  destruct (ws c) as [i|]; [|discriminate].
  destruct (sockets c !! i) as [[]|]; try discriminate. intros _.
  destruct sessionId as [[|a rest]|]; simpl;
    try destruct (StateManager.currentSession (stateManager c)); simpl;
    eexists _, _; repeat split; reflexivity.
Qed.

Lemma sendChatMessage_frame_witness :
  let c := Scenario.orElse (run [CallConnect false; SocketOpen 0] Scenario.newClient) in
  Outbound.isConnected c = true /\
  exists i doc,
    @Outbound.sendChatMessage Scenario.plainDates (Scenario.at_ 3000 "lx3a") false
       "what is new?" None c = (true, Some (i, doc)) /\
    SessionJson.get "sessionId" (SessionJson.get "data" (SessionJson.parse doc)) =
      JsString "session_lx10".
Proof.
  intros c.
  assert (H1 : Outbound.isConnected c = true) by (vm_compute; reflexivity).
  split; [exact H1|].
  destruct (@sendChatMessage_frame Scenario.plainDates (Scenario.at_ 3000 "lx3a")
              "what is new?" None c H1) as (i & doc & Hs & _ & _ & _ & _ & Hid).
  exists i, doc. split; [exact Hs|]. exact Hid.
Defined.

(** ** What inbound frames leave alone *)

Section FrameIdentity.
Import StateManager Frames.

Lemma untouched_updateMessage {B} (g : Message -> B) messageId u st :
  untouched g -> u_id u = None -> u_role u = None -> u_timestamp u = None ->
  map g (getMessages (snd (updateMessage messageId u st))) = map g (getMessages st).
Proof.
  intros Hg H1 H2 H3. rewrite getMessages_updateMessage.
  destruct (findIndex _ _); [|done]. apply map_alter_same. intros x. by apply Hg.
Qed.

Lemma untouched_handleMessage {B} (g : Message -> B) e raw st :
  untouched g ->
  map g (getMessages (fst (handleMessage e raw st))) =
  map g (getMessages st) ++
  match raw with
  | Some f =>
    if bool_decide (frame_type f = typing_start)
    then [g (mkMessage (generateMessageId e) RAssistant "" (now e) Streaming
                       (Some true) None None)]
    else []
  | None => []
  end.
Proof.
  intros Hg. destruct raw as [[ty data]|]; [|by rewrite app_nil_r].
  unfold handleMessage. simpl.
  destruct ty; simpl; rewrite ?app_nil_r; try done.
  - unfold handleMessageChunk.
    destruct (getLastMessage st) as [m|]; [|done].
    destruct (is_assistant m && truthy_flag (isStreaming m)); [|done].
    destruct data; [|done]. simpl. by apply untouched_updateMessage.
  - unfold handleMessageComplete.
    destruct (getLastMessage st) as [m|]; [|done].
    destruct (is_assistant m); [|done].
    destruct data; [|done]. simpl. by apply untouched_updateMessage.
  - unfold handleCitations, addCitationsToMessage. destruct data as [d|]; [|done].
    destruct (d_citations d); [|done].
    destruct (truthy_string (d_messageId d)); [|done]. simpl.
    by apply untouched_updateMessage.
  - unfold getMessages. simpl. destruct (currentSession st); simpl; [|done].
    by rewrite map_app.
Qed.

End FrameIdentity.

(** X14.  No inbound frame changes the id, the role or the timestamp of a
    message, and none removes or reorders messages: after any frame the ids
    are the ids before, followed by one new id exactly when the frame is a
    [typing_start]; a payload that does not parse changes nothing at all. *)
Theorem frames_keep_identity (e : Env) (raw : option WebSocketMessage)
        (st : StateManager.t) :
  let before := StateManager.getMessages st in
  let after := StateManager.getMessages (fst (handleMessage e raw st)) in
  let isStart := match raw with
                 | Some f => bool_decide (frame_type f = typing_start)
                 | None => false
                 end in
  map msg_id after =
    map msg_id before ++ (if isStart then [StateManager.generateMessageId e] else []) /\
  map role after = map role before ++ (if isStart then [RAssistant] else []) /\
  map timestamp after = map timestamp before ++ (if isStart then [now e] else []) /\
  (raw = None -> handleMessage e raw st = (st, [])).
Proof.
  simpl.
  assert (H1 : Frames.untouched msg_id).
  { intros x u Hu _ _. unfold StateManager.spread. simpl. by rewrite Hu. }
  assert (H2 : Frames.untouched role).
  { intros x u _ Hu _. unfold StateManager.spread. simpl. by rewrite Hu. }
  assert (H3 : Frames.untouched timestamp).
  { intros x u _ _ Hu. unfold StateManager.spread. simpl. by rewrite Hu. }
  rewrite (untouched_handleMessage msg_id e raw st H1),
          (untouched_handleMessage role e raw st H2),
          (untouched_handleMessage timestamp e raw st H3).
  destruct raw as [f|]; [|done].
  destruct (bool_decide (frame_type f = typing_start)); repeat split; done.
Qed.

(** X15.  A [citations] frame with a message id and a citation list sets
    the citations of the first message carrying that id and changes no other
    message; when no message carries the id the store is left as it was, and
    in both cases the client still emits its [citations] event. *)
Theorem citations_frame_effect (e : Env) (messageId : string) (cs : list Citation)
        (st : StateManager.t) :
  messageId <> "" ->
  snd (handleMessage e (Frames.citationsFrame messageId cs) st) =
    [ev_citations; ev_message citations_frame] /\
  (messageId ∉ map msg_id (StateManager.getMessages st) ->
   fst (handleMessage e (Frames.citationsFrame messageId cs) st) = st) /\
  (forall pre m post,
      StateManager.getMessages st = pre ++ m :: post ->
      msg_id m = messageId -> messageId ∉ map msg_id pre ->
      StateManager.getMessages
        (fst (handleMessage e (Frames.citationsFrame messageId cs) st)) =
      pre ++ Frames.withCitations cs m :: post).
Proof.
  intros Hne. apply String.eqb_neq in Hne.
  unfold Frames.citationsFrame, handleMessage, handleCitations. simpl.
  rewrite Hne. simpl. split; [done|]. split.
  - intros Hnot. unfold StateManager.addCitationsToMessage.
    apply (proj1 (proj2 (updateMessage_unknown_id messageId _ st))).
    by apply (proj1 (updateMessage_unknown_id messageId _ st)).
  - intros pre m post Hl Hid Hpre. unfold StateManager.addCitationsToMessage.
    rewrite getMessages_updateMessage, Hl.
    rewrite findIndex_first.
    + replace (length pre) with (length pre + 0) by lia. rewrite alter_app_r. simpl.
      do 2 f_equal.
    + intros y Hy. apply String.eqb_neq. intros Heq. apply Hpre.
      rewrite <- Heq. apply list_elem_of_In, in_map, list_elem_of_In, Hy.
    + rewrite Hid. apply String.eqb_refl.
Qed.

Lemma citations_frame_effect_witness :
  "msg_nowhere" <> "" /\
  snd (handleMessage (Scenario.at_ 1003 "lx1c")
         (Frames.citationsFrame "msg_nowhere" [Scenario.weakFirst]) Scenario.interleaved) =
    [ev_citations; ev_message citations_frame] /\
  fst (handleMessage (Scenario.at_ 1003 "lx1c")
         (Frames.citationsFrame "msg_nowhere" [Scenario.weakFirst]) Scenario.interleaved) =
    Scenario.interleaved.
Proof.
  assert (H1 : "msg_nowhere" <> "") by discriminate.
  destruct (citations_frame_effect (Scenario.at_ 1003 "lx1c") "msg_nowhere"
              [Scenario.weakFirst] Scenario.interleaved H1) as (He & Hs & _).
  split; [exact H1|]. split; [exact He|].
  apply Hs. apply (bool_decide_unpack _). vm_compute. reflexivity.
Defined.

(** ** Filtering and validating citations *)

Section FilterFacts.
Import CitationHandler CitationTools.

Lemma filter_filter_le (t1 t2 : Q) (cs : list Citation) :
  (t1 <= t2)%Q ->
  List.filter (fun c => Qle_bool t1 (score c))
              (List.filter (fun c => Qle_bool t2 (score c)) cs) =
  List.filter (fun c => Qle_bool t2 (score c)) cs.
Proof.
  intros Hle. induction cs as [|c cs IH]; [done|]. simpl.
  destruct (Qle_bool t2 (score c)) eqn:H2; [|done]. simpl.
  assert (H1 : Qle_bool t1 (score c) = true).
  { apply Qle_bool_iff. apply Qle_bool_iff in H2. by eapply Qle_trans. }
  by rewrite H1, IH.
Qed.

Lemma filter_filter_ge (t1 t2 : Q) (cs : list Citation) :
  (t1 <= t2)%Q ->
  List.filter (fun c => Qle_bool t2 (score c))
              (List.filter (fun c => Qle_bool t1 (score c)) cs) =
  List.filter (fun c => Qle_bool t2 (score c)) cs.
Proof.
  intros Hle. induction cs as [|c cs IH]; [done|]. simpl.
  destruct (Qle_bool t1 (score c)) eqn:H1; simpl.
  - by rewrite IH.
  - destruct (Qle_bool t2 (score c)) eqn:H2; [|done].
    apply Qle_bool_iff in H2.
    assert (Qle_bool t1 (score c) = true); [|congruence].
    apply Qle_bool_iff. by eapply Qle_trans.
Qed.

End FilterFacts.

(** X16.  Relevance filters compose: filtering with a threshold and then
    with a higher one, in either order, is filtering with the higher one.
    The result keeps the input order, and with the default threshold (0.5)
    a citation without a score is always dropped. *)
Theorem relevance_filters_compose (t1 t2 : Q) (cs : list Citation) :
  (t1 <= t2)%Q ->
  CitationTools.filterCitationsByRelevance
    (CitationTools.filterCitationsByRelevance cs (Some t1)) (Some t2) =
    CitationTools.filterCitationsByRelevance cs (Some t2) /\
  CitationTools.filterCitationsByRelevance
    (CitationTools.filterCitationsByRelevance cs (Some t2)) (Some t1) =
    CitationTools.filterCitationsByRelevance cs (Some t2) /\
  CitationTools.filterCitationsByRelevance cs (Some t2) `sublist_of` cs /\
  (forall c, c ∈ CitationTools.filterCitationsByRelevance cs None ->
             exists q, relevance_score c = Some q /\ (1 # 2 <= q)%Q).
Proof.
  intros Hle. unfold CitationTools.filterCitationsByRelevance.
  split; [by apply filter_filter_ge|]. split; [by apply filter_filter_le|]. split.
  - induction cs as [|c cs IH]; [done|]. simpl.
    destruct (Qle_bool t2 (CitationHandler.score c)).
    + by apply sublist_skip.
    + by apply sublist_cons.
  - intros c Hc. apply list_elem_of_In, filter_In in Hc as [_ Hs].
    apply Qle_bool_iff in Hs. unfold CitationHandler.score in Hs.
    destruct (relevance_score c) as [q|].
    + exists q. split; [done|]. revert Hs. unfold Qle. simpl. lia.
    + exfalso. revert Hs. unfold Qle. simpl. lia.
Qed.

Lemma relevance_filters_compose_witness :
  (3 # 10 <= 1 # 2)%Q /\
  CitationTools.filterCitationsByRelevance
    (CitationTools.filterCitationsByRelevance
       [Scenario.weakFirst; Scenario.strongSecond] (Some (3 # 10)%Q)) (Some (1 # 2)%Q) =
  [Scenario.strongSecond].
Proof.
  assert (H1 : (3 # 10 <= 1 # 2)%Q) by (unfold Qle; simpl; lia).
  split; [exact H1|].
  destruct (relevance_filters_compose (3 # 10)%Q (1 # 2)%Q
              [Scenario.weakFirst; Scenario.strongSecond] H1) as (Hc & _).
  rewrite Hc. reflexivity.
Defined.

(** X17.  [validateCitation] accepts exactly the objects whose [id],
    [content_snippet], [source_file_id], [source_file_url] and
    [source_file_name] are strings; in particular it accepts the object of
    every [Citation], with or without a score.  On [null] it throws instead
    of answering [false]. *)
Theorem validateCitation_accepts_objects_with_string_fields :
  (forall c : Citation,
      CitationTools.validateCitation (SessionJson.citationObject c) = Some true) /\
  CitationTools.validateCitation JsNull = None /\
  (forall v, CitationTools.validateCitation v = Some true ->
             exists ps id snippet source url name,
               v = JsObject ps /\
               SessionJson.lookupProp "id" ps = JsString id /\
               SessionJson.lookupProp "content_snippet" ps = JsString snippet /\
               SessionJson.lookupProp "source_file_id" ps = JsString source /\
               SessionJson.lookupProp "source_file_url" ps = JsString url /\
               SessionJson.lookupProp "source_file_name" ps = JsString name) /\
  (forall v, CitationTools.validateCitation v = None -> v = JsNull).
Proof.
  split; [done|]. split; [done|]. split.
  - intros v Hv. destruct v as [ | |b|q|str|ms|items|ps]; simpl in Hv; try discriminate.
    injection Hv as Hv.
    repeat (apply andb_prop in Hv as [Hv ?]).
    destruct (SessionJson.lookupProp "id" ps) eqn:E1; try discriminate.
    destruct (SessionJson.lookupProp "content_snippet" ps) eqn:E2; try discriminate.
    destruct (SessionJson.lookupProp "source_file_id" ps) eqn:E3; try discriminate.
    destruct (SessionJson.lookupProp "source_file_url" ps) eqn:E4; try discriminate.
    destruct (SessionJson.lookupProp "source_file_name" ps) eqn:E5; try discriminate.
    eexists _, _, _, _, _, _. repeat split; done.
  - intros v Hv. by destruct v.
Qed.

(** ** Searching citations *)

Section SearchFacts.
Import CitationHandler CitationTools.

Lemma searchBefore_asym (q : string) (x y : Citation) :
  searchBefore q x y = true -> searchBefore q y x = false.
Proof.
  unfold searchBefore.
  destruct (contentMatch q x), (contentMatch q y); simpl; try done.
  all: rewrite Qgtb_true, Qgtb_false; apply Qlt_le_weak.
Qed.

Lemma searchBefore_ntrans (q : string) (x y z : Citation) :
  searchBefore q z y = false -> searchBefore q y x = false -> searchBefore q z x = false.
Proof.
  unfold searchBefore.
  destruct (contentMatch q x), (contentMatch q y), (contentMatch q z); simpl; try done.
  all: rewrite !Qgtb_false; apply Qle_trans.
Qed.

Lemma filterOrThrow_Some {A} (f : A -> option bool) (l r : list A) :
  filterOrThrow f l = Some r ->
  r = List.filter (matched f) l /\ Forall (fun x => f x <> None) l.
Proof.
  revert r. induction l as [|x l IH]; intros r; simpl.
  - intros [= <-]. by split.
  - unfold matched at 1. destruct (f x) as [b|] eqn:Hx; [|done].
    destruct (filterOrThrow f l) as [r'|]; [|done].
    intros [= <-]. destruct (IH r' eq_refl) as [-> Hall].
    split; [by destruct b|]. constructor; [congruence|done].
Qed.

Lemma filterOrThrow_None {A} (f : A -> option bool) (l : list A) :
  filterOrThrow f l = None <-> exists x, x ∈ l /\ f x = None.
Proof.
  induction l as [|x l IH]; simpl.
  - split; [done|]. intros (x & Hx & _). by apply elem_of_nil in Hx.
  - destruct (f x) as [b|] eqn:Hx.
    + destruct (filterOrThrow f l) as [r'|].
      * split; [done|]. intros (y & [->|Hy]%elem_of_cons & Hn); [congruence|].
        exfalso. assert (Hr : Some r' = None) by (apply IH; by exists y). done.
      * split; [|done]. intros _. destruct (proj1 IH eq_refl) as (y & Hy & Hn).
        exists y. split; [by right|done].
    + split; [|done]. intros _. exists x. split; [by left|done].
Qed.

Lemma insert_ext {A} (f g : A -> A -> bool) (x : A) (l : list A) :
  (forall a b, f a b = g a b) -> insert f x l = insert g x l.
Proof.
  intros Hfg. induction l as [|y l IH]; [done|]. simpl. by rewrite Hfg, IH.
Qed.

Lemma sort_ext {A} (f g : A -> A -> bool) (l : list A) :
  (forall a b, f a b = g a b) -> sort f l = sort g l.
Proof.
  intros Hfg. induction l as [|y l IH]; [done|]. simpl.
  rewrite IH. by apply insert_ext.
Qed.

Lemma includes_empty (s : string) : includes s "" = true.
Proof. by destruct s. Qed.

Lemma filter_all {A} (p : A -> bool) (l : list A) :
  Forall (fun x => p x = true) l -> List.filter p l = l.
Proof.
  induction 1 as [|x l Hx _ IH]; [done|]. simpl. by rewrite Hx, IH.
Qed.

Lemma StronglySorted_weaken {A} (R S : A -> A -> Prop) (l : list A) :
  (forall a b, R a b -> S a b) -> StronglySorted R l -> StronglySorted S l.
Proof.
  intros HRS. induction 1 as [|x l _ IH Hx]; constructor; [done|].
  eapply Forall_impl; [exact Hx|]. intros b. apply HRS.
Qed.

End SearchFacts.

(** X18.  When [searchCitations] returns, its result is a rearrangement of
    the citations that match the lower-cased query in their content, file
    name or author; every citation matching in its content comes before
    every one that does not, and within either kind the scores descend. *)
Theorem searchCitations_content_matches_first
  (cs : list Citation) (query : string) (r : list Citation) :
  CitationTools.searchCitations cs query = Some r ->
  let q := CitationHandler.toLowerCase query in
  r ≡ₚ List.filter (CitationTools.matched (CitationTools.searchMatches q)) cs /\
  StronglySorted (fun a b => CitationTools.contentMatch q b = true ->
                             CitationTools.contentMatch q a = true) r /\
  StronglySorted (fun a b => CitationTools.contentMatch q a = CitationTools.contentMatch q b ->
                             (CitationHandler.score b <= CitationHandler.score a)%Q) r.
Proof.
  intros H. cbv zeta. unfold CitationTools.searchCitations in H.
  set (q := CitationHandler.toLowerCase query) in *.
  destruct (CitationTools.filterOrThrow (CitationTools.searchMatches q) cs)
    as [found|] eqn:Hf; [|done].
  injection H as <-. apply filterOrThrow_Some in Hf as [-> _].
  split; [apply sort_perm|].
  pose proof (sort_ordered (CitationTools.searchBefore q)
                (searchBefore_asym q)
                (fun x y z => searchBefore_ntrans q x y z)
                (List.filter (CitationTools.matched (CitationTools.searchMatches q)) cs)) as Hs.
  unfold Spec.ordered in Hs.
  split.
  - eapply StronglySorted_weaken; [|exact Hs]. 
    intros a b Hba Hb. unfold CitationTools.searchBefore in Hba.
    destruct (CitationTools.contentMatch q a); [done|].
    rewrite Hb in Hba. done.
  - eapply StronglySorted_weaken; [|exact Hs].
    intros a b Hba Heq. unfold CitationTools.searchBefore in Hba.
    rewrite Heq in Hba.
    destruct (CitationTools.contentMatch q b); simpl in Hba; by apply Qgtb_false.
Qed.

Lemma searchCitations_content_matches_first_witness :
  CitationTools.searchCitations [Scenario.weakFirst; Scenario.strongSecond] "PDF" =
    Some [Scenario.strongSecond; Scenario.weakFirst] /\
  StronglySorted (fun a b => CitationTools.contentMatch "pdf" b = true ->
                             CitationTools.contentMatch "pdf" a = true)
                 [Scenario.strongSecond; Scenario.weakFirst].
Proof.
  assert (H : CitationTools.searchCitations [Scenario.weakFirst; Scenario.strongSecond] "PDF" =
              Some [Scenario.strongSecond; Scenario.weakFirst])
    by (vm_compute; reflexivity).
  split; [exact H|].
  exact (proj1 (proj2 (searchCitations_content_matches_first _ _ _ H))).
Defined.

(** X19.  [searchCitations] throws exactly when some citation, matching or
    not, has metadata whose [author] is neither a string nor absent nor
    [null]; the query plays no part in that.  With the empty query every
    citation matches, so a search that returns gives all the citations by
    descending score. *)
Theorem searchCitations_throws_on_author_that_is_no_string (cs : list Citation) :
  (forall query,
      CitationTools.searchCitations cs query = None <->
      exists c md, c ∈ cs /\ cit_metadata c = Some md /\
                   SessionJson.get "author" md <> JsUndefined /\
                   SessionJson.get "author" md <> JsNull /\
                   CitationTools.isString (SessionJson.get "author" md) = false) /\
  (forall r, CitationTools.searchCitations cs "" = Some r ->
             r = CitationHandler.sort CitationHandler.citationBefore cs).
Proof.
  split.
  - intros query. unfold CitationTools.searchCitations.
    set (q := CitationHandler.toLowerCase query).
    assert (Hthrow : forall c, CitationTools.searchMatches q c = None <->
              exists md, cit_metadata c = Some md /\
                   SessionJson.get "author" md <> JsUndefined /\
                   SessionJson.get "author" md <> JsNull /\
                   CitationTools.isString (SessionJson.get "author" md) = false).
    { intros c. unfold CitationTools.searchMatches, CitationTools.authorMatch.
      destruct (cit_metadata c) as [md|].
      - destruct (SessionJson.get "author" md) eqn:Ha; simpl; split; try done.
        all: try (intros _; exists md; rewrite Ha; by repeat split).
        all: intros (md' & [= <-] & H1 & H2 & H3); rewrite Ha in *; done.
      - split; [done|]. by intros (md & ? & _). }
    destruct (CitationTools.filterOrThrow (CitationTools.searchMatches q) cs) as [found|] eqn:Hf.
    + split; [done|]. intros (c & md & Hc & Hmd & H1 & H2 & H3). exfalso.
      assert (Hn : CitationTools.filterOrThrow (CitationTools.searchMatches q) cs = None).
      { apply filterOrThrow_None. exists c. split; [done|]. apply Hthrow. by exists md. }
      congruence.
    + split; [|done]. intros _.
      apply filterOrThrow_None in Hf as (c & Hc & Hn). apply Hthrow in Hn as (md & Hmd).
      by exists c, md.
  - intros r. unfold CitationTools.searchCitations. simpl CitationHandler.toLowerCase.
    destruct (CitationTools.filterOrThrow (CitationTools.searchMatches "") cs)
      as [found|] eqn:Hf; [|done].
    intros [= <-]. apply filterOrThrow_Some in Hf as [-> Hall].
    rewrite filter_all.
    + apply sort_ext. intros a b.
      unfold CitationTools.searchBefore, CitationTools.contentMatch.
      by rewrite !includes_empty.
    + eapply Forall_impl; [exact Hall|]. intros c Hc. simpl in Hc.
      unfold CitationTools.matched. revert Hc. unfold CitationTools.searchMatches.
      destruct (CitationTools.authorMatch "" c); [|done]. intros _.
      unfold CitationTools.contentMatch. by rewrite includes_empty.
Qed.

(** ** What de-duplication guarantees *)

Section KeepFirstPairs.
(** The loop of [deduplicateCitations] for a test [some(existing => rel x
    existing)]. *)
Context {A : Type} (rel : A -> A -> bool).

Lemma ForallOrdPairs_snoc (R : A -> A -> Prop) (l : list A) (x : A) :
  ForallOrdPairs R l -> Forall (fun a => R a x) l -> ForallOrdPairs R (l ++ [x]).
Proof.
  induction 1 as [|a l Ha Hl IH]; intros Hx; simpl.
  - constructor; constructor.
  - apply Forall_cons in Hx as [Hax Hx]. constructor; [|by apply IH].
    apply Forall_app. split; [done|]. by constructor.
Qed.

Lemma existsb_false_Forall (p : A -> bool) (l : list A) :
  existsb p l = false -> Forall (fun a => p a = false) l.
Proof.
  induction l as [|a l IH]; simpl; [constructor|].
  intros H. apply orb_false_elim in H as [H1 H2]. constructor; [done|by apply IH].
Qed.

Lemma keep_pairwise (l kept : list A) :
  ForallOrdPairs (fun a b => rel b a = false) kept ->
  ForallOrdPairs (fun a b => rel b a = false)
    (fold_left (fun kept x => if existsb (rel x) kept then kept else kept ++ [x]) l kept).
Proof.
  revert kept. induction l as [|x l IH]; intros kept Hk; simpl; [done|].
  apply IH. destruct (existsb (rel x) kept) eqn:Hd; [done|].
  apply ForallOrdPairs_snoc; [done|]. by apply existsb_false_Forall.
Qed.

Lemma keep_covers (l kept : list A) (c : A) :
  c ∈ l ->
  let r := fold_left (fun kept x => if existsb (rel x) kept then kept else kept ++ [x]) l kept in
  c ∈ r \/ exists e, e ∈ r /\ rel c e = true.
Proof.
  cbv zeta. revert kept. induction l as [|x l IH]; intros kept Hc; simpl.
  - inversion Hc.
  - apply elem_of_cons in Hc as [->|Hc]; [|by apply IH].
    destruct (keep_sublist (fun kept x => existsb (rel x) kept) l
                (if existsb (rel x) kept then kept else kept ++ [x])) as (r & Hr & _).
    rewrite Hr. destruct (existsb (rel x) kept) eqn:Hd.
    + right. apply existsb_exists in Hd as (e & He & Hrel).
      exists e. split; [|done]. apply elem_of_app. left. by apply list_elem_of_In.
    + left. rewrite !elem_of_app, list_elem_of_singleton. tauto.
Qed.

Lemma keep_all (l kept : list A) :
  (forall x e, rel x e = false) ->
  fold_left (fun kept x => if existsb (rel x) kept then kept else kept ++ [x]) l kept =
  kept ++ l.
Proof.
  intros Hrel. revert kept. induction l as [|x l IH]; intros kept; simpl.
  - by rewrite app_nil_r.
  - assert (Hd : existsb (rel x) kept = false).
    { clear IH. induction kept as [|e kept IHk]; simpl; [done|]. by rewrite Hrel, IHk. }
    by rewrite Hd, IH, <- app_assoc.
Qed.

Lemma pairwise_NoDup {B} (f : A -> B) (l : list A) :
  ForallOrdPairs (fun a b => f a <> f b) l -> NoDup (map f l).
Proof.
  induction 1 as [|a l Ha Hl IH]; simpl; constructor; [|done].
  intros Hin. apply list_elem_of_In, in_map_iff in Hin as (b & Heq & Hb).
  rewrite Forall_forall in Ha. apply (Ha b); [by apply list_elem_of_In|done].
Qed.

Lemma ForallOrdPairs_weaken (R S : A -> A -> Prop) (l : list A) :
  (forall a b, R a b -> S a b) -> ForallOrdPairs R l -> ForallOrdPairs S l.
Proof.
  intros HRS. induction 1 as [|a l Ha Hl IH]; constructor; [|done].
  eapply Forall_impl; [exact Ha|]. intros b. apply HRS.
Qed.

End KeepFirstPairs.

Section SimilarityRatio.
Import CitationHandler.

Lemma Zpos_of_nat (n : nat) : 1 <= n -> Zpos (Pos.of_nat n) = Z.of_nat n.
Proof.
  intros Hn. rewrite <- positive_nat_Z. f_equal. apply Nat2Pos.id. lia.
Qed.

Lemma elem_of_common (w1 w2 : list string) (x : string) :
  x ∈ new_Set (List.filter (fun w => Set_has w w2) w1) <-> x ∈ w1 /\ x ∈ w2.
Proof.
  rewrite elem_of_new_Set, list_elem_of_In, filter_In, <- list_elem_of_In.
  by rewrite Set_has_true.
Qed.

Lemma common_le_union (w1 w2 : list string) :
  length (new_Set (List.filter (fun w => Set_has w w2) w1)) <=
  length (new_Set (w1 ++ w2)).
Proof.
  apply submseteq_length, NoDup_submseteq; [apply NoDup_new_Set|].
  intros x Hx. apply elem_of_common in Hx as [Hx _].
  apply elem_of_new_Set, elem_of_app. by left.
Qed.

Lemma common_sym (w1 w2 : list string) :
  length (new_Set (List.filter (fun w => Set_has w w2) w1)) =
  length (new_Set (List.filter (fun w => Set_has w w1) w2)).
Proof.
  apply Permutation_length, NoDup_Permutation; try apply NoDup_new_Set.
  intros x. rewrite !elem_of_common. tauto.
Qed.

Lemma union_sym (w1 w2 : list string) :
  length (new_Set (w1 ++ w2)) = length (new_Set (w2 ++ w1)).
Proof.
  apply Permutation_length, NoDup_Permutation; try apply NoDup_new_Set.
  intros x. rewrite !elem_of_new_Set, !elem_of_app. tauto.
Qed.

Lemma common_self (w : list string) :
  length (new_Set (List.filter (fun x => Set_has x w) w)) = length (new_Set (w ++ w)).
Proof.
  apply Permutation_length, NoDup_Permutation; try apply NoDup_new_Set.
  intros x. rewrite elem_of_common, elem_of_new_Set, elem_of_app. tauto.
Qed.

Lemma similarity_le_1 (text1 text2 : string) :
  (calculateContentSimilarity text1 text2 <= 1)%Q.
Proof.
  unfold calculateContentSimilarity. cbv zeta. unfold Qle. simpl.
  rewrite Zpos_of_nat by apply similarity_union_nonempty.
  pose proof (common_le_union (new_Set (split (toLowerCase text1)))
                              (new_Set (split (toLowerCase text2)))). lia.
Qed.

Lemma similarity_same_words (text1 text2 : string) :
  toLowerCase text1 = toLowerCase text2 ->
  (calculateContentSimilarity text1 text2 == 1)%Q.
Proof.
  intros Heq. unfold calculateContentSimilarity. cbv zeta. rewrite <- Heq.
  unfold Qeq. simpl.
  rewrite Zpos_of_nat by apply similarity_union_nonempty.
  rewrite common_self. lia.
Qed.

End SimilarityRatio.

(** X20.  [calculateContentSimilarity] is a ratio between 0 and 1 that does
    not depend on the order of its arguments, and it is 1 for two texts
    that differ in letter case only (so for a text and itself). *)
Theorem similarity_is_symmetric_ratio (text1 text2 : string) :
  (0 <= CitationHandler.calculateContentSimilarity text1 text2)%Q /\
  (CitationHandler.calculateContentSimilarity text1 text2 <= 1)%Q /\
  (CitationHandler.calculateContentSimilarity text1 text2 ==
   CitationHandler.calculateContentSimilarity text2 text1)%Q /\
  (CitationHandler.toLowerCase text1 = CitationHandler.toLowerCase text2 ->
   (CitationHandler.calculateContentSimilarity text1 text2 == 1)%Q).
Proof.
  split; [|split; [apply similarity_le_1|split; [|apply similarity_same_words]]].
  - unfold CitationHandler.calculateContentSimilarity, Qle. simpl. lia.
  - unfold CitationHandler.calculateContentSimilarity. cbv zeta. unfold Qeq. simpl.
    rewrite !Zpos_of_nat by apply similarity_union_nonempty.
    rewrite (common_sym (CitationHandler.new_Set _) (CitationHandler.new_Set _)).
    rewrite (union_sym (CitationHandler.new_Set _) (CitationHandler.new_Set _)).
    reflexivity.
Qed.

Lemma deduplicate_pairwise (citations : list Citation) (similarityThreshold : option Q) :
  ForallOrdPairs
    (fun a b => (CitationHandler.calculateContentSimilarity
                   (content_snippet b) (content_snippet a) <=
                 match similarityThreshold with Some q => q | None => (8 # 10)%Q end)%Q)
    (CitationHandler.deduplicateCitations citations similarityThreshold).
Proof.
  unfold CitationHandler.deduplicateCitations.
  set (threshold := match similarityThreshold with Some q => q | None => _ end).
  set (rel := fun c e : Citation =>
         CitationHandler.Qgtb (CitationHandler.calculateContentSimilarity
                                 (content_snippet c) (content_snippet e)) threshold).
  change (fun deduplicated citation =>
            if CitationHandler.isDuplicate threshold deduplicated citation
            then deduplicated else deduplicated ++ [citation])
    with (fun kept x => if existsb (rel x) kept then kept else kept ++ [x]).
  eapply ForallOrdPairs_weaken; [|apply (keep_pairwise rel); constructor].
  intros a b Hab. by apply Qgtb_false.
Qed.

Section RoundedSimilarity.
Variable fl : Q -> Q.
Hypothesis fl_monotone : forall a b : Q, (a <= b)%Q -> (fl a <= fl b)%Q.

(** A rounded ratio above a double lies above it before rounding too. *)
Lemma above_before_rounding (r t : Q) :
  (fl t == t)%Q -> (t < fl r)%Q -> (t < r)%Q.
Proof.
  intros Ht Hlt. apply Qnot_le_lt. intros Hle.
  apply fl_monotone in Hle. rewrite Ht in Hle. by apply (Qlt_not_le _ _ Hlt).
Qed.

End RoundedSimilarity.

(** With exact arithmetic for [fl] the de-duplication in double precision
    is the one on exact ratios. *)
Lemma deduplicate_exact (citations : list Citation) (threshold : Q) :
  Doubles.deduplicateCitations (fun q => q) citations (Some threshold) =
  CitationHandler.deduplicateCitations citations (Some threshold).
Proof. reflexivity. Qed.

(** X21.  [deduplicateCitations] as the code computes it, with the ratio
    rounded to a double ([fl], any monotone rounding) and compared with a
    double threshold.  The survivors are a subsequence of the input that
    starts with its first citation; no survivor's rounded similarity to an
    earlier survivor is above the threshold; and every citation of the input
    either survives or is more similar than the threshold to a survivor, in
    the rounded ratio and therefore in the exact one. *)
Theorem deduplicate_survivors_differ_and_cover
        (fl : Q -> Q) (citations : list Citation) (similarityThreshold : option Q) :
  let threshold :=
    match similarityThreshold with Some q => q | None => Doubles.defaultThreshold fl end in
  let kept := Doubles.deduplicateCitations fl citations similarityThreshold in
  (forall a b : Q, (a <= b)%Q -> (fl a <= fl b)%Q) ->
  (fl threshold == threshold)%Q ->
  kept `sublist_of` citations /\
  ForallOrdPairs
    (fun a b => (fl (CitationHandler.calculateContentSimilarity
                       (content_snippet b) (content_snippet a)) <= threshold)%Q) kept /\
  (forall c, c ∈ citations ->
     c ∈ kept \/
     exists e, e ∈ kept /\
       (threshold < fl (CitationHandler.calculateContentSimilarity
                          (content_snippet c) (content_snippet e)))%Q /\
       (threshold < CitationHandler.calculateContentSimilarity
                      (content_snippet c) (content_snippet e))%Q) /\
  (forall c rest, citations = c :: rest -> exists rest', kept = c :: rest').
Proof.
  cbv zeta. intros Hmono Hdouble. unfold Doubles.deduplicateCitations.
  set (threshold := match similarityThreshold with Some q => q | None => _ end) in *.
  set (rel := fun c e : Citation =>
         CitationHandler.Qgtb (Doubles.calculateContentSimilarity fl
                                 (content_snippet c) (content_snippet e)) threshold).
  change (fun deduplicated citation =>
            if Doubles.isDuplicate fl threshold deduplicated citation
            then deduplicated else deduplicated ++ [citation])
    with (fun kept x => if existsb (rel x) kept then kept else kept ++ [x]).
  split; [|split; [|split]].
  - destruct (keep_sublist (fun kept x => existsb (rel x) kept) citations [])
      as (r & Hr & Hsub).
    rewrite Hr. exact Hsub.
  - eapply ForallOrdPairs_weaken; [|apply (keep_pairwise rel); constructor].
    intros a b Hab. by apply Qgtb_false.
  - intros c Hc. destruct (keep_covers rel citations [] c Hc) as [?|(e & He & Hrel)]; [by left|].
    right. exists e. split; [done|]. apply Qgtb_true in Hrel.
    split; [exact Hrel|]. by apply (above_before_rounding fl Hmono _ _ Hdouble).
  - intros c rest ->. simpl.
    destruct (keep_sublist (fun kept x => existsb (rel x) kept) rest [c]) as (r & Hr & _).
    rewrite Hr. by exists r.
Qed.

Lemma deduplicate_survivors_differ_and_cover_witness :
  (forall a b : Q, (a <= b)%Q -> (Doubles.toGrid a <= Doubles.toGrid b)%Q) /\
  (Doubles.toGrid (1 # 2) == 1 # 2)%Q /\
  Doubles.deduplicateCitations Doubles.toGrid
    [Scenario.weakFirst; Scenario.strongSecond; Scenario.weakFirst] (Some (1 # 2)%Q)
    `sublist_of` [Scenario.weakFirst; Scenario.strongSecond; Scenario.weakFirst].
Proof.
  assert (H1 : forall a b : Q, (a <= b)%Q -> (Doubles.toGrid a <= Doubles.toGrid b)%Q).
  { intros a b Hab. unfold Doubles.toGrid, Qle. cbn [Qnum Qden].
    apply Z.mul_le_mono_nonneg_r; [lia|].
    apply Qfloor_resp_le. apply Qmult_le_compat_r; [exact Hab|]. unfold Qle. simpl. lia. }
  assert (H2 : (Doubles.toGrid (1 # 2) == 1 # 2)%Q) by reflexivity.
  split; [exact H1|]. split; [exact H2|].
  exact (proj1 (deduplicate_survivors_differ_and_cover Doubles.toGrid
                  [Scenario.weakFirst; Scenario.strongSecond; Scenario.weakFirst]
                  (Some (1 # 2)%Q) H1 H2)).
Defined.

(** X22.  With a threshold below 1 (the default 0.8 is one) no two
    surviving citations have the same snippet up to letter case. *)
Theorem deduplicate_leaves_distinct_snippets (citations : list Citation) (threshold : Q) :
  (threshold < 1)%Q ->
  NoDup (map (fun c => CitationHandler.toLowerCase (content_snippet c))
             (CitationHandler.deduplicateCitations citations (Some threshold))) /\
  NoDup (map (fun c => CitationHandler.toLowerCase (content_snippet c))
             (CitationHandler.deduplicateCitations citations None)).
Proof.
  intros Hlt.
  assert (H : forall t o, (t < 1)%Q ->
            t = match o with Some q => q | None => (8 # 10)%Q end ->
            NoDup (map (fun c => CitationHandler.toLowerCase (content_snippet c))
                       (CitationHandler.deduplicateCitations citations o))).
  { intros t o Ht Heq. apply pairwise_NoDup.
    pose proof (deduplicate_pairwise citations o) as Hp.
    rewrite <- Heq in Hp.
    eapply ForallOrdPairs_weaken; [|exact Hp].
    intros a b Hab Hsame. simpl in Hab.
    pose proof (similarity_same_words (content_snippet b) (content_snippet a)
                  (eq_sym Hsame)) as H1.
    rewrite H1 in Hab. by apply Qle_not_lt in Hab. }
  split.
  - by apply (H threshold).
  - apply (H (8 # 10)%Q); [|done]. unfold Qlt. simpl. lia.
Qed.

Lemma deduplicate_leaves_distinct_snippets_witness :
  (1 # 2 < 1)%Q /\
  NoDup (map (fun c => CitationHandler.toLowerCase (content_snippet c))
             (CitationHandler.deduplicateCitations
                [Scenario.weakFirst; Scenario.strongSecond; Scenario.weakFirst]
                (Some (1 # 2)%Q))).
Proof.
  assert (H1 : (1 # 2 < 1)%Q) by (vm_compute; reflexivity).
  split; [exact H1|].
  exact (proj1 (deduplicate_leaves_distinct_snippets
                  [Scenario.weakFirst; Scenario.strongSecond; Scenario.weakFirst]
                  (1 # 2)%Q H1)).
Defined.

(** X23.  With a threshold of 1 or more nothing counts as a duplicate:
    [deduplicateCitations] returns its input, repeated citations included. *)
Theorem deduplicate_keeps_all_from_threshold_1 (citations : list Citation) (threshold : Q) :
  (1 <= threshold)%Q ->
  CitationHandler.deduplicateCitations citations (Some threshold) = citations.
Proof.
  intros Hle. unfold CitationHandler.deduplicateCitations.
  set (rel := fun c e : Citation =>
         CitationHandler.Qgtb (CitationHandler.calculateContentSimilarity
                                 (content_snippet c) (content_snippet e)) threshold).
  change (fun deduplicated citation =>
            if CitationHandler.isDuplicate threshold deduplicated citation
            then deduplicated else deduplicated ++ [citation])
    with (fun kept x => if existsb (rel x) kept then kept else kept ++ [x]).
  rewrite keep_all; [done|].
  intros x e. apply Qgtb_false. eapply Qle_trans; [apply similarity_le_1|done].
Qed.

Lemma deduplicate_keeps_all_from_threshold_1_witness :
  (1 <= 1)%Q /\
  CitationHandler.deduplicateCitations [Scenario.weakFirst; Scenario.weakFirst] (Some 1%Q) =
  [Scenario.weakFirst; Scenario.weakFirst].
Proof.
  assert (H1 : (1 <= 1)%Q) by (unfold Qle; simpl; lia).
  split; [exact H1|].
  exact (deduplicate_keeps_all_from_threshold_1
           [Scenario.weakFirst; Scenario.weakFirst] 1%Q H1).
Defined.

(** ** Grouping as a partition *)

Section PartitionFacts.
Import CitationHandler Spec.

Lemma concat_map_Permutation {A B} (f : A -> list B) (l l' : list A) :
  l ≡ₚ l' -> concat (map f l) ≡ₚ concat (map f l').
Proof.
  induction 1 as [|x l l' _ IH|x y l|l l' l'' _ IH1 _ IH2]; simpl.
  - done.
  - by apply Permutation_app_head.
  - rewrite !app_assoc. apply Permutation_app_tail, Permutation_app_comm.
  - by etrans.
Qed.

Lemma concat_map_pointwise {A B} (f g : A -> list B) (l : list A) :
  (forall x, f x ≡ₚ g x) -> concat (map f l) ≡ₚ concat (map g l).
Proof.
  intros Hfg. induction l as [|x l IH]; simpl; [done|].
  by apply Permutation_app.
Qed.

Lemma concat_one_more {B} (f : string -> list B) (k0 : string) (c : B) (ks : list string) :
  NoDup ks ->
  concat (map (fun k => f k ++ (if String.eqb k0 k then [c] else [])) ks) ≡ₚ
  concat (map f ks) ++ (if Set_has k0 ks then [c] else []).
Proof.
  induction 1 as [|a ks Ha Hnd IH]; simpl; [done|].
  rewrite IH. destruct (String.eqb_spec k0 a) as [->|Hne]; simpl.
  - apply Set_has_false in Ha. rewrite Ha, !app_nil_r.
    rewrite <- !app_assoc. apply Permutation_app_head, Permutation_app_comm.
  - by rewrite app_nil_r, app_assoc.
Qed.

(** Putting the members of all sources one after the other gives the
    citations back, in another order. *)
Lemma members_partition (cs : list Citation) :
  concat (map (fun k => membersOf k cs) (firstSeenSources cs)) ≡ₚ cs.
Proof.
  induction cs as [|c cs IH] using rev_ind; [done|].
  rewrite firstSeenSources_snoc.
  assert (Hstep : forall ks, NoDup ks ->
            concat (map (fun k => membersOf k (cs ++ [c])) ks) ≡ₚ
            concat (map (fun k => membersOf k cs) ks) ++
            (if Set_has (source_file_id c) ks then [c] else [])).
  { intros ks Hnd. rewrite <- (concat_one_more _ _ _ _ Hnd).
    apply concat_map_pointwise. intros k. by rewrite membersOf_snoc. }
  assert (Hnd : NoDup (firstSeenSources cs)) by apply NoDup_new_Set.
  destruct (Set_has (source_file_id c) (firstSeenSources cs)) eqn:Hk.
  - rewrite (Hstep (firstSeenSources cs) Hnd), Hk. by rewrite IH.
  - rewrite map_app, concat_app. simpl. rewrite app_nil_r.
    rewrite (Hstep (firstSeenSources cs) Hnd), Hk, app_nil_r, IH.
    rewrite membersOf_snoc, String.eqb_refl.
    apply Set_has_false in Hk.
    by rewrite (membersOf_unseen _ _ Hk).
Qed.

End PartitionFacts.

(** X24.  Grouping loses and repeats nothing: the citations of all groups
    together are the input citations in another order.  Every group has at
    least one citation, all of its own source, and [total_chunks] counts
    them; its URL and file name are those of the first input citation of
    that source, whatever the later ones say. *)
Theorem grouping_partitions_citations (cs : list Citation) :
  concat (map grp_citations (CitationHandler.groupCitationsBySource cs)) ≡ₚ cs /\
  (forall g, g ∈ CitationHandler.groupCitationsBySource cs ->
     total_chunks g = length (grp_citations g) /\
     1 <= total_chunks g /\
     Forall (fun c => source_file_id c = grp_source_file_id g) (grp_citations g) /\
     exists first rest,
       Spec.membersOf (grp_source_file_id g) cs = first :: rest /\
       grp_source_file_url g = source_file_url first /\
       grp_source_file_name g = source_file_name first).
Proof.
  rewrite groupCitationsBySource_spec. unfold Spec.groupsByRelevance. split.
  - rewrite (concat_map_Permutation _ _ _ (sort_perm _ _)), map_map.
    rewrite <- (members_partition cs) at 2.
    apply concat_map_pointwise. intros k. simpl. apply sort_perm.
  - intros g Hg. rewrite sort_perm in Hg.
    apply list_elem_of_In, in_map_iff in Hg as (k & <- & Hk). simpl.
    apply list_elem_of_In, membersOf_seen in Hk as (first & rest & Hm).
    rewrite Hm. split; [|split; [|split]].
    + symmetry. apply Permutation_length, sort_perm.
    + simpl. lia.
    + apply Forall_forall. intros c Hc. apply list_elem_of_In in Hc.
      rewrite sort_perm, <- Hm in Hc. unfold Spec.membersOf in Hc.
      apply filter_In in Hc as [_ Hc]. by apply String.eqb_eq.
    + by exists first, rest.
Qed.

(** ** What the store operations leave alone *)

Section BookkeepingFacts.
Import Spec Bookkeeping.

(** Whatever [addMessage] and [updateMessage] preserve, every inbound frame
    preserves. *)
Lemma handleMessage_preserves (R : StateManager.t -> StateManager.t -> Prop) :
  (forall st, R st st) ->
  (forall e m st, R st (snd (StateManager.addMessage e m st))) ->
  (forall messageId u st, R st (snd (StateManager.updateMessage messageId u st))) ->
  forall e raw st, R st (fst (handleMessage e raw st)).
Proof.
  intros Hrefl Hadd Hupd e raw st.
  destruct raw as [[ty data]|]; [|apply Hrefl]. unfold handleMessage. simpl.
  destruct ty; simpl; try apply Hrefl.
  - unfold handleMessageChunk.
    destruct (StateManager.getLastMessage st) as [m|]; [|apply Hrefl].
    destruct (is_assistant m && truthy_flag (isStreaming m)); [|apply Hrefl].
    destruct data; [|apply Hrefl]. simpl. apply Hupd.
  - unfold handleMessageComplete.
    destruct (StateManager.getLastMessage st) as [m|]; [|apply Hrefl].
    destruct (is_assistant m); [|apply Hrefl].
    destruct data; [|apply Hrefl]. simpl. apply Hupd.
  - unfold handleCitations. destruct data as [d|]; [|apply Hrefl].
    destruct (d_citations d); [|apply Hrefl].
    destruct (truthy_string (d_messageId d)); [|apply Hrefl]. simpl.
    apply Hupd.
  - exact (Hadd e (mkNewMessage RAssistant "" Streaming (Some true) None None) st).
Qed.

Lemma sessionKept_refl st : sessionKept st st.
Proof. split; [done|]. intros s Hs. by exists s. Qed.

Lemma sessionKept_trans a b c : sessionKept a b -> sessionKept b c -> sessionKept a c.
Proof.
  intros [Hc1 H1] [Hc2 H2]. split; [congruence|].
  intros s Hs. destruct (H1 s Hs) as (s1 & Hs1 & ? & ? & ?).
  destruct (H2 s1 Hs1) as (s2 & Hs2 & ? & ? & ?).
  exists s2. repeat split; congruence.
Qed.

Lemma sessionKept_addMessage e m st :
  sessionKept st (snd (StateManager.addMessage e m st)).
Proof.
  split; [done|]. intros s Hs. unfold StateManager.addMessage. simpl. rewrite Hs.
  eexists. by repeat split.
Qed.

Lemma sessionKept_updateMessage messageId u st :
  sessionKept st (snd (StateManager.updateMessage messageId u st)).
Proof.
  unfold StateManager.updateMessage.
  destruct (StateManager.currentSession st) as [s|] eqn:Hs; [|apply sessionKept_refl].
  destruct (StateManager.findIndex _ _) as [i|]; [|apply sessionKept_refl].
  destruct (messages s !! i); [|apply sessionKept_refl].
  split; [done|]. intros s0 Hs0. simpl. rewrite Hs in Hs0. injection Hs0 as <-.
  eexists. by repeat split.
Qed.

Lemma sessionKept_applyOp op st :
  keepsSession op = true -> sessionKept st (applyOp op st).
Proof.
  destruct op; simpl; intros Hk; try done.
  - apply (handleMessage_preserves sessionKept);
      [apply sessionKept_refl|apply sessionKept_addMessage|apply sessionKept_updateMessage].
  - apply sessionKept_addMessage.
  - apply sessionKept_updateMessage.
  - apply sessionKept_updateMessage.
  - unfold StateManager.clearSession.
    destruct (StateManager.currentSession st) as [s|] eqn:Hs; [|apply sessionKept_refl].
    split; [done|]. intros s0 Hs0. simpl. rewrite Hs in Hs0. injection Hs0 as <-.
    eexists. by repeat split.
Qed.

Lemma noFewer_applyOp op st :
  keepsMessages op = true -> noFewer st (applyOp op st).
Proof.
  assert (Hrefl : forall st, noFewer st st) by (intros ?; unfold noFewer; lia).
  assert (Hadd : forall e m st, noFewer st (snd (StateManager.addMessage e m st))).
  { intros e m st0. unfold noFewer, StateManager.getMessages, StateManager.addMessage. simpl.
    rewrite length_app. destruct (StateManager.currentSession st0); simpl; lia. }
  assert (Hupd : forall messageId u st,
             noFewer st (snd (StateManager.updateMessage messageId u st))).
  { intros messageId u st0. unfold noFewer, StateManager.getMessages, StateManager.updateMessage.
    destruct (StateManager.currentSession st0) as [s|] eqn:Hs; simpl; [|by rewrite Hs].
    destruct (StateManager.findIndex _ _) as [i|]; simpl; [|by rewrite Hs].
    destruct (messages s !! i); simpl; [|by rewrite Hs].
    by rewrite length_insert. }
  destruct op; simpl; intros Hk; try discriminate.
  - by apply (handleMessage_preserves noFewer).
  - apply Hadd.
  - apply Hupd.
  - apply Hupd.
Qed.

End BookkeepingFacts.

(** X25.  Only [createNewSession] replaces the session: over any sequence of
    inbound frames, [addMessage], [updateMessage], [addCitationsToMessage]
    and [clearSession] calls, a session once present stays present with its
    id, creation time and title, and the connection state is not touched.
    If [clearSession] is not among them either, the number of messages never
    goes down. *)
Theorem operations_keep_the_session (ops : list Spec.Op) (st : StateManager.t) :
  forallb Bookkeeping.keepsSession ops = true ->
  Bookkeeping.sessionKept st (Spec.applyOps ops st) /\
  (forallb Bookkeeping.keepsMessages ops = true ->
   Bookkeeping.noFewer st (Spec.applyOps ops st)).
Proof.
  unfold Spec.applyOps. revert st. induction ops as [|op ops IH]; intros st Hk; simpl.
  - split; [apply sessionKept_refl|]. intros _. unfold Bookkeeping.noFewer. lia.
  - simpl in Hk. apply andb_prop in Hk as [Hop Hk].
    destruct (IH (Spec.applyOp op st) Hk) as [Hs Hn]. split.
    + eapply sessionKept_trans; [by apply sessionKept_applyOp|exact Hs].
    + intros Hm. apply andb_prop in Hm as [Hop' Hm].
      pose proof (noFewer_applyOp op st Hop') as H1. specialize (Hn Hm).
      unfold Bookkeeping.noFewer in *. lia.
Qed.

Lemma operations_keep_the_session_witness :
  forallb Bookkeeping.keepsSession
    [Spec.OpAddMessage (Scenario.at_ 2000 "lx2a") (mkNewMessage RUser "hello" Sent None None None);
     Spec.OpClearSession] = true /\
  Bookkeeping.sessionKept Scenario.freshStore
    (Spec.applyOps
       [Spec.OpAddMessage (Scenario.at_ 2000 "lx2a") (mkNewMessage RUser "hello" Sent None None None);
        Spec.OpClearSession] Scenario.freshStore).
Proof.
  assert (H1 : forallb Bookkeeping.keepsSession
    [Spec.OpAddMessage (Scenario.at_ 2000 "lx2a") (mkNewMessage RUser "hello" Sent None None None);
     Spec.OpClearSession] = true) by reflexivity.
  split; [exact H1|].
  exact (proj1 (operations_keep_the_session _ Scenario.freshStore H1)).
Defined.
